(** * Zora alarm scheduling and triggering engine

    A shallow embedding of the scheduling logic of the Zora alarm
    application (TypeScript/React) and the properties its specification
    states about it.

    The repository carries the application component in several
    variants; two of them hold the logic studied here:

    - [V1]: the variant with the exponential volume ramp
      ([triggeredAlarmsRef], [playImmediateAiGreeting]);
    - [V2]: the variant with Event-kind items, vibration and the
      ringing reference ([triggeredItemsRef], [playAiGreeting],
      [playEventChime], [ringingAlarmRef]).

    [isAlarmOnDate] is textually the same in both and is shared.  The
    editor modal's [handleSave] also exists in two variants
    ([ModalV1], [ModalV2]).

    Conventions of the embedding.  A handler is a function from the
    component's state to the new state and the list of actions it
    performs on the outside world.  A handler and the re-render it
    causes, with the effects that depend on the changed state, form one
    atomic step ([step]); what the component lives through is a list of
    such steps ([run]).  The alarm list is an input of each tick, since
    the user may edit it at any moment.  Requests to the narration
    service are split in two: the tick emits [RequestGreeting], and the
    answer comes back later as a step of its own, carrying the alarm
    the request was made for.  Not modelled: the playback position of
    the audio element, a rejected [play()], and a host without Web
    Audio. *)

From Stdlib Require Import ZArith List Bool Lia Ascii String.
From Stdlib Require Import Floats.
From stdpp Require Import gmap strings.
Import ListNotations.

Open Scope string_scope.
Open Scope list_scope.
Open Scope Z_scope.

(** ** JavaScript strings

    Strings are compared by code unit, position by position; a proper
    prefix is smaller.  All strings the engine compares (date keys,
    times, ids) are ASCII. *)

Definition code (c : ascii) : N := N_of_ascii c.

(** [a < b] on two strings. *)
Fixpoint str_ltb (a b : string) : bool :=
  match a, b with
  | EmptyString, EmptyString => false
  | EmptyString, String _ _ => true
  | String _ _, EmptyString => false
  | String x a', String y b' =>
      if (code x <? code y)%N then true
      else if (code y <? code x)%N then false
      else str_ltb a' b'
  end.

(** [a >= b] and [a <= b] on two strings: the negated strict test. *)
Definition str_geb (a b : string) : bool := negb (str_ltb a b).
Definition str_leb (a b : string) : bool := negb (str_ltb b a).

(** [a === b] on strings. *)
Definition str_eqb (a b : string) : bool := String.eqb a b.

(** [arr.includes(x)] for an array of strings. *)
Definition includes_str (l : list string) (x : string) : bool :=
  existsb (fun y => str_eqb y x) l.

(** ** The Date object, as far as [isAlarmOnDate] uses it

    Time values are milliseconds since the epoch, [None] being the
    invalid date.  The definitions follow the language standard's
    [DayFromYear], [MakeDay], [WeekDay] and [LocalTime]. *)

Definition msPerDay : Z := 86400000.
Definition msPerMinute : Z := 60000.

Definition DayFromYear (y : Z) : Z :=
  365 * (y - 1970) + (y - 1969) / 4 - (y - 1901) / 100 + (y - 1601) / 400.

Definition InLeapYear (y : Z) : bool :=
  (y mod 4 =? 0) && (negb (y mod 100 =? 0) || (y mod 400 =? 0)).

(** Days before the first of month [m] (1..12) in a year. *)
Definition monthStart (leap : bool) (m : Z) : Z :=
  let l := if leap then 1 else 0 in
  match m with
  | 1 => 0 | 2 => 31 | 3 => 59 + l | 4 => 90 + l | 5 => 120 + l
  | 6 => 151 + l | 7 => 181 + l | 8 => 212 + l | 9 => 243 + l
  | 10 => 273 + l | 11 => 304 + l | _ => 334 + l
  end.

Definition daysInMonth (leap : bool) (m : Z) : Z :=
  match m with
  | 2 => if leap then 29 else 28
  | 4 | 6 | 9 | 11 => 30
  | _ => 31
  end.

(** Day number (days since 1970-01-01) of a calendar date. *)
Definition MakeDay (y m d : Z) : Z :=
  DayFromYear y + monthStart (InLeapYear y) m + d - 1.

Definition WeekDay (t : Z) : Z := (t / msPerDay + 4) mod 7.

Definition digitVal (c : ascii) : option Z :=
  let n := code c in
  if ((48 <=? n) && (n <=? 57))%N then Some (Z.of_N n - 48) else None.

Definition isHyphen (c : ascii) : bool := (code c =? 45)%N.

(** The date-only forms [new Date(text)] reads: ["YYYY"], ["YYYY-MM"]
    and ["YYYY-MM-DD"], with two digits for a month from 01 to 12 and a
    day from 01 to 31; a missing month or day is 1.  A day beyond the
    end of the month is accepted, as the V8 engine does, and [MakeDay]
    carries it into the next month (["2024-02-30"] is March 1).  Text
    of any other shape is taken as rejected: expanded years and the
    engine's own legacy formats are not modelled. *)
Definition parseDateKey (s : string) : option (Z * Z * Z) :=
  match s with
  | String y1 (String y2 (String y3 (String y4 rest))) =>
      match digitVal y1, digitVal y2, digitVal y3, digitVal y4 with
      | Some a, Some b, Some c, Some e =>
          let y := 1000 * a + 100 * b + 10 * c + e in
          match rest with
          | EmptyString => Some (y, 1, 1)
          | String h1 (String m1 (String m2 rest')) =>
              match digitVal m1, digitVal m2 with
              | Some f, Some g =>
                  let m := 10 * f + g in
                  if isHyphen h1 && (1 <=? m) && (m <=? 12) then
                    match rest' with
                    | EmptyString => Some (y, m, 1)
                    | String h2 (String d1 (String d2 EmptyString)) =>
                        match digitVal d1, digitVal d2 with
                        | Some h, Some i =>
                            let d := 10 * h + i in
                            if isHyphen h2 && (1 <=? d) && (d <=? 31)
                            then Some (y, m, d) else None
                        | _, _ => None
                        end
                    | _ => None
                    end
                  else None
              | _, _ => None
              end
          | _ => None
          end
      | _, _, _, _ => None
      end
  | _ => None
  end.

(** [new Date(dateKey)]: a date-only text is read as midnight UTC. *)
Definition newDate (dateKey : string) : option Z :=
  match parseDateKey dateKey with
  | Some (y, m, d) => Some (MakeDay y m d * msPerDay)
  | None => None
  end.

(** [d.getDay()]: the weekday of the time value in the host's local
    time; [tz] is the host's offset from UTC in minutes, positive east
    of Greenwich.  [None] stands for NaN. *)
Definition getDay (tz : Z) (d : option Z) : option Z :=
  match d with
  | Some t => Some (WeekDay (t + tz * msPerMinute))
  | None => None
  end.

(** The weekday of a calendar date (0 = Sunday .. 6 = Saturday), the
    specification's [weekdayOf]. *)
Definition weekdayOf (dateKey : string) : option Z :=
  match parseDateKey dateKey with
  | Some (y, m, d) => Some ((MakeDay y m d + 4) mod 7)
  | None => None
  end.

(** ** Data model *)

Inductive AlarmType := alarm | event.

Record DateRange := { from : string; to : string }.

Record Alarm := {
  id : string;
  time : string;
  endTime : option string;
  label : string;
  description : option string;
  specificDates : option (list string);
  dateRange : option DateRange;
  repeatDays : option (list Z);
  isEnabled : bool;
  soundId : string;
  isAiEnabled : option bool;
  type : option AlarmType
}.

(** [repeatDays.includes(dayOfWeek)]; NaN is never among the stored
    weekdays. *)
Definition includes_day (l : list Z) (dow : option Z) : bool :=
  match dow with
  | Some w => existsb (fun y => y =? w) l
  | None => false
  end.

(** ** RecurrenceMatcher *)

Definition isAlarmOnDate (tz : Z) (a : Alarm) (dateKey : string) : bool :=
  let d := newDate dateKey in
  let dayOfWeek := getDay tz d in
  if match specificDates a with
     | Some l => includes_str l dateKey
     | None => false
     end then true
  else if match dateRange a with
          | Some r => str_geb dateKey (from r) && str_leb dateKey (to r)
          | None => false
          end then true
  else if match repeatDays a with
          | Some l => includes_day l dayOfWeek
          | None => false
          end then true
  else false.

(** The three rules of the matcher, each on its own. *)
Definition onSpecificDate (a : Alarm) (dateKey : string) : bool :=
  match specificDates a with
  | Some l => includes_str l dateKey
  | None => false
  end.

Definition inDateRange (a : Alarm) (dateKey : string) : bool :=
  match dateRange a with
  | Some r => str_leb (from r) dateKey && str_leb dateKey (to r)
  | None => false
  end.

Definition onRepeatDay (tz : Z) (a : Alarm) (dateKey : string) : bool :=
  match repeatDays a with
  | Some l => includes_day l (getDay tz (newDate dateKey))
  | None => false
  end.

(** ** Collaborators: sound catalog, host, clock, audio element *)

Module Sound.
Record t := { id : string; name : string; url : string; isCustom : bool }.
End Sound.

Definition DEFAULT_SOUNDS : list Sound.t :=
  [ {| Sound.id := "classic"; Sound.name := "Classic Beep";
       Sound.url := "https://actions.google.com/sounds/v1/alarms/beep_short.ogg";
       Sound.isCustom := false |};
    {| Sound.id := "mellow"; Sound.name := "Mellow Chime";
       Sound.url := "https://actions.google.com/sounds/v1/alarms/digital_watch_alarm_long.ogg";
       Sound.isCustom := false |};
    {| Sound.id := "morning"; Sound.name := "Morning Dew";
       Sound.url := "https://actions.google.com/sounds/v1/alarms/alarm_clock_ringing.ogg";
       Sound.isCustom := false |};
    {| Sound.id := "zen"; Sound.name := "Zen Bowl";
       Sound.url := "https://actions.google.com/sounds/v1/alarms/spaceship_alarm.ogg";
       Sound.isCustom := false |} ].

(** What the code reads from its host: the local time zone (offset
    from UTC in minutes, positive east of Greenwich), network
    reachability ([navigator.onLine]), the vibration and notification
    capabilities and the stored custom sounds
    ([getStoredCustomSounds]). *)
Record Host := {
  tzOffset : Z;
  onLine : bool;
  canVibrate : bool;
  notificationGranted : bool;
  customSounds : list Sound.t
}.

(** [allSounds.find(s => s.id === soundId) || DEFAULT_SOUNDS[0]] *)
Definition resolveSound (h : Host) (soundId : string) : Sound.t :=
  match find (fun s => str_eqb (Sound.id s) soundId)
             (DEFAULT_SOUNDS ++ customSounds h) with
  | Some s => s
  | None => nth 0 DEFAULT_SOUNDS
              {| Sound.id := ""; Sound.name := ""; Sound.url := "";
                 Sound.isCustom := false |}
  end.

(** What one tick observes of the clock: the local hours, minutes and
    seconds of its single [new Date()], the calendar date of its
    [toISOString()], and the text of [nowDate.toLocaleTimeString()]
    shown by the event banner. *)
Record Now := {
  hours : Z;
  minutes : Z;
  seconds : Z;
  isoDate : string;
  localeTime : string
}.

Definition digitChar (n : Z) : ascii := ascii_of_N (Z.to_N (48 + n)).

(** [n.toString().padStart(2, '0')] for the two-digit range the clock
    fields live in (0..59); larger numbers keep all their digits. *)
Fixpoint digitsOf (fuel : nat) (n : Z) (acc : string) : string :=
  match fuel with
  | O => acc
  | S fuel' =>
      let acc' := String (digitChar (n mod 10)) acc in
      if n / 10 =? 0 then acc' else digitsOf fuel' (n / 10) acc'
  end.

Definition toString (n : Z) : string := digitsOf (S (Z.to_nat n)) n "".

Definition padStart2 (s : string) : string :=
  match s with
  | EmptyString => "00"
  | String c EmptyString => String "0" (String c EmptyString)
  | _ => s
  end.

Definition currentTimeStr (now : Now) : string :=
  padStart2 (toString (hours now)) +:+ ":" +:+ padStart2 (toString (minutes now)).

(** [formatDateKey(now)] *)
Definition todayKey (now : Now) : string := isoDate now.

(** [`${todayKey}-${currentTimeStr}`] *)
Definition secondKey (now : Now) : string :=
  todayKey now +:+ "-" +:+ currentTimeStr now.

(** The [<audio>] element behind [alarmAudioRef]; the volume is a
    double, as in the platform. *)
Record AudioEl := {
  src : string;
  loop : bool;
  volume : float;
  paused : bool
}.

(** Observable actions a handler performs besides updating the state. *)
Inductive Effect :=
| AlarmLoad
| AlarmPlay (url : string)
| AlarmPause
| Vibrate (pattern : list Z)
| Notify (title body : string)
| ChimeTone
| BannerTimeout (ms : Z)
| RequestGreeting (a : Alarm)
| NarrationStop
| NarrationStart (audio : string)
| ConsoleError (msg : string).

(** How a narration request ends: the text request fails, the speech
    request fails, the speech answer carries no audio, or it carries
    audio that does or does not decode. *)
Inductive Narration :=
| GreetingFailed
| SpeechFailed
| SpeechEmpty
| Speech (audio : string) (decodes : bool).

(** The candidate search of a tick:
    [alarms.find(a => a.isEnabled && a.time === currentTimeStr
                      && isAlarmOnDate(a, todayKey))]. *)
Definition isCandidate (h : Host) (now : Now) (a : Alarm) : bool :=
  isEnabled a && str_eqb (time a) (currentTimeStr now)
  && isAlarmOnDate (tzOffset h) a (todayKey now).

Definition findTriggered (h : Host) (alarms : list Alarm) (now : Now)
  : option Alarm :=
  find (isCandidate h now) alarms.

Definition isEvent (a : Alarm) : bool :=
  match type a with
  | Some event => true
  | _ => false
  end.

(** The occurrence a tick acts on: the candidate is searched on every
    tick and acted on only on the full minute. *)
Definition emitted (h : Host) (alarms : list Alarm) (now : Now) : option Alarm :=
  if seconds now =? 0 then findTriggered h alarms now else None.

Set Warnings "-inexact-float".

(** ** Variant V2: alarms and events, vibration, ringing reference *)

Module V2.

(** The component's state: the [useState] cells the engine uses and
    the [useRef] cells it mutates. *)
Record State := {
  ringingAlarm : option Alarm;
  ringingAlarmRef : option Alarm;
  eventNotification : option (string * string);
  triggeredItems : gset string;
  alarmAudio : option AudioEl;
  audioContext : bool;
  currentAiSource : option string;
  vibrationInterval : bool
}.

Definition setRingingAlarm (r : option Alarm) (st : State) : State :=
  {| ringingAlarm := r;
     ringingAlarmRef := ringingAlarmRef st;
     eventNotification := eventNotification st;
     triggeredItems := triggeredItems st;
     alarmAudio := alarmAudio st;
     audioContext := audioContext st;
     currentAiSource := currentAiSource st;
     vibrationInterval := vibrationInterval st |}.

Definition setRingingAlarmRef (r : option Alarm) (st : State) : State :=
  {| ringingAlarm := ringingAlarm st;
     ringingAlarmRef := r;
     eventNotification := eventNotification st;
     triggeredItems := triggeredItems st;
     alarmAudio := alarmAudio st;
     audioContext := audioContext st;
     currentAiSource := currentAiSource st;
     vibrationInterval := vibrationInterval st |}.

Definition setEventNotification (n : option (string * string)) (st : State)
  : State :=
  {| ringingAlarm := ringingAlarm st;
     ringingAlarmRef := ringingAlarmRef st;
     eventNotification := n;
     triggeredItems := triggeredItems st;
     alarmAudio := alarmAudio st;
     audioContext := audioContext st;
     currentAiSource := currentAiSource st;
     vibrationInterval := vibrationInterval st |}.

Definition setTriggeredItems (s : gset string) (st : State) : State :=
  {| ringingAlarm := ringingAlarm st;
     ringingAlarmRef := ringingAlarmRef st;
     eventNotification := eventNotification st;
     triggeredItems := s;
     alarmAudio := alarmAudio st;
     audioContext := audioContext st;
     currentAiSource := currentAiSource st;
     vibrationInterval := vibrationInterval st |}.

Definition setAlarmAudio (a : option AudioEl) (st : State) : State :=
  {| ringingAlarm := ringingAlarm st;
     ringingAlarmRef := ringingAlarmRef st;
     eventNotification := eventNotification st;
     triggeredItems := triggeredItems st;
     alarmAudio := a;
     audioContext := audioContext st;
     currentAiSource := currentAiSource st;
     vibrationInterval := vibrationInterval st |}.

Definition setAudioContext (b : bool) (st : State) : State :=
  {| ringingAlarm := ringingAlarm st;
     ringingAlarmRef := ringingAlarmRef st;
     eventNotification := eventNotification st;
     triggeredItems := triggeredItems st;
     alarmAudio := alarmAudio st;
     audioContext := b;
     currentAiSource := currentAiSource st;
     vibrationInterval := vibrationInterval st |}.

Definition setCurrentAiSource (s : option string) (st : State) : State :=
  {| ringingAlarm := ringingAlarm st;
     ringingAlarmRef := ringingAlarmRef st;
     eventNotification := eventNotification st;
     triggeredItems := triggeredItems st;
     alarmAudio := alarmAudio st;
     audioContext := audioContext st;
     currentAiSource := s;
     vibrationInterval := vibrationInterval st |}.

Definition setVibrationInterval (b : bool) (st : State) : State :=
  {| ringingAlarm := ringingAlarm st;
     ringingAlarmRef := ringingAlarmRef st;
     eventNotification := eventNotification st;
     triggeredItems := triggeredItems st;
     alarmAudio := alarmAudio st;
     audioContext := audioContext st;
     currentAiSource := currentAiSource st;
     vibrationInterval := b |}.

(** The state after mounting: nothing rings, nothing was triggered,
    the audio element exists and is silent. *)
Definition initial : State :=
  {| ringingAlarm := None;
     ringingAlarmRef := None;
     eventNotification := None;
     triggeredItems := ∅;
     alarmAudio := Some {| src := ""; loop := false; volume := 1%float;
                           paused := true |};
     audioContext := false;
     currentAiSource := None;
     vibrationInterval := false |}.

(** [triggeredItemsRef.current.has(key)] *)
Definition has (st : State) (key : string) : bool :=
  bool_decide (key ∈ triggeredItems st).

(** [playEventChime(label)]: the tone, one vibration burst when the
    host vibrates, a notification when permitted, the in-app banner
    and the timer that clears it. *)
Definition playEventChime (h : Host) (now : Now) (lbl : string) (st : State)
  : State * list Effect :=
  let st1 := setAudioContext true st in
  let vib := if canVibrate h then [Vibrate [400]] else [] in
  let note :=
    if notificationGranted h
    then [Notify ("Zora Event: " +:+ lbl) ("Scheduled for " +:+ localeTime now)]
    else [] in
  (setEventNotification (Some (lbl, localeTime now)) st1,
   [ChimeTone] ++ vib ++ note ++ [BannerTimeout 5000]).

(** [startAlarmVibration()] *)
Definition startAlarmVibration (h : Host) (st : State) : State * list Effect :=
  if canVibrate h
  then (setVibrationInterval true st, [Vibrate [400; 200; 400]])
  else (st, []).

(** [stopVibration()] *)
Definition stopVibration (h : Host) (st : State) : State * list Effect :=
  let st1 := if vibrationInterval st then setVibrationInterval false st else st in
  (st1, if canVibrate h then [Vibrate [0]] else []).

(** The non-event branch of the tick when nothing rings: looped
    audio, vibration, [setRingingAlarm(triggered)] and, when the
    network is reachable, the narration request. *)
Definition startRinging (h : Host) (triggered : Alarm) (st : State)
  : State * list Effect :=
  let sound := resolveSound h (soundId triggered) in
  let '(st1, e1) :=
    match alarmAudio st with
    | Some au =>
        (setAlarmAudio (Some {| src := Sound.url sound; loop := true;
                                volume := volume au; paused := false |}) st,
         [AlarmPlay (Sound.url sound)])
    | None => (st, [])
    end in
  let '(st2, e2) := startAlarmVibration h st1 in
  let st3 := setRingingAlarm (Some triggered) st2 in
  (st3, e1 ++ e2 ++ (if onLine h then [RequestGreeting triggered] else [])).

(** The body of the one-second interval. *)
Definition tick (h : Host) (alarms : list Alarm) (now : Now) (st : State)
  : State * list Effect :=
  let key := secondKey now in
  match findTriggered h alarms now with
  | Some triggered =>
      if negb (has st key) && (seconds now =? 0) then
        let st1 := setTriggeredItems ({[ key ]} ∪ triggeredItems st) st in
        if isEvent triggered then playEventChime h now (label triggered) st1
        else
          match ringingAlarm st with
          | None => startRinging h triggered st1
          | Some _ => (st1, [])
          end
      else (st, [])
  | None => (st, [])
  end.

(** [handleDismissAlarm()] *)
Definition handleDismissAlarm (h : Host) (st : State) : State * list Effect :=
  let '(st1, e1) :=
    match alarmAudio st with
    | Some au =>
        (setAlarmAudio (Some {| src := src au; loop := loop au;
                                volume := volume au; paused := true |}) st,
         [AlarmPause])
    | None => (st, [])
    end in
  let '(st2, e2) :=
    match currentAiSource st1 with
    | Some _ => (setCurrentAiSource None st1, [NarrationStop])
    | None => (st1, [])
    end in
  let '(st3, e3) := stopVibration h st2 in
  (setRingingAlarm None st3, e1 ++ e2 ++ e3).

(** The effect that follows every change of [ringingAlarm]:
    [ringingAlarmRef.current = ringingAlarm]. *)
Definition syncRef (st : State) : State :=
  setRingingAlarmRef (ringingAlarm st) st.

(** The continuation of [playAiGreeting(alarm)] once the two
    requests have ended with [res]. *)
Definition playAiGreeting (a : Alarm) (res : Narration) (st : State)
  : State * list Effect :=
  match res with
  | GreetingFailed | SpeechFailed => (st, [ConsoleError "Greeting Error:"])
  | SpeechEmpty => (st, [])
  | Speech audio decodes =>
      match ringingAlarmRef st with
      | None => (st, [])
      | Some r =>
          if negb (str_eqb (id r) (id a)) then (st, [])
          else
            let st1 := setAudioContext true st in
            if negb decodes then (st1, [ConsoleError "Greeting Error:"])
            else
              let e1 := match currentAiSource st1 with
                        | Some _ => [NarrationStop]
                        | None => []
                        end in
              let st2 := setCurrentAiSource (Some audio) st1 in
              let st3 :=
                match alarmAudio st2 with
                | Some au =>
                    setAlarmAudio (Some {| src := src au; loop := loop au;
                                           volume := 0.15%float;
                                           paused := paused au |}) st2
                | None => st2
                end in
              (st3, e1 ++ [NarrationStart audio])
      end
  end.

(** What happens to the component, one thing at a time.  A tick
    carries the alarm list of the render its closure belongs to and
    its clock reading. *)
Inductive Event :=
| Tick (alarms : list Alarm) (now : Now)
| Dismiss
| GreetingResult (a : Alarm) (res : Narration)
| BannerExpires.

(** One event: its handler, then the re-render with its effects. *)
Definition step (h : Host) (ev : Event) (st : State)
  : State * list Effect :=
  let '(st', es) :=
    match ev with
    | Tick alarms now => tick h alarms now st
    | Dismiss => handleDismissAlarm h st
    | GreetingResult a res => playAiGreeting a res st
    | BannerExpires => (setEventNotification None st, [])
    end in
  (syncRef st', es).

Fixpoint run (h : Host) (evs : list Event) (st : State)
  : State * list Effect :=
  match evs with
  | [] => (st, [])
  | ev :: evs' =>
      let '(st1, e1) := step h ev st in
      let '(st2, e2) := run h evs' st1 in
      (st2, e1 ++ e2)
  end.

(** Two parts of [tick] named for the statements below: the state
    once the tick has recorded its minute key, and what the tick does
    with a candidate that passed the gate. *)
Definition consume (key : string) (st : State) : State :=
  setTriggeredItems ({[ key ]} ∪ triggeredItems st) st.

(** What the tick does with a candidate that passed the gate. *)
Definition dispatch (h : Host) (now : Now) (triggered : Alarm) (st : State)
  : State * list Effect :=
  let st1 := consume (secondKey now) st in
  if isEvent triggered then playEventChime h now (label triggered) st1
  else
    match ringingAlarm st with
    | None => startRinging h triggered st1
    | Some _ => (st1, [])
    end.

End V2.

(** ** Variant V1: single item kind, exponential volume ramp *)

(** [Math.min(a, b)] on doubles. *)
Definition Math_min (a b : float) : float :=
  if (PrimFloat.is_nan a || PrimFloat.is_nan b)%bool then PrimFloat.nan
  else if PrimFloat.ltb b a then b
  else if PrimFloat.ltb a b then a
  else if PrimFloat.get_sign a then a else b.

Module V1.

Record State := {
  ringingAlarm : option Alarm;
  triggeredAlarms : gset string;
  alarmAudio : option AudioEl;
  audioContext : bool;
  currentAiSource : option string;
  rampInterval : bool
}.

Definition setRingingAlarm (r : option Alarm) (st : State) : State :=
  {| ringingAlarm := r;
     triggeredAlarms := triggeredAlarms st;
     alarmAudio := alarmAudio st;
     audioContext := audioContext st;
     currentAiSource := currentAiSource st;
     rampInterval := rampInterval st |}.

Definition setTriggeredAlarms (s : gset string) (st : State) : State :=
  {| ringingAlarm := ringingAlarm st;
     triggeredAlarms := s;
     alarmAudio := alarmAudio st;
     audioContext := audioContext st;
     currentAiSource := currentAiSource st;
     rampInterval := rampInterval st |}.

Definition setAlarmAudio (a : option AudioEl) (st : State) : State :=
  {| ringingAlarm := ringingAlarm st;
     triggeredAlarms := triggeredAlarms st;
     alarmAudio := a;
     audioContext := audioContext st;
     currentAiSource := currentAiSource st;
     rampInterval := rampInterval st |}.

Definition setAudioContext (b : bool) (st : State) : State :=
  {| ringingAlarm := ringingAlarm st;
     triggeredAlarms := triggeredAlarms st;
     alarmAudio := alarmAudio st;
     audioContext := b;
     currentAiSource := currentAiSource st;
     rampInterval := rampInterval st |}.

Definition setCurrentAiSource (s : option string) (st : State) : State :=
  {| ringingAlarm := ringingAlarm st;
     triggeredAlarms := triggeredAlarms st;
     alarmAudio := alarmAudio st;
     audioContext := audioContext st;
     currentAiSource := s;
     rampInterval := rampInterval st |}.

Definition setRampInterval (b : bool) (st : State) : State :=
  {| ringingAlarm := ringingAlarm st;
     triggeredAlarms := triggeredAlarms st;
     alarmAudio := alarmAudio st;
     audioContext := audioContext st;
     currentAiSource := currentAiSource st;
     rampInterval := b |}.

(** [audio.volume = v] on the element behind [alarmAudioRef], when
    there is one. *)
Definition setVolume (v : float) (st : State) : State :=
  match alarmAudio st with
  | Some au =>
      setAlarmAudio (Some {| src := src au; loop := loop au; volume := v;
                             paused := paused au |}) st
  | None => st
  end.

Definition initial : State :=
  {| ringingAlarm := None;
     triggeredAlarms := ∅;
     alarmAudio := Some {| src := ""; loop := false; volume := 1%float;
                           paused := true |};
     audioContext := false;
     currentAiSource := None;
     rampInterval := false |}.

(** [triggeredAlarmsRef.current.has(key)] *)
Definition has (st : State) (key : string) : bool :=
  bool_decide (key ∈ triggeredAlarms st).

(** The body of the one-second interval. *)
Definition tick (h : Host) (alarms : list Alarm) (now : Now) (st : State)
  : State * list Effect :=
  let key := secondKey now in
  match findTriggered h alarms now with
  | Some triggered =>
      if negb (has st key) && (seconds now =? 0)
         && negb (bool_decide (is_Some (ringingAlarm st))) then
        let st1 := setTriggeredAlarms ({[ key ]} ∪ triggeredAlarms st) st in
        let sound := resolveSound h (soundId triggered) in
        let '(st2, e2) :=
          match alarmAudio st1 with
          | Some au =>
              (setAlarmAudio
                 (Some {| src := Sound.url sound; loop := true;
                          volume := if onLine h then 0.05%float else 0.8%float;
                          paused := false |}) st1,
               [AlarmLoad; AlarmPlay (Sound.url sound)])
          | None => (st1, [])
          end in
        (setRingingAlarm (Some triggered) st2,
         e2 ++ (if onLine h then [RequestGreeting triggered] else []))
      else (st, [])
  | None => (st, [])
  end.

(** The start value of the ramp: lower when the network is
    reachable. *)
Definition rampStart (h : Host) : float :=
  if onLine h then 0.05%float else 0.2%float.

(** One firing of the ramp interval on the current volume. *)
Definition rampStep (v : float) : float :=
  if PrimFloat.ltb v 1 then Math_min 1 (v * 1.3)%float else v.

(** The ramp effect, run after every change of [ringingAlarm]: the
    previous interval is cleared; when an alarm rings and the audio
    element exists the volume is reset and a new interval starts. *)
Definition rampEffect (h : Host) (st : State) : State :=
  let st1 := setRampInterval false st in
  match ringingAlarm st1, alarmAudio st1 with
  | Some _, Some _ => setRampInterval true (setVolume (rampStart h) st1)
  | _, _ => st1
  end.

(** The ramp interval firing (every three seconds while it is set). *)
Definition rampTick (st : State) : State :=
  if rampInterval st then
    match alarmAudio st with
    | Some au => setVolume (rampStep (volume au)) st
    | None => st
    end
  else st.

(** [handleDismissAlarm()] *)
Definition handleDismissAlarm (st : State) : State * list Effect :=
  let '(st1, e1) :=
    match alarmAudio st with
    | Some au =>
        (setAlarmAudio (Some {| src := src au; loop := false;
                                volume := volume au; paused := true |}) st,
         [AlarmPause])
    | None => (st, [])
    end in
  let '(st2, e2) :=
    match currentAiSource st1 with
    | Some _ => (setCurrentAiSource None st1, [NarrationStop])
    | None => (st1, [])
    end in
  (setRingingAlarm None st2, e1 ++ e2).

(** The [catch] block of [playImmediateAiGreeting]. *)
Definition greetingFailed (st : State) : State * list Effect :=
  (setVolume 0.8%float st, [ConsoleError "Immediate AI Greeting failed"]).

(** The continuation of [playImmediateAiGreeting(alarm)] once the
    two requests have ended with [res]. *)
Definition playImmediateAiGreeting (a : Alarm) (res : Narration) (st : State)
  : State * list Effect :=
  match res with
  | GreetingFailed | SpeechFailed => greetingFailed st
  | SpeechEmpty => (st, [])
  | Speech audio decodes =>
      let st1 := setAudioContext true st in
      if negb decodes then greetingFailed st1
      else
        let e1 := match currentAiSource st1 with
                  | Some _ => [NarrationStop]
                  | None => []
                  end in
        let st2 := setCurrentAiSource (Some audio) st1 in
        (setVolume 0.1%float st2, e1 ++ [NarrationStart audio])
  end.

Inductive Event :=
| Tick (alarms : list Alarm) (now : Now)
| RampTick
| Dismiss
| GreetingResult (a : Alarm) (res : Narration).

(** One event: its handler, then the re-render; the ramp effect runs
    when the handler changed [ringingAlarm]. *)
Definition step (h : Host) (ev : Event) (st : State)
  : State * list Effect :=
  let '(st', es) :=
    match ev with
    | Tick alarms now => tick h alarms now st
    | RampTick => (rampTick st, [])
    | Dismiss => handleDismissAlarm st
    | GreetingResult a res => playImmediateAiGreeting a res st
    end in
  let changed :=
    negb (Bool.eqb (bool_decide (is_Some (ringingAlarm st)))
                   (bool_decide (is_Some (ringingAlarm st')))) in
  (if changed then rampEffect h st' else st', es).

Fixpoint run (h : Host) (evs : list Event) (st : State)
  : State * list Effect :=
  match evs with
  | [] => (st, [])
  | ev :: evs' =>
      let '(st1, e1) := step h ev st in
      let '(st2, e2) := run h evs' st1 in
      (st2, e1 ++ e2)
  end.

(** What the tick does with a candidate that passed the gate. *)
Definition dispatch (h : Host) (now : Now) (triggered : Alarm) (st : State)
  : State * list Effect :=
  let st1 := setTriggeredAlarms ({[ secondKey now ]} ∪ triggeredAlarms st) st in
  let sound := resolveSound h (soundId triggered) in
  let '(st2, e2) :=
    match alarmAudio st1 with
    | Some au =>
        (setAlarmAudio
           (Some {| src := Sound.url sound; loop := true;
                    volume := if onLine h then 0.05%float else 0.8%float;
                    paused := false |}) st1,
         [AlarmLoad; AlarmPlay (Sound.url sound)])
    | None => (st1, [])
    end in
  (setRingingAlarm (Some triggered) st2,
   e2 ++ (if onLine h then [RequestGreeting triggered] else [])).

End V1.

(** ** The editor modal's save operation *)

(** [a || b] on strings: the empty string is falsy. *)
Definition orStr (a b : string) : string :=
  match a with
  | EmptyString => b
  | _ => a
  end.

(** [initialDate || b] for the optional [initialDate] prop. *)
Definition orOpt (a : option string) (b : string) : string :=
  match a with
  | Some s => orStr s b
  | None => b
  end.

(** [Omit<Alarm, 'id'>]: what the modal hands to [onSave]. *)
Module Draft.
Record t := {
  time : string;
  endTime : option string;
  label : string;
  description : option string;
  specificDates : option (list string);
  dateRange : option DateRange;
  repeatDays : option (list Z);
  isEnabled : bool;
  soundId : string;
  isAiEnabled : option bool;
  type : option AlarmType
}.
End Draft.

(** [{ ...a, id }]: the application's [onSave] completing the record. *)
Definition withId (i : string) (d : Draft.t) : Alarm :=
  {| id := i;
     time := Draft.time d;
     endTime := Draft.endTime d;
     label := Draft.label d;
     description := Draft.description d;
     specificDates := Draft.specificDates d;
     dateRange := Draft.dateRange d;
     repeatDays := Draft.repeatDays d;
     isEnabled := Draft.isEnabled d;
     soundId := Draft.soundId d;
     isAiEnabled := Draft.isAiEnabled d;
     type := Draft.type d |}.

(** [repeatDays.length > 0 ? repeatDays : undefined] *)
Definition nonEmptyDays (l : list Z) : option (list Z) :=
  match l with
  | [] => None
  | _ => Some l
  end.

(** The modal without item kinds. *)
Module ModalV1.

Record Form := {
  time : string;
  label : string;
  repeatDays : list Z;
  specificDates : list string;
  useRange : bool;
  rangeFrom : string;
  rangeTo : string;
  selectedSoundId : string
}.

Definition handleSave (f : Form) : Draft.t :=
  {| Draft.time := time f;
     Draft.endTime := None;
     Draft.label := orStr (label f) "Sync Point";
     Draft.description := None;
     Draft.specificDates :=
       if negb (useRange f) then Some (specificDates f) else None;
     Draft.dateRange :=
       if useRange f
       then Some {| from := rangeFrom f; to := rangeTo f |} else None;
     Draft.repeatDays := nonEmptyDays (repeatDays f);
     Draft.isEnabled := true;
     Draft.soundId := selectedSoundId f;
     Draft.isAiEnabled := None;
     Draft.type := None |}.

End ModalV1.

(** The modal with alarms and events. *)
Module ModalV2.

Record Form := {
  time : string;
  endTime : string;
  label : string;
  description : string;
  type : AlarmType;
  repeatDays : list Z;
  specificDates : list string;
  useRange : bool;
  rangeFrom : string;
  rangeTo : string;
  selectedSoundId : string;
  initialDate : option string
}.

Definition isEventType (t : AlarmType) : bool :=
  match t with
  | event => true
  | alarm => false
  end.

Definition finalUseRange (f : Form) : bool :=
  isEventType (type f) || useRange f.

Definition handleSave (f : Form) : Draft.t :=
  {| Draft.time := time f;
     Draft.endTime := if isEventType (type f) then Some (endTime f) else None;
     Draft.label :=
       orStr (label f)
             (match type f with
              | alarm => "New Alarm"
              | event => "Untitled Event"
              end);
     Draft.description :=
       if isEventType (type f) then Some (description f) else None;
     Draft.specificDates :=
       if negb (finalUseRange f) then Some (specificDates f) else None;
     Draft.dateRange :=
       if finalUseRange f
       then Some {| from := orStr (rangeFrom f) (orOpt (initialDate f) "");
                    to := orStr (rangeTo f)
                            (orStr (rangeFrom f) (orOpt (initialDate f) "")) |}
       else None;
     Draft.repeatDays := nonEmptyDays (repeatDays f);
     Draft.isEnabled := true;
     Draft.soundId := selectedSoundId f;
     Draft.isAiEnabled := None;
     Draft.type := Some (type f) |}.

End ModalV2.

(** ** Auxiliary definitions used in the statements *)

(** The results that end in the [catch] block: a failed request or
    audio that does not decode. *)
Definition isFailure (res : Narration) : bool :=
  match res with
  | GreetingFailed | SpeechFailed => true
  | SpeechEmpty => false
  | Speech _ decodes => negb decodes
  end.

(** The one result that is played: speech audio that decodes. *)
Definition isPlayable (res : Narration) : bool :=
  match res with
  | Speech _ decodes => decodes
  | _ => false
  end.

(** [ringingAlarmRef.current?.id === alarm.id]: the alarm the narration
    was requested for is still the one that rings. *)
Definition stillRinging (st : V2.State) (a : Alarm) : bool :=
  match V2.ringingAlarmRef st with
  | Some r => str_eqb (id r) (id a)
  | None => false
  end.

Definition volumeOf (au : option AudioEl) : option float :=
  match au with
  | Some a => Some (volume a)
  | None => None
  end.

(** Everything about the audio element but its volume. *)
Definition playbackOf (au : option AudioEl) : option (string * bool * bool) :=
  match au with
  | Some a => Some (src a, loop a, paused a)
  | None => None
  end.

Definition isLog (e : Effect) : bool :=
  match e with
  | ConsoleError _ => true
  | _ => false
  end.

(** The effects of [playEventChime]: the tone, the single vibration
    burst, the notification and the banner timer. *)
Definition isChime (e : Effect) : bool :=
  match e with
  | ChimeTone | Notify _ _ | BannerTimeout _ => true
  | Vibrate [400] => true
  | _ => false
  end.

(** The values the code ever assigns to the volume of the looped alarm
    audio: the start values of the tick and of the ramp effect, the
    level under a playing narration and the fallback after a failed
    one; 1 is the element's default. *)
Definition assignedVolumes : list float :=
  [0.05; 0.2; 0.8; 0.1; 1]%float.

(** The volume sampled after [n] ramp intervals, starting from [v0]. *)
Definition rampFrom (v0 : float) (n : nat) : float :=
  Nat.iter n V1.rampStep v0.

(** The same on a host: the ramp effect sets the start value. *)
Definition rampVolume (h : Host) (n : nat) : float :=
  rampFrom (V1.rampStart h) n.

(** ** Concrete hosts, clock readings and items used in examples *)

Definition utcHost : Host :=
  {| tzOffset := 0; onLine := true; canVibrate := true;
     notificationGranted := true; customSounds := [] |}.

(** Wednesday 2024-03-06, 08:00:00. *)
Definition wed0800 : Now :=
  {| hours := 8; minutes := 0; seconds := 0; isoDate := "2024-03-06";
     localeTime := "8:00:00 AM" |}.

(** Wednesday 2024-03-06, 08:05:00. *)
Definition wed0805 : Now :=
  {| hours := 8; minutes := 5; seconds := 0; isoDate := "2024-03-06";
     localeTime := "8:05:00 AM" |}.

Definition item (i lbl : string) (k : option AlarmType) : Alarm :=
  {| id := i; time := "08:00"; endTime := None; label := lbl;
     description := None; specificDates := Some ["2024-03-06"];
     dateRange := None; repeatDays := None; isEnabled := true;
     soundId := "classic"; isAiEnabled := Some true; type := k |}.

Definition standup : Alarm := item "e1" "Standup" (Some event).
Definition review : Alarm := item "e2" "Review" (Some event).
Definition wakeUp : Alarm := item "a1" "Wake up" (Some alarm).
Definition workout : Alarm := item "a2" "Workout" (Some alarm).

Definition dailyCall : Alarm :=
  {| id := "e3"; time := "08:05"; endTime := Some "09:00"; label := "Call";
     description := Some ""; specificDates := None;
     dateRange := Some {| from := "2024-03-06"; to := "2024-03-06" |};
     repeatDays := None; isEnabled := true; soundId := "classic";
     isAiEnabled := None; type := Some event |}.


(** A weekly alarm for Fridays. *)
Definition fridayAlarm : Alarm :=
  {| id := "a1"; time := "08:00"; endTime := None; label := "Gym";
     description := None; specificDates := None; dateRange := None;
     repeatDays := Some [5]; isEnabled := true; soundId := "classic";
     isAiEnabled := None; type := None |}.

(** The state in which [wakeUp] has been ringing since 08:00. *)
Definition ringingSince0800 : V2.State :=
  fst (V2.step utcHost (V2.Tick [wakeUp] wed0800) V2.initial).

(** Twelve firings of the ramp interval. *)
Definition rampTicks12 : list V1.Event := repeat V1.RampTick 12.

(** The alarm has been ringing on a reachable host for twelve ramp
    intervals. *)
Definition fullyRamped : V1.State :=
  fst (V1.run utcHost (V1.Tick [wakeUp] wed0800 :: rampTicks12) V1.initial).

(** A workday alarm and a one-off alarm, with the clock readings of
    the specification's end-to-end scenarios. *)
Definition workdayAlarm : Alarm :=
  {| id := "w1"; time := "08:00"; endTime := None; label := "Work";
     description := None; specificDates := None; dateRange := None;
     repeatDays := Some [1; 2; 3; 4; 5]; isEnabled := true;
     soundId := "mellow"; isAiEnabled := None; type := Some alarm |}.

Definition oneOffAlarm : Alarm :=
  {| id := "o1"; time := "09:00"; endTime := None; label := "Dentist";
     description := None; specificDates := Some ["2024-03-01"];
     dateRange := None; repeatDays := None; isEnabled := true;
     soundId := "zen"; isAiEnabled := None; type := Some alarm |}.

Definition clockAt (date : string) (hh mm ss : Z) : Now :=
  {| hours := hh; minutes := mm; seconds := ss; isoDate := date;
     localeTime := "" |}.

Definition weekdayForm : ModalV2.Form :=
  {| ModalV2.time := "08:00"; ModalV2.endTime := "09:00";
     ModalV2.label := ""; ModalV2.description := "";
     ModalV2.type := alarm; ModalV2.repeatDays := [1; 2; 3; 4; 5];
     ModalV2.specificDates := ["2024-03-06"]; ModalV2.useRange := false;
     ModalV2.rangeFrom := "2024-03-06"; ModalV2.rangeTo := "";
     ModalV2.selectedSoundId := "classic";
     ModalV2.initialDate := Some "2024-03-06" |}.

Definition eventForm : ModalV2.Form :=
  {| ModalV2.time := "10:00"; ModalV2.endTime := "11:00";
     ModalV2.label := "Review"; ModalV2.description := "";
     ModalV2.type := event; ModalV2.repeatDays := [3];
     ModalV2.specificDates := ["2024-03-06"]; ModalV2.useRange := false;
     ModalV2.rangeFrom := ""; ModalV2.rangeTo := "";
     ModalV2.selectedSoundId := "classic";
     ModalV2.initialDate := Some "2024-03-06" |}.

(** * Further parts of the program

    The calendar utilities ([getDaysInMonth], [getCalendarGrid],
    [formatDateKey], [formatTimeDisplay]), the handlers of the alarm
    list ([onDelete], [onToggle], [onSave], the sorted list view), the
    form of the editor modal ([toggleDay], [addSpecificDate],
    [removeSpecificDate], the effect that loads the form), the sound
    catalog, the clock reading of the tick, the tick of the first
    application ([V0]) and the month shown after a quick add.

    A valid date is its time value, an integer number of milliseconds
    within 8.64e15 of the epoch, and [None] is the invalid date; the
    host is at a fixed offset [tz] from UTC, in minutes, positive to
    the east, so local fields are the UTC fields of the shifted time
    value.  Daylight saving changes are not modelled. *)

(** ** The Date object: calendar fields, local-time construction, ISO text

    Time values are milliseconds since the epoch.  The fields follow
    the language standard: [Day], [YearFromTime] (the largest year whose
    first day is not after the day), [MonthFromTime] and [DateFromTime]
    (the standard's tables), and [LocalTime] on a host at a fixed offset
    from UTC. *)

Definition Day (t : Z) : Z := t / msPerDay.

(** The year of a day number: an estimate from the mean year length,
    moved by one where the estimate is off. *)
Definition YearFromDay (day : Z) : Z :=
  let y0 := 1970 + (400 * day) / 146097 in
  if day <? DayFromYear y0 then y0 - 1
  else if DayFromYear (y0 + 1) <=? day then y0 + 1
  else y0.

Definition DayWithinYear (day : Z) : Z := day - DayFromYear (YearFromDay day).

(** Month of a day number, 0 = January .. 11 = December. *)
Definition MonthFromDay (day : Z) : Z :=
  let d := DayWithinYear day in
  let l := if InLeapYear (YearFromDay day) then 1 else 0 in
  if d <? 31 then 0
  else if d <? 59 + l then 1
  else if d <? 90 + l then 2
  else if d <? 120 + l then 3
  else if d <? 151 + l then 4
  else if d <? 181 + l then 5
  else if d <? 212 + l then 6
  else if d <? 243 + l then 7
  else if d <? 273 + l then 8
  else if d <? 304 + l then 9
  else if d <? 334 + l then 10
  else 11.

(** Day of the month of a day number, 1 .. 31. *)
Definition DateFromDay (day : Z) : Z :=
  DayWithinYear day
  - monthStart (InLeapYear (YearFromDay day)) (MonthFromDay day + 1) + 1.

Definition LocalTime (tz : Z) (t : Z) : Z := t + tz * msPerMinute.

(** [d.getFullYear()], [d.getMonth()], [d.getDate()] and [d.getDay()]
    of a valid date. *)
Definition getFullYear (tz t : Z) : Z := YearFromDay (Day (LocalTime tz t)).
Definition getMonth (tz t : Z) : Z := MonthFromDay (Day (LocalTime tz t)).
Definition getDate (tz t : Z) : Z := DateFromDay (Day (LocalTime tz t)).
Definition getWeekDay (tz t : Z) : Z := WeekDay (LocalTime tz t).

(** The standard's [MakeDay] for a zero-based month that may lie
    outside 0..11 and a day of the month that may lie outside the
    month. *)
Definition MakeDayJS (year month date : Z) : Z :=
  let ym := year + month / 12 in
  let mn := month mod 12 in
  DayFromYear ym + monthStart (InLeapYear ym) (mn + 1) + date - 1.

(** The standard's [TimeClip]: a time value farther than 8.64e15 ms
    from the epoch is no time value, and the date is the invalid date
    ([None]). *)
Definition maxTime : Z := 8640000000000000.

Definition TimeClip (t : Z) : option Z :=
  if (- maxTime <=? t) && (t <=? maxTime) then Some t else None.

(** The year [new Date(year, ..)] takes a year argument for: a year
    from 0 to 99 stands for 1900 + year. *)
Definition fullYear (year : Z) : Z :=
  if (0 <=? year) && (year <=? 99) then 1900 + year else year.

(** The local midnight of [new Date(year, month, date)] as a UTC time
    value, before [TimeClip]. *)
Definition localMidnight (tz : Z) (year month date : Z) : Z :=
  MakeDayJS (fullYear year) month date * msPerDay - tz * msPerMinute.

(** [new Date(year, month, date)] for whole numbers: the standard's
    day arithmetic, then [TimeClip].  (An engine carries the arithmetic
    out for years within a million of 0 and months within ten million
    of 0; the calendar passes a year and a month read from a valid
    date and a day of the month between -6 and 42.) *)
Definition newDateYMD (tz : Z) (year month date : Z) : option Z :=
  TimeClip (localMidnight tz year month date).

(** [d.setDate(n)] on a valid date: the same local month and time of
    day, day of the month [n]; the time value before [TimeClip], and
    the date it leaves. *)
Definition setDateValue (tz : Z) (t n : Z) : Z :=
  let lt := LocalTime tz t in
  (MakeDayJS (YearFromDay (Day lt)) (MonthFromDay (Day lt)) n * msPerDay
   + lt mod msPerDay) - tz * msPerMinute.

Definition setDate (tz : Z) (t n : Z) : option Z :=
  TimeClip (setDateValue tz t n).

(** Fixed-width decimal text. *)
Definition digits2 (n : Z) : string :=
  String (digitChar (n / 10 mod 10)) (String (digitChar (n mod 10)) "").

Definition digits4 (n : Z) : string :=
  String (digitChar (n / 1000 mod 10)) (String (digitChar (n / 100 mod 10))
                                                (digits2 n)).

Definition digits6 (n : Z) : string :=
  String (digitChar (n / 100000 mod 10))
         (String (digitChar (n / 10000 mod 10)) (digits4 n)).

(** The year of [toISOString()]: four digits from 0 to 9999, a sign
    and six digits otherwise. *)
Definition isoYear (y : Z) : string :=
  if (0 <=? y) && (y <=? 9999) then digits4 y
  else if y <? 0 then String "-" (digits6 (- y))
  else String "+" (digits6 y).

(** [formatDateKey(date)]: [date.toISOString().split('T')[0]], the
    calendar date of the time value in UTC. *)
Definition formatDateKey (t : Z) : string :=
  let day := Day t in
  isoYear (YearFromDay day) +:+ "-" +:+ digits2 (MonthFromDay day + 1)
  +:+ "-" +:+ digits2 (DateFromDay day).

(** The key of a civil date. *)
Definition dateKeyOf (y m d : Z) : string :=
  formatDateKey (MakeDay y m d * msPerDay).

(** A civil date of the proleptic Gregorian calendar. *)
Definition validDate (y m d : Z) : Prop :=
  1 <= m <= 12 /\ 1 <= d <= daysInMonth (InLeapYear y) m.

(** The keys that name a calendar date: ["YYYY-MM-DD"] with a month
    from 01 to 12 and a day that the month has.  These are the keys
    [formatDateKey] writes for the years 0 to 9999. *)
Definition parseCalendarKey (s : string) : option (Z * Z * Z) :=
  match s with
  | String y1 (String y2 (String y3 (String y4 (String h1
      (String m1 (String m2 (String h2 (String d1 (String d2 EmptyString))))))))) =>
      match digitVal y1, digitVal y2, digitVal y3, digitVal y4,
            digitVal m1, digitVal m2, digitVal d1, digitVal d2 with
      | Some a, Some b, Some c, Some e, Some f, Some g, Some h, Some i =>
          let y := 1000 * a + 100 * b + 10 * c + e in
          let m := 10 * f + g in
          let d := 10 * h + i in
          if isHyphen h1 && isHyphen h2 && (1 <=? m) && (m <=? 12)
             && (1 <=? d) && (d <=? daysInMonth (InLeapYear y) m)
          then Some (y, m, d) else None
      | _, _, _, _, _, _, _, _ => None
      end
  | _ => None
  end.

(** Midnight UTC of the calendar date a key names. *)
Definition calendarDate (dateKey : string) : option Z :=
  match parseCalendarKey dateKey with
  | Some (y, m, d) => Some (MakeDay y m d * msPerDay)
  | None => None
  end.

Definition isCalendarKey (dateKey : string) : bool :=
  match parseCalendarKey dateKey with
  | Some _ => true
  | None => false
  end.

(** ** Calendar utilities *)

(** The [while] loop of [getDaysInMonth]: as long as the date is in the
    month, record a copy and move to the next day.  The invalid date
    has no month ([getMonth()] is NaN), so it ends the loop.  [None]
    as a result stands for a loop that has not ended within [fuel]
    rounds. *)
Fixpoint daysLoop (fuel : nat) (tz month : Z) (date : option Z) (days : list Z)
  : option (list Z) :=
  match fuel with
  | O => None
  | S fuel' =>
      match date with
      | Some t =>
          if getMonth tz t =? month
          then daysLoop fuel' tz month (setDate tz t (getDate tz t + 1))
                        (days ++ [t])
          else Some days
      | None => Some days
      end
  end.

Definition getDaysInMonth (tz year month : Z) : option (list Z) :=
  daysLoop 32 tz month (newDateYMD tz year month 1) [].

(** [n - 1, .., 0] and [1, .., n], the index ranges of the three [for]
    loops of [getCalendarGrid]. *)
Definition countDown (n : Z) : list Z :=
  rev (map Z.of_nat (seq 0 (Z.to_nat n))).

Definition countUp (n : Z) : list Z :=
  map Z.of_nat (seq 1 (Z.to_nat n)).

(** [getCalendarGrid(viewDate)]; a cell is a date, possibly the
    invalid one.  The fields of an invalid date are NaN, and a loop
    whose bound is NaN does not run: without a valid [startOfMonth]
    there are no leading cells, without a valid [endOfMonth] no cells
    of the month. *)
Definition getCalendarGrid (tz : Z) (viewDate : option Z) : list (option Z) :=
  match viewDate with
  | None => map (fun _ => None) (countUp 42)
  | Some v =>
      let vy := getFullYear tz v in
      let vm := getMonth tz v in
      let startOfMonth := newDateYMD tz vy vm 1 in
      let endOfMonth := newDateYMD tz vy (vm + 1) 0 in
      let lead := match startOfMonth with
                  | Some s => map (fun i => newDateYMD tz vy vm (- i))
                                  (countDown (getWeekDay tz s))
                  | None => []
                  end in
      let days := lead ++ match endOfMonth with
                          | Some e => map (fun i => newDateYMD tz vy vm i)
                                          (countUp (getDate tz e))
                          | None => []
                          end in
      let remainingCells := 42 - Z.of_nat (length days) in
      days ++ map (fun i => newDateYMD tz vy (vm + 1) i) (countUp remainingCells)
  end.

(** The time values of the 42 cells when no date of the grid is
    clipped. *)
Definition gridTimes (tz viewDate : Z) : list Z :=
  let vy := getFullYear tz viewDate in
  let vm := getMonth tz viewDate in
  let startDay := getWeekDay tz (localMidnight tz vy vm 1) in
  let lead := map (fun i => localMidnight tz vy vm (- i)) (countDown startDay) in
  let days := lead ++ map (fun i => localMidnight tz vy vm i)
                          (countUp (getDate tz (localMidnight tz vy (vm + 1) 0))) in
  let remainingCells := 42 - Z.of_nat (length days) in
  days ++ map (fun i => localMidnight tz vy (vm + 1) i) (countUp remainingCells).

(** The leading valid dates of a list of dates. *)
Fixpoint validPrefix (l : list (option Z)) : list Z :=
  match l with
  | Some t :: r => t :: validPrefix r
  | _ => []
  end.

(** The local day number of a time value. *)
Definition localDay (tz t : Z) : Z := Day (LocalTime tz t).

(** [getScheduleLabel()] of the alarm card. *)
Definition getScheduleLabel (a : Alarm) : string :=
  if match repeatDays a with
     | Some l => Nat.eqb (length l) 7
     | None => false
     end then "Daily Synchronization"
  else match dateRange a with
       | Some r => "Range: " +:+ from r +:+ " to " +:+ to r
       | None =>
           match specificDates a with
           | Some (_ :: _ as l) =>
               toString (Z.of_nat (length l)) +:+ " Selected Dates"
           | _ => "One-time Point"
           end
       end.

(** ** Time display *)

(** [s.split(':')]: the pieces between the colons, at least one. *)
Fixpoint splitColon (s : string) : list string :=
  match s with
  | EmptyString => [EmptyString]
  | String c s' =>
      if (code c =? 58)%N then EmptyString :: splitColon s'
      else match splitColon s' with
           | piece :: rest => String c piece :: rest
           | [] => [String c EmptyString]
           end
  end.

Definition isSpace (c : ascii) : bool :=
  let n := code c in
  ((9 <=? n) && (n <=? 13) || (n =? 32))%N.

Fixpoint dropSpaces (s : string) : string :=
  match s with
  | String c s' => if isSpace c then dropSpaces s' else s
  | EmptyString => s
  end.

(** The value of the leading decimal digits, [None] when there are
    none. *)
Fixpoint leadingDigits (s : string) (acc : option Z) : option Z :=
  match s with
  | String c s' =>
      match digitVal c with
      | Some d =>
          leadingDigits s' (Some (10 * match acc with Some n => n | None => 0 end
                                  + d))
      | None => acc
      end
  | EmptyString => acc
  end.

(** [parseInt(s, 10)]; [None] is NaN.  Exact for the integers a
    double holds exactly. *)
Definition parseInt (s : string) : option Z :=
  match dropSpaces s with
  | String "-" r => option_map Z.opp (leadingDigits r None)
  | String "+" r => leadingDigits r None
  | r => leadingDigits r None
  end.

(** The text of an integer in a template string. *)
Definition numberToString (n : Z) : string :=
  if n <? 0 then String "-" (toString (- n)) else toString n.

(** [formatTimeDisplay(time, use24Hour)] *)
Definition formatTimeDisplay (time : string) (use24Hour : bool) : string :=
  let parts := splitColon time in
  let hour := match parts with
              | h :: _ => h
              | [] => "undefined"
              end in
  let min := match parts with
             | _ :: m :: _ => m
             | _ => "undefined"
             end in
  if use24Hour then hour +:+ ":" +:+ min
  else
    let h := parseInt hour in
    let ampm := match h with
                | Some n => if 12 <=? n then "PM" else "AM"
                | None => "AM"
                end in
    let displayHour := match h with
                       | Some n => if Z.rem n 12 =? 0 then 12 else Z.rem n 12
                       | None => 12
                       end in
    numberToString displayHour +:+ ":" +:+ min +:+ " " +:+ ampm.

(** The text of a time of day as the time input and the tick write
    it. *)
Definition clockTime (h m : Z) : string :=
  padStart2 (toString h) +:+ ":" +:+ padStart2 (toString m).

(** All times of day, hour by hour and minute by minute. *)
Definition allTimes : list (Z * Z) :=
  list_prod (map Z.of_nat (seq 0 24)) (map Z.of_nat (seq 0 60)).

(** ** The alarm list and its handlers *)

Module App.

(** [onDelete]: [prev.filter(a => a.id !== id)] *)
Definition onDelete (i : string) (prev : list Alarm) : list Alarm :=
  List.filter (fun a => negb (str_eqb (id a) i)) prev.

(** [{ ...a, isEnabled: !a.isEnabled }] *)
Definition toggled (a : Alarm) : Alarm :=
  {| id := id a; time := time a; endTime := endTime a; label := label a;
     description := description a; specificDates := specificDates a;
     dateRange := dateRange a; repeatDays := repeatDays a;
     isEnabled := negb (isEnabled a); soundId := soundId a;
     isAiEnabled := isAiEnabled a; type := type a |}.

(** [onToggle]:
    [prev.map(a => a.id === id ? { ...a, isEnabled: !a.isEnabled } : a)] *)
Definition onToggle (i : string) (prev : list Alarm) : list Alarm :=
  map (fun a => if str_eqb (id a) i then toggled a else a) prev.

(** [onSave]: with an alarm being edited, every record with its id is
    replaced by the draft under that id; otherwise the draft is
    appended under a fresh id ([newId], the random text). *)
Definition onSave (editingAlarm : option Alarm) (newId : string)
           (a : Draft.t) (prev : list Alarm) : list Alarm :=
  match editingAlarm with
  | Some e =>
      map (fun curr => if str_eqb (id curr) (id e) then withId (id curr) a
                       else curr) prev
  | None => prev ++ [withId newId a]
  end.

(** The agenda of a date, as the day cells and the list show it:
    [alarms.filter(a => isAlarmOnDate(a, dateKey))]. *)
Definition dayAlarms (tz : Z) (alarms : list Alarm) (dateKey : string)
  : list Alarm :=
  List.filter (fun a => isAlarmOnDate tz a dateKey) alarms.

(** The dot of a day cell in the variant without ringing state:
    [alarms.some(a => a.isEnabled && isAlarmOnDate(a, dateKey))]. *)
Definition hasAlarms (tz : Z) (alarms : list Alarm) (dateKey : string) : bool :=
  existsb (fun a => isEnabled a && isAlarmOnDate tz a dateKey) alarms.

End App.

(** ** The editor modal's form *)

(** [toggleDay(day)] on the repeat days. *)
Definition toggleDay (day : Z) (prev : list Z) : list Z :=
  if existsb (fun d => d =? day) prev
  then List.filter (fun d => negb (d =? day)) prev
  else prev ++ [day].

(** [addSpecificDate(date)]: the empty text and a date already chosen
    change nothing. *)
Definition addSpecificDate (date : string) (specificDates : list string)
  : list string :=
  match date with
  | EmptyString => specificDates
  | _ => if includes_str specificDates date then specificDates
         else specificDates ++ [date]
  end.

(** [removeSpecificDate(date)] *)
Definition removeSpecificDate (date : string) (specificDates : list string)
  : list string :=
  List.filter (fun d => negb (str_eqb d date)) specificDates.

Definition optList {A : Type} (x : option (list A)) : list A :=
  match x with
  | Some l => l
  | None => []
  end.

(** The effect that fills the form when the modal opens: from the
    alarm being edited, or with the defaults and the selected date. *)
Definition loadV1 (initialDate : option string) (editAlarm : option Alarm)
  : ModalV1.Form :=
  match editAlarm with
  | Some e =>
      {| ModalV1.time := time e;
         ModalV1.label := label e;
         ModalV1.repeatDays := optList (repeatDays e);
         ModalV1.specificDates := optList (specificDates e);
         ModalV1.useRange := match dateRange e with Some _ => true | None => false end;
         ModalV1.rangeFrom := match dateRange e with
                              | Some r => orStr (from r) ""
                              | None => ""
                              end;
         ModalV1.rangeTo := match dateRange e with
                            | Some r => orStr (to r) ""
                            | None => ""
                            end;
         ModalV1.selectedSoundId := orStr (soundId e) "classic" |}
  | None =>
      {| ModalV1.time := "08:00";
         ModalV1.label := "";
         ModalV1.repeatDays := [];
         ModalV1.specificDates := match initialDate with
                                  | Some (String _ _ as d) => [d]
                                  | _ => []
                                  end;
         ModalV1.useRange := false;
         ModalV1.rangeFrom := orOpt initialDate "";
         ModalV1.rangeTo := "";
         ModalV1.selectedSoundId := "classic" |}
  end.

Definition loadV2 (initialDate : option string) (editAlarm : option Alarm)
  : ModalV2.Form :=
  match editAlarm with
  | Some e =>
      {| ModalV2.time := time e;
         ModalV2.endTime := orOpt (endTime e) "09:00";
         ModalV2.label := label e;
         ModalV2.description := orOpt (description e) "";
         ModalV2.type := match type e with Some k => k | None => alarm end;
         ModalV2.repeatDays := optList (repeatDays e);
         ModalV2.specificDates := optList (specificDates e);
         ModalV2.useRange := match dateRange e with Some _ => true | None => false end;
         ModalV2.rangeFrom := match dateRange e with
                              | Some r => orStr (from r) ""
                              | None => ""
                              end;
         ModalV2.rangeTo := match dateRange e with
                            | Some r => orStr (to r) ""
                            | None => ""
                            end;
         ModalV2.selectedSoundId := orStr (soundId e) "classic";
         ModalV2.initialDate := initialDate |}
  | None =>
      {| ModalV2.time := "08:00";
         ModalV2.endTime := "09:00";
         ModalV2.label := "";
         ModalV2.description := "";
         ModalV2.type := alarm;
         ModalV2.repeatDays := [];
         ModalV2.specificDates := match initialDate with
                                  | Some (String _ _ as d) => [d]
                                  | _ => []
                                  end;
         ModalV2.useRange := false;
         ModalV2.rangeFrom := orOpt initialDate "";
         ModalV2.rangeTo := "";
         ModalV2.selectedSoundId := "classic";
         ModalV2.initialDate := initialDate |}
  end.

(** ** The sound catalog *)

(** [saveCustomSoundMetadata(sound)]: the stored list with the sound
    appended. *)
Definition saveCustomSoundMetadata (sound : Sound.t) (h : Host) : Host :=
  {| tzOffset := tzOffset h; onLine := onLine h; canVibrate := canVibrate h;
     notificationGranted := notificationGranted h;
     customSounds := customSounds h ++ [sound] |}.

(** ** The list view *)

(** [list.sort((a, b) => a.time.localeCompare(b.time))].  The sort is
    stable and the comparison a consistent order of the time texts, so
    the result is the one of inserting each alarm, from the last to
    the first, before the first alarm that does not precede it.  The
    locale's comparison is a parameter. *)
Fixpoint insertByTime (localeCompare : string -> string -> Z) (a : Alarm)
         (l : list Alarm) : list Alarm :=
  match l with
  | [] => [a]
  | b :: r =>
      if localeCompare (time a) (time b) <=? 0 then a :: l
      else b :: insertByTime localeCompare a r
  end.

Fixpoint sortByTime (localeCompare : string -> string -> Z) (l : list Alarm)
  : list Alarm :=
  match l with
  | [] => []
  | a :: r => insertByTime localeCompare a (sortByTime localeCompare r)
  end.

(** [selectedDate ? alarms.filter(a => isAlarmOnDate(a, selectedDate))
                  : alarms] *)
Definition filteredAlarms (tz : Z) (selectedDate : option string)
           (alarms : list Alarm) : list Alarm :=
  match selectedDate with
  | Some (String _ _ as d) => List.filter (fun a => isAlarmOnDate tz a d) alarms
  | _ => alarms
  end.

(** The rows of the list view:
    [filteredAlarms.sort((a,b) => a.time.localeCompare(b.time))]. *)
Definition listRows (localeCompare : string -> string -> Z) (tz : Z)
           (selectedDate : option string) (alarms : list Alarm) : list Alarm :=
  sortByTime localeCompare (filteredAlarms tz selectedDate alarms).

(** The alarm array after the list view is rendered: [sort] works in
    place, and with no date selected [filteredAlarms] is the array of
    the state itself, the one the tick searches; with a date selected
    the sorted array is the fresh one of [filter]. *)
Definition alarmsAfterRender (localeCompare : string -> string -> Z)
           (selectedDate : option string) (alarms : list Alarm) : list Alarm :=
  match selectedDate with
  | Some (String _ _) => alarms
  | _ => sortByTime localeCompare alarms
  end.

(** A comparison by code units, for examples. *)
Definition codeUnitCompare (a b : string) : Z :=
  if str_ltb a b then -1 else if str_ltb b a then 1 else 0.

Definition lateFirst : list Alarm := [dailyCall; wakeUp; workout].

(** A session of clicks on the day buttons, starting from [prev]. *)
Definition toggleDays (clicks : list Z) (prev : list Z) : list Z :=
  fold_left (fun l d => toggleDay d l) clicks prev.

(** A session on the chosen dates: picking a date in the date input
    and pressing the cross of a chosen one. *)
Inductive DateOp :=
| PickDate (date : string)
| DropDate (date : string).

Definition applyDateOp (l : list string) (op : DateOp) : list string :=
  match op with
  | PickDate d => addSpecificDate d l
  | DropDate d => removeSpecificDate d l
  end.

Definition editDates (ops : list DateOp) (start : list string) : list string :=
  fold_left applyDateOp ops start.

Definition weekDays : list Z := [0; 1; 2; 3; 4; 5; 6].

(** A form of the first modal. *)
Definition rangeFormV1 : ModalV1.Form :=
  {| ModalV1.time := "07:30"; ModalV1.label := "";
     ModalV1.repeatDays := []; ModalV1.specificDates := ["2024-03-06"];
     ModalV1.useRange := true;
     ModalV1.rangeFrom := "2024-03-04"; ModalV1.rangeTo := "";
     ModalV1.selectedSoundId := "zen" |}.

(** ** The ringing life cycle *)

Definition isSome {A : Type} (x : option A) : bool :=
  match x with
  | Some _ => true
  | None => false
  end.

(** The coherence of the second variant's cells between two events:
    the reference follows the state, the audio element exists and plays
    exactly while an alarm rings, the vibration interval runs exactly
    while an alarm rings on a host that vibrates, and a narration
    source is only held while an alarm rings. *)
Definition coherentV2 (h : Host) (st : V2.State) : Prop :=
  V2.ringingAlarmRef st = V2.ringingAlarm st
  /\ (exists au, V2.alarmAudio st = Some au
                 /\ paused au = negb (isSome (V2.ringingAlarm st)))
  /\ V2.vibrationInterval st = isSome (V2.ringingAlarm st) && canVibrate h
  /\ (isSome (V2.currentAiSource st) = true ->
      isSome (V2.ringingAlarm st) = true).

(** The volumes the first variant can ever reach: an assigned value
    followed by ramp steps. *)
Definition rampReachable (v : float) : Prop :=
  exists v0 n, In v0 assignedVolumes /\ v = rampFrom v0 n.

(** The coherence of the first variant's cells between two events. *)
Definition coherentV1 (st : V1.State) : Prop :=
  (exists au, V1.alarmAudio st = Some au
              /\ paused au = negb (isSome (V1.ringingAlarm st))
              /\ rampReachable (volume au))
  /\ V1.rampInterval st = isSome (V1.ringingAlarm st).

(** ** The tick's clock reading *)

Definition msPerHour : Z := 3600000.
Definition msPerSecond : Z := 1000.

Definition HourFromTime (t : Z) : Z := (t / msPerHour) mod 24.
Definition MinFromTime (t : Z) : Z := (t / msPerMinute) mod 60.
Definition SecFromTime (t : Z) : Z := (t / msPerSecond) mod 60.

(** What the tick reads from its [new Date()] of time value [t] on a
    host [tz] minutes east of UTC: [getHours()], [getMinutes()] and
    [getSeconds()] are local, [formatDateKey] is the UTC date. *)
Definition clockOf (tz t : Z) (locale : string) : Now :=
  {| hours := HourFromTime (LocalTime tz t);
     minutes := MinFromTime (LocalTime tz t);
     seconds := SecFromTime (LocalTime tz t);
     isoDate := formatDateKey t;
     localeTime := locale |}.

(** An alarm for one chosen date. *)
Definition oneOff (key tm : string) : Alarm :=
  {| id := "o1"; time := tm; endTime := None; label := "Flight";
     description := None; specificDates := Some [key]; dateRange := None;
     repeatDays := None; isEnabled := true; soundId := "classic";
     isAiEnabled := None; type := None |}.

(** A host five and a half hours east of UTC. *)
Definition eastHost : Host :=
  {| tzOffset := 330; onLine := true; canVibrate := true;
     notificationGranted := true; customSounds := [] |}.

(** ** The sound catalog *)

Definition allSounds (h : Host) : list Sound.t :=
  DEFAULT_SOUNDS ++ customSounds h.

Definition classicSound : Sound.t :=
  {| Sound.id := "classic"; Sound.name := "Classic Beep";
     Sound.url := "https://actions.google.com/sounds/v1/alarms/beep_short.ogg";
     Sound.isCustom := false |}.

Definition uploaded : Sound.t :=
  {| Sound.id := "custom_1709712000000"; Sound.name := "rooster.mp3";
     Sound.url := "data:audio/mpeg;base64,AAAA"; Sound.isCustom := true |}.

(** ** Variant V0: the tick without ringing state *)

Module V0.

(** What the tick of the first application does: it starts the sound
    and shows a notification or, without the permission, an alert. *)
Inductive Effect :=
| Play (url : string)
| Notification (title body : string)
| Alert (message : string).

(** The body of the one-second interval; [audio] tells whether the
    audio element is mounted. *)
Definition tick (h : Host) (use24Hour audio : bool) (alarms : list Alarm)
           (now : Now) : list Effect :=
  match findTriggered h alarms now with
  | Some triggered =>
      if seconds now =? 0 then
        let sound := resolveSound h (soundId triggered) in
        (if audio then [Play (Sound.url sound)] else [])
        ++ (if notificationGranted h
            then [Notification
                    ("Zora: " +:+ label triggered)
                    ("Synchronized: "
                     +:+ formatTimeDisplay (time triggered) use24Hour)]
            else [Alert ("☀️ ZORA AWAKENING: " +:+ label triggered +:+ " ("
                         +:+ formatTimeDisplay (time triggered) use24Hour
                         +:+ ")")])
      else []
  | None => []
  end.

End V0.

(** The time of day in the 12-hour form. *)
Definition display12 (hm : Z * Z) : string :=
  let '(h, m) := hm in
  toString (if h mod 12 =? 0 then 12 else h mod 12) +:+ ":" +:+
  padStart2 (toString m) +:+ " " +:+ (if h <? 12 then "AM" else "PM").

Definition displayOf (hm : Z * Z) : string :=
  formatTimeDisplay (clockTime (fst hm) (snd hm)) false.

Fixpoint nodupb (l : list string) : bool :=
  match l with
  | [] => true
  | x :: r => negb (existsb (String.eqb x) r) && nodupb r
  end.

(** An alarm on workdays with no chosen date. *)
Definition workdays : Alarm :=
  {| id := "w1"; time := "06:30"; endTime := None; label := "Work";
     description := None; specificDates := Some []; dateRange := None;
     repeatDays := Some [1; 2; 3; 4; 5]; isEnabled := true;
     soundId := "classic"; isAiEnabled := None; type := None |}.

(** ** Quick add *)

(** The month the calendar shows after a quick add for [date], in the
    variant with the volume ramp:
    [const d = new Date(result.date);
     setViewDate(new Date(d.getFullYear(), d.getMonth(), 1))].
    [None] is the invalid date. *)
Definition quickAddView (tz : Z) (date : string) : option Z :=
  match newDate date with
  | Some t => newDateYMD tz (getFullYear tz t) (getMonth tz t) 1
  | None => None
  end.

(** The text of a date with its eight digits spelled out. *)
Definition keyText (a b c e f g h i : Z) : string :=
  String (digitChar a) (String (digitChar b) (String (digitChar c)
    (String (digitChar e) (String "-" (String (digitChar f)
      (String (digitChar g) (String "-" (String (digitChar h)
        (String (digitChar i) EmptyString))))))))).

(** A course from Monday 2024-02-26 to Sunday 2024-03-03. *)
Definition marchWeek : Alarm :=
  {| id := "r1"; time := "07:30"; endTime := None; label := "Course";
     description := None; specificDates := None;
     dateRange := Some {| from := "2024-02-26"; to := "2024-03-03" |};
     repeatDays := None; isEnabled := true; soundId := "classic";
     isAiEnabled := None; type := None |}.

(** An alarm on all seven days. *)
Definition everyDay : Alarm :=
  {| id := "d1"; time := "06:00"; endTime := None; label := "Rise";
     description := None; specificDates := None; dateRange := None;
     repeatDays := Some [1; 2; 3; 4; 5; 6; 0]; isEnabled := true;
     soundId := "morning"; isAiEnabled := None; type := None |}.

(** * Properties *)

(** Closed facts about concrete runs are settled by evaluation. *)
Ltac by_eval := vm_compute; reflexivity.

(** ** RecurrenceMatcher *)

Section Recurrence.

Lemma includes_str_In (l : list string) (x : string) :
  includes_str l x = true <-> In x l.
Proof.
  unfold includes_str, str_eqb. rewrite existsb_exists. split.
  - intros [y [Hy He]]. apply String.eqb_eq in He. now subst.
  - intros H. exists x. split; [assumption | apply String.eqb_refl].
Qed.

Lemma includes_day_In (l : list Z) (w : Z) :
  includes_day l (Some w) = true <-> In w l.
Proof.
  simpl. rewrite existsb_exists. split.
  - intros [y [Hy He]]. apply Z.eqb_eq in He. now subst.
  - intros H. exists w. split; [assumption | apply Z.eqb_refl].
Qed.

Lemma includes_day_NaN (l : list Z) : includes_day l None = false.
Proof. reflexivity. Qed.

(** The inclusive range test, in the two spellings used. *)
Lemma str_geb_leb (a b : string) : str_geb a b = str_leb b a.
Proof. reflexivity. Qed.

(** The matcher is the disjunction of its three rules. *)
Lemma isAlarmOnDate_orb (tz : Z) (a : Alarm) (dateKey : string) :
  isAlarmOnDate tz a dateKey =
  onSpecificDate a dateKey || inDateRange a dateKey || onRepeatDay tz a dateKey.
Proof.
  unfold isAlarmOnDate, onSpecificDate, inDateRange, onRepeatDay.
  unfold str_geb, str_leb.
  repeat match goal with
         | |- context [match ?x with _ => _ end] => destruct x
         end; reflexivity.
Qed.

Lemma onSpecificDate_iff (a : Alarm) (dateKey : string) :
  onSpecificDate a dateKey = true <->
  exists l, specificDates a = Some l /\ In dateKey l.
Proof.
  unfold onSpecificDate. destruct (specificDates a) as [l|].
  - rewrite includes_str_In. split.
    + intros H. now exists l.
    + intros [l' [E H]]. now inversion E; subst.
  - split; [discriminate | intros [l' [E _]]; discriminate].
Qed.

Lemma inDateRange_iff (a : Alarm) (dateKey : string) :
  inDateRange a dateKey = true <->
  exists r, dateRange a = Some r
            /\ str_leb (from r) dateKey = true
            /\ str_leb dateKey (to r) = true.
Proof.
  unfold inDateRange. destruct (dateRange a) as [r|].
  - rewrite andb_true_iff. split.
    + intros H. now exists r.
    + intros [r' [E H]]. now inversion E; subst.
  - split; [discriminate | intros [r' [E _]]; discriminate].
Qed.

Lemma onRepeatDay_iff (tz : Z) (a : Alarm) (dateKey : string) :
  onRepeatDay tz a dateKey = true <->
  exists l w, repeatDays a = Some l
              /\ getDay tz (newDate dateKey) = Some w /\ In w l.
Proof.
  unfold onRepeatDay. destruct (repeatDays a) as [l|].
  - destruct (getDay tz (newDate dateKey)) as [w|].
    + rewrite includes_day_In. split.
      * intros H. now exists l, w.
      * intros [l' [w' [E [G H]]]]. now inversion E; inversion G; subst.
    + rewrite includes_day_NaN.
      split; [discriminate | intros [l' [w' [_ [G _]]]]; discriminate].
  - split; [discriminate | intros [l' [w' [E _]]]; discriminate].
Qed.

(** The matcher's result, with the weekday exactly as the code
    computes it: [new Date(dateKey).getDay()] on a host at offset
    [tz]. *)
Lemma isAlarmOnDate_cases (tz : Z) (a : Alarm) (dateKey : string) :
  isAlarmOnDate tz a dateKey = true <->
  (exists l, specificDates a = Some l /\ In dateKey l)
  \/ (exists r, dateRange a = Some r
                /\ str_leb (from r) dateKey = true
                /\ str_leb dateKey (to r) = true)
  \/ (exists l w, repeatDays a = Some l
                  /\ getDay tz (newDate dateKey) = Some w /\ In w l).
Proof.
  rewrite isAlarmOnDate_orb, !orb_true_iff.
  rewrite onSpecificDate_iff, inDateRange_iff, onRepeatDay_iff. tauto.
Qed.

(** On a host at or east of Greenwich, [getDay] of a date key is the
    weekday of that calendar date. *)
Lemma getDay_weekdayOf (tz : Z) (dateKey : string) :
  0 <= tz < 1440 ->
  getDay tz (newDate dateKey) = weekdayOf dateKey.
Proof.
  intros Htz. unfold newDate, weekdayOf.
  destruct (parseDateKey dateKey) as [[[y m] d]|]; [|reflexivity].
  simpl. f_equal. unfold WeekDay, msPerDay, msPerMinute.
  replace ((MakeDay y m d * 86400000 + tz * 60000) / 86400000)
    with (MakeDay y m d); [reflexivity|].
  apply Z.div_unique with (r := tz * 60000); lia.
Qed.

(** On a host west of Greenwich it is the weekday of the day
    before. *)
Lemma getDay_west (tz : Z) (dateKey : string) (w : Z) :
  -1440 <= tz < 0 ->
  weekdayOf dateKey = Some w ->
  getDay tz (newDate dateKey) = Some ((w + 6) mod 7).
Proof.
  intros Htz. unfold newDate, weekdayOf.
  destruct (parseDateKey dateKey) as [[[y m] d]|]; [|discriminate].
  intros E. inversion E as [Hw]. clear E. simpl. f_equal.
  unfold WeekDay, msPerDay, msPerMinute.
  replace ((MakeDay y m d * 86400000 + tz * 60000) / 86400000)
    with (MakeDay y m d - 1).
  - rewrite Zplus_mod_idemp_l.
    replace (MakeDay y m d + 4 + 6) with (MakeDay y m d - 1 + 4 + 1 * 7) by lia.
    now rewrite Z_mod_plus_full.
  - apply Z.div_unique with (r := tz * 60000 + 86400000); lia.
Qed.

(** The matcher on hosts at or east of Greenwich: the three rules
    with the calendar weekday. *)
Theorem isAlarmOnDate_east (tz : Z) (a : Alarm) (dateKey : string) :
  0 <= tz < 1440 ->
  (isAlarmOnDate tz a dateKey = true <->
   (exists l, specificDates a = Some l /\ In dateKey l)
   \/ (exists r, dateRange a = Some r
                 /\ str_leb (from r) dateKey = true
                 /\ str_leb dateKey (to r) = true)
   \/ (exists l w, repeatDays a = Some l
                   /\ weekdayOf dateKey = Some w /\ In w l)).
Proof.
  intros Htz. rewrite isAlarmOnDate_cases, (getDay_weekdayOf tz dateKey Htz).
  reflexivity.
Qed.

(** An alarm with no occurrence field set matches no date, on any
    host. *)
Theorem isAlarmOnDate_no_rule (tz : Z) (a : Alarm) (dateKey : string) :
  match specificDates a with Some l => l = [] | None => True end ->
  dateRange a = None ->
  match repeatDays a with Some l => l = [] | None => True end ->
  isAlarmOnDate tz a dateKey = false.
Proof.
  intros Hs Hr Hd. rewrite isAlarmOnDate_orb.
  unfold onSpecificDate, inDateRange, onRepeatDay. rewrite Hr.
  destruct (specificDates a) as [l|]; [subst l|];
    (destruct (repeatDays a) as [l'|]; [subst l'|]); simpl;
    try reflexivity;
    destruct (getDay tz (newDate dateKey)); reflexivity.
Qed.

(** A weekly alarm on the single weekday [w], on a host at or east of
    Greenwich, matches exactly the dates that fall on [w]. *)
Theorem weekly_alarm_east (tz : Z) (a : Alarm) (w : Z) (dateKey : string) :
  0 <= tz < 1440 ->
  specificDates a = None -> dateRange a = None -> repeatDays a = Some [w] ->
  (isAlarmOnDate tz a dateKey = true <-> weekdayOf dateKey = Some w).
Proof.
  intros Htz Hs Hr Hd. rewrite (isAlarmOnDate_east tz a dateKey Htz).
  rewrite Hs, Hr, Hd. split.
  - intros [[l [E _]] | [[r [E _]] | [l [w' [E [G I]]]]]]; try discriminate.
    inversion E; subst. destruct I as [->|[]]. assumption.
  - intros G. right. right. exists [w], w. repeat split; [assumption|].
    now left.
Qed.

End Recurrence.

(** C1.  The matcher is to return true exactly when the date is among
    the specific dates, lies in the inclusive date range, or falls on
    one of the repeat weekdays.  On a host five hours west of Greenwich
    the code misses this: 2024-03-01 is a Friday, the alarm repeats on
    Fridays, and [isAlarmOnDate] answers false, because the date key is
    read as midnight UTC and [getDay] reports the local weekday, which
    there is still Thursday. *)
Theorem isAlarmOnDate_west_of_utc_misses_weekday :
  weekdayOf "2024-03-01" = Some 5
  /\ repeatDays fridayAlarm = Some [5]
  /\ getDay (-300) (newDate "2024-03-01") = Some 4
  /\ isAlarmOnDate (-300) fridayAlarm "2024-03-01" = false
  /\ isAlarmOnDate (-300) fridayAlarm "2024-03-02" = true
  /\ isAlarmOnDate 0 fridayAlarm "2024-03-01" = true.
Proof. repeat split; reflexivity. Qed.

(** ** The candidate search *)

Section Candidate.

Variable h : Host.
Variable now : Now.


Lemma findTriggered_candidate (alarms : list Alarm) (a : Alarm) :
  findTriggered h alarms now = Some a ->
  In a alarms /\ isCandidate h now a = true.
Proof. intros H. apply find_some in H. exact H. Qed.

Lemma findTriggered_none (alarms : list Alarm) :
  findTriggered h alarms now = None <->
  Forall (fun x => isCandidate h now x = false) alarms.
Proof.
  unfold findTriggered. rewrite List.Forall_forall. split.
  - intros H x Hx. now apply (find_none _ _ H).
  - intros H. induction alarms as [|x l IH]; [reflexivity|]. simpl.
    rewrite (H x (or_introl eq_refl)). apply IH.
    intros y Hy. apply H. now right.
Qed.

(** Searching the whole list or the one-item list of its first
    candidate gives the same candidate. *)
Lemma findTriggered_single (alarms : list Alarm) (a : Alarm) :
  findTriggered h alarms now = Some a ->
  findTriggered h [a] now = Some a.
Proof.
  intros H. apply findTriggered_candidate in H. destruct H as [_ H].
  unfold findTriggered. simpl. now rewrite H.
Qed.

Lemma isCandidate_iff (a : Alarm) :
  isCandidate h now a = true <->
  isEnabled a = true
  /\ time a = currentTimeStr now
  /\ isAlarmOnDate (tzOffset h) a (todayKey now) = true.
Proof.
  unfold isCandidate, str_eqb. rewrite !andb_true_iff, String.eqb_eq. tauto.
Qed.


End Candidate.

(** ** Variant V2: the tick and the dedupe set *)

Section V2Facts.

Lemma v2_has_true (st : V2.State) (key : string) :
  V2.has st key = true <-> key ∈ V2.triggeredItems st.
Proof. unfold V2.has. apply bool_decide_eq_true. Qed.

Lemma v2_has_false (st : V2.State) (key : string) :
  V2.has st key = false <-> key ∉ V2.triggeredItems st.
Proof. unfold V2.has. apply bool_decide_eq_false. Qed.

Lemma v2_tick_consumed h alarms now st :
  V2.has st (secondKey now) = true -> V2.tick h alarms now st = (st, []).
Proof.
  intros H. unfold V2.tick. rewrite H. simpl.
  destruct (findTriggered h alarms now); reflexivity.
Qed.

Lemma v2_tick_off_minute h alarms now st :
  seconds now <> 0 -> V2.tick h alarms now st = (st, []).
Proof.
  intros H. unfold V2.tick. apply Z.eqb_neq in H. rewrite H, andb_false_r.
  destruct (findTriggered h alarms now); reflexivity.
Qed.

Lemma v2_tick_no_candidate h alarms now st :
  findTriggered h alarms now = None -> V2.tick h alarms now st = (st, []).
Proof. intros H. unfold V2.tick. now rewrite H. Qed.

Lemma v2_tick_dispatch h alarms now st t :
  findTriggered h alarms now = Some t ->
  V2.has st (secondKey now) = false ->
  seconds now = 0 ->
  V2.tick h alarms now st = V2.dispatch h now t st.
Proof.
  intros Hf Hh Hs. unfold V2.tick, V2.dispatch, V2.consume.
  rewrite Hf, Hh, Hs. reflexivity.
Qed.

(** The tick is decided by its candidate alone: the rest of the list
    plays no part. *)
Lemma v2_tick_first_only h alarms now st t :
  findTriggered h alarms now = Some t ->
  V2.tick h alarms now st = V2.tick h [t] now st.
Proof.
  intros Hf. pose proof (findTriggered_single h now alarms t Hf) as H1.
  unfold V2.tick. now rewrite Hf, H1.
Qed.

Lemma v2_playEventChime_triggered h now lbl st :
  V2.triggeredItems (fst (V2.playEventChime h now lbl st)) = V2.triggeredItems st.
Proof. reflexivity. Qed.

Lemma v2_playEventChime_ringing h now lbl st :
  V2.ringingAlarm (fst (V2.playEventChime h now lbl st)) = V2.ringingAlarm st.
Proof. reflexivity. Qed.

Lemma v2_startRinging_triggered h t st :
  V2.triggeredItems (fst (V2.startRinging h t st)) = V2.triggeredItems st.
Proof.
  unfold V2.startRinging, V2.startAlarmVibration.
  destruct (V2.alarmAudio st); destruct (canVibrate h); reflexivity.
Qed.

Lemma v2_startRinging_ringing h t st :
  V2.ringingAlarm (fst (V2.startRinging h t st)) = Some t.
Proof.
  unfold V2.startRinging, V2.startAlarmVibration.
  destruct (V2.alarmAudio st); destruct (canVibrate h); reflexivity.
Qed.

Lemma v2_dispatch_triggered h now t st :
  V2.triggeredItems (fst (V2.dispatch h now t st))
  = {[ secondKey now ]} ∪ V2.triggeredItems st.
Proof.
  unfold V2.dispatch. destruct (isEvent t); [reflexivity|].
  destruct (V2.ringingAlarm st); [reflexivity|].
  now rewrite v2_startRinging_triggered.
Qed.

Lemma v2_tick_triggered_mono h alarms now st key :
  key ∈ V2.triggeredItems st -> key ∈ V2.triggeredItems (fst (V2.tick h alarms now st)).
Proof.
  intros Hk. destruct (findTriggered h alarms now) as [t|] eqn:Hf.
  - destruct (V2.has st (secondKey now)) eqn:Hh.
    + now rewrite v2_tick_consumed.
    + destruct (Z.eq_dec (seconds now) 0) as [Hs|Hs].
      * rewrite (v2_tick_dispatch h alarms now st t Hf Hh Hs), v2_dispatch_triggered.
        set_solver.
      * now rewrite v2_tick_off_minute.
  - now rewrite v2_tick_no_candidate.
Qed.

Lemma v2_handleDismissAlarm_triggered h st :
  V2.triggeredItems (fst (V2.handleDismissAlarm h st)) = V2.triggeredItems st.
Proof.
  unfold V2.handleDismissAlarm, V2.stopVibration.
  destruct (V2.alarmAudio st); simpl;
    destruct (V2.currentAiSource st); simpl;
    destruct (V2.vibrationInterval st); reflexivity.
Qed.

Lemma v2_handleDismissAlarm_ringing h st :
  V2.ringingAlarm (fst (V2.handleDismissAlarm h st)) = None.
Proof.
  unfold V2.handleDismissAlarm, V2.stopVibration.
  destruct (V2.alarmAudio st); simpl;
    destruct (V2.currentAiSource st); simpl;
    destruct (V2.vibrationInterval st); reflexivity.
Qed.

Lemma v2_playAiGreeting_triggered a res st :
  V2.triggeredItems (fst (V2.playAiGreeting a res st)) = V2.triggeredItems st.
Proof.
  unfold V2.playAiGreeting. destruct res as [| | |audio decodes]; try reflexivity.
  destruct (V2.ringingAlarmRef st) as [r|]; [|reflexivity].
  destruct (negb (str_eqb (id r) (id a))); [reflexivity|].
  destruct decodes; simpl; [|reflexivity].
  destruct (V2.alarmAudio st); reflexivity.
Qed.

Lemma v2_playAiGreeting_ringing a res st :
  V2.ringingAlarm (fst (V2.playAiGreeting a res st)) = V2.ringingAlarm st.
Proof.
  unfold V2.playAiGreeting. destruct res as [| | |audio decodes]; try reflexivity.
  destruct (V2.ringingAlarmRef st) as [r|]; [|reflexivity].
  destruct (negb (str_eqb (id r) (id a))); [reflexivity|].
  destruct decodes; simpl; [|reflexivity].
  destruct (V2.alarmAudio st); reflexivity.
Qed.

(** The dedupe set only grows. *)
Lemma v2_step_triggered_mono h ev st key :
  key ∈ V2.triggeredItems st -> key ∈ V2.triggeredItems (fst (V2.step h ev st)).
Proof.
  intros Hk. unfold V2.step. destruct ev as [alarms now| |a res|].
  - pose proof (v2_tick_triggered_mono h alarms now st key Hk) as H.
    destruct (V2.tick h alarms now st) as [st' es]. exact H.
  - pose proof (v2_handleDismissAlarm_triggered h st) as H.
    destruct (V2.handleDismissAlarm h st) as [st' es]. simpl in *. now rewrite H.
  - pose proof (v2_playAiGreeting_triggered a res st) as H.
    destruct (V2.playAiGreeting a res st) as [st' es]. simpl in *. now rewrite H.
  - exact Hk.
Qed.

Lemma v2_run_triggered_mono h evs st key :
  key ∈ V2.triggeredItems st -> key ∈ V2.triggeredItems (fst (V2.run h evs st)).
Proof.
  revert st. induction evs as [|ev evs IH]; intros st Hk; [exact Hk|].
  simpl. pose proof (v2_step_triggered_mono h ev st key Hk) as H1.
  destruct (V2.step h ev st) as [st1 e1]. specialize (IH st1 H1).
  destruct (V2.run h evs st1) as [st2 e2]. exact IH.
Qed.

(** The ringing reference follows the state after every step. *)
Lemma v2_step_ref_synced h ev st :
  V2.ringingAlarmRef (fst (V2.step h ev st)) = V2.ringingAlarm (fst (V2.step h ev st)).
Proof.
  unfold V2.step.
  destruct (match ev with
            | V2.Tick alarms now => V2.tick h alarms now st
            | V2.Dismiss => V2.handleDismissAlarm h st
            | V2.GreetingResult a res => V2.playAiGreeting a res st
            | V2.BannerExpires => (V2.setEventNotification None st, [])
            end) as [st' es].
  reflexivity.
Qed.

End V2Facts.

(** ** Variant V1: the tick and the dedupe set *)

Section V1Facts.

Lemma v1_has_true (st : V1.State) (key : string) :
  V1.has st key = true <-> key ∈ V1.triggeredAlarms st.
Proof. unfold V1.has. apply bool_decide_eq_true. Qed.

Lemma v1_has_false (st : V1.State) (key : string) :
  V1.has st key = false <-> key ∉ V1.triggeredAlarms st.
Proof. unfold V1.has. apply bool_decide_eq_false. Qed.

Lemma v1_idle_test (st : V1.State) :
  negb (bool_decide (is_Some (V1.ringingAlarm st))) = true <-> V1.ringingAlarm st = None.
Proof.
  destruct (V1.ringingAlarm st) as [r|]; simpl; split;
    intros; try discriminate; reflexivity.
Qed.

Lemma v1_tick_consumed h alarms now st :
  V1.has st (secondKey now) = true -> V1.tick h alarms now st = (st, []).
Proof.
  intros H. unfold V1.tick. rewrite H. simpl.
  destruct (findTriggered h alarms now); reflexivity.
Qed.

Lemma v1_tick_off_minute h alarms now st :
  seconds now <> 0 -> V1.tick h alarms now st = (st, []).
Proof.
  intros H. unfold V1.tick. apply Z.eqb_neq in H. rewrite H, andb_false_r.
  destruct (findTriggered h alarms now); reflexivity.
Qed.

Lemma v1_tick_no_candidate h alarms now st :
  findTriggered h alarms now = None -> V1.tick h alarms now st = (st, []).
Proof. intros H. unfold V1.tick. now rewrite H. Qed.

(** While an alarm rings the tick does nothing at all: it neither
    records the minute nor starts anything. *)
Lemma v1_tick_ringing h alarms now st r :
  V1.ringingAlarm st = Some r -> V1.tick h alarms now st = (st, []).
Proof.
  intros H. unfold V1.tick.
  assert (E : negb (bool_decide (is_Some (V1.ringingAlarm st))) = false).
  { rewrite H. reflexivity. }
  rewrite E, andb_false_r.
  destruct (findTriggered h alarms now); reflexivity.
Qed.

Lemma v1_tick_dispatch h alarms now st t :
  findTriggered h alarms now = Some t ->
  V1.has st (secondKey now) = false ->
  seconds now = 0 ->
  V1.ringingAlarm st = None ->
  V1.tick h alarms now st = V1.dispatch h now t st.
Proof.
  intros Hf Hh Hs Hr. apply v1_idle_test in Hr.
  unfold V1.tick, V1.dispatch. rewrite Hf, Hh, Hs, Hr. reflexivity.
Qed.

Lemma v1_tick_first_only h alarms now st t :
  findTriggered h alarms now = Some t ->
  V1.tick h alarms now st = V1.tick h [t] now st.
Proof.
  intros Hf. pose proof (findTriggered_single h now alarms t Hf) as H1.
  unfold V1.tick. now rewrite Hf, H1.
Qed.

Lemma v1_dispatch_triggered h now t st :
  V1.triggeredAlarms (fst (V1.dispatch h now t st))
  = {[ secondKey now ]} ∪ V1.triggeredAlarms st.
Proof. unfold V1.dispatch. simpl. destruct (V1.alarmAudio st); reflexivity. Qed.

Lemma v1_dispatch_ringing h now t st :
  V1.ringingAlarm (fst (V1.dispatch h now t st)) = Some t.
Proof. unfold V1.dispatch. simpl. destruct (V1.alarmAudio st); reflexivity. Qed.

Lemma v1_tick_triggered_mono h alarms now st key :
  key ∈ V1.triggeredAlarms st -> key ∈ V1.triggeredAlarms (fst (V1.tick h alarms now st)).
Proof.
  intros Hk. destruct (findTriggered h alarms now) as [t|] eqn:Hf.
  - destruct (V1.has st (secondKey now)) eqn:Hh.
    + now rewrite v1_tick_consumed.
    + destruct (Z.eq_dec (seconds now) 0) as [Hs|Hs].
      * destruct (V1.ringingAlarm st) as [r|] eqn:Hr.
        -- now rewrite (v1_tick_ringing h alarms now st r Hr).
        -- rewrite (v1_tick_dispatch h alarms now st t Hf Hh Hs Hr).
           rewrite v1_dispatch_triggered. set_solver.
      * now rewrite v1_tick_off_minute.
  - now rewrite v1_tick_no_candidate.
Qed.

Lemma v1_setVolume_triggered v st :
  V1.triggeredAlarms (V1.setVolume v st) = V1.triggeredAlarms st.
Proof. unfold V1.setVolume. destruct (V1.alarmAudio st); reflexivity. Qed.

Lemma v1_setVolume_ringing v st :
  V1.ringingAlarm (V1.setVolume v st) = V1.ringingAlarm st.
Proof. unfold V1.setVolume. destruct (V1.alarmAudio st); reflexivity. Qed.

Lemma v1_rampEffect_triggered h st :
  V1.triggeredAlarms (V1.rampEffect h st) = V1.triggeredAlarms st.
Proof.
  unfold V1.rampEffect, V1.setVolume. simpl.
  destruct (V1.ringingAlarm st); [|reflexivity].
  destruct (V1.alarmAudio st); reflexivity.
Qed.

Lemma v1_rampTick_triggered st :
  V1.triggeredAlarms (V1.rampTick st) = V1.triggeredAlarms st.
Proof.
  unfold V1.rampTick. destruct (V1.rampInterval st); [|reflexivity].
  destruct (V1.alarmAudio st) eqn:E; [|reflexivity].
  apply v1_setVolume_triggered.
Qed.

Lemma v1_handleDismissAlarm_triggered st :
  V1.triggeredAlarms (fst (V1.handleDismissAlarm st)) = V1.triggeredAlarms st.
Proof.
  unfold V1.handleDismissAlarm.
  destruct (V1.alarmAudio st); simpl; destruct (V1.currentAiSource st); reflexivity.
Qed.

Lemma v1_playImmediateAiGreeting_triggered a res st :
  V1.triggeredAlarms (fst (V1.playImmediateAiGreeting a res st)) = V1.triggeredAlarms st.
Proof.
  unfold V1.playImmediateAiGreeting, V1.greetingFailed.
  destruct res as [| | |audio decodes]; simpl;
    try apply v1_setVolume_triggered; try reflexivity.
  destruct decodes; simpl; now rewrite v1_setVolume_triggered.
Qed.

(** The dedupe set only grows. *)
Lemma v1_step_triggered_mono h ev st key :
  key ∈ V1.triggeredAlarms st -> key ∈ V1.triggeredAlarms (fst (V1.step h ev st)).
Proof.
  intros Hk. unfold V1.step.
  assert (H : key ∈ V1.triggeredAlarms
                (fst (match ev with
                      | V1.Tick alarms now => V1.tick h alarms now st
                      | V1.RampTick => (V1.rampTick st, [])
                      | V1.Dismiss => V1.handleDismissAlarm st
                      | V1.GreetingResult a res => V1.playImmediateAiGreeting a res st
                      end))).
  { destruct ev as [alarms now| | |a res].
    - now apply v1_tick_triggered_mono.
    - simpl. now rewrite v1_rampTick_triggered.
    - now rewrite v1_handleDismissAlarm_triggered.
    - now rewrite v1_playImmediateAiGreeting_triggered. }
  destruct (match ev with
            | V1.Tick alarms now => V1.tick h alarms now st
            | V1.RampTick => (V1.rampTick st, [])
            | V1.Dismiss => V1.handleDismissAlarm st
            | V1.GreetingResult a res => V1.playImmediateAiGreeting a res st
            end) as [st' es].
  simpl in *.
  destruct (negb _); [now rewrite v1_rampEffect_triggered | exact H].
Qed.

Lemma v1_run_triggered_mono h evs st key :
  key ∈ V1.triggeredAlarms st -> key ∈ V1.triggeredAlarms (fst (V1.run h evs st)).
Proof.
  revert st. induction evs as [|ev evs IH]; intros st Hk; [exact Hk|].
  simpl. pose proof (v1_step_triggered_mono h ev st key Hk) as H1.
  destruct (V1.step h ev st) as [st1 e1]. specialize (IH st1 H1).
  destruct (V1.run h evs st1) as [st2 e2]. exact IH.
Qed.

End V1Facts.

(** ** DedupeTracker *)

Section Dedupe.

Lemma v2_step_tick_triggered h alarms now st :
  V2.triggeredItems (fst (V2.step h (V2.Tick alarms now) st))
  = V2.triggeredItems (fst (V2.tick h alarms now st)).
Proof.
  unfold V2.step. destruct (V2.tick h alarms now st) as [st' es]. reflexivity.
Qed.

Lemma v1_step_tick_triggered h alarms now st :
  V1.triggeredAlarms (fst (V1.step h (V1.Tick alarms now) st))
  = V1.triggeredAlarms (fst (V1.tick h alarms now st)).
Proof.
  unfold V1.step. destruct (V1.tick h alarms now st) as [st' es]. simpl.
  destruct (negb _); [apply v1_rampEffect_triggered | reflexivity].
Qed.

(** Once a minute key is in the set, no tick of that minute does
    anything, whatever happened in between and whatever the alarm
    list has become. *)
Lemma v2_consumed_forever h evs st key :
  key ∈ V2.triggeredItems st ->
  forall h' alarms' now',
    secondKey now' = key ->
    V2.tick h' alarms' now' (fst (V2.run h evs st))
    = (fst (V2.run h evs st), []).
Proof.
  intros Hk h' alarms' now' E. apply v2_tick_consumed.
  apply v2_has_true. rewrite E. now apply v2_run_triggered_mono.
Qed.

Lemma v1_consumed_forever h evs st key :
  key ∈ V1.triggeredAlarms st ->
  forall h' alarms' now',
    secondKey now' = key ->
    V1.tick h' alarms' now' (fst (V1.run h evs st))
    = (fst (V1.run h evs st), []).
Proof.
  intros Hk h' alarms' now' E. apply v1_tick_consumed.
  apply v1_has_true. rewrite E. now apply v1_run_triggered_mono.
Qed.

End Dedupe.

(** C2, as the code has it.  The tracker is keyed by date and minute
    only.  When a tick on the full minute finds a candidate and the key
    of that minute is not yet in the set (and, in V1, nothing rings),
    the key is recorded; from then on every tick with the same date and
    minute does nothing, for any later history and any alarm list. *)
Theorem dedupe_once_per_minute_key
  (h : Host) (alarms : list Alarm) (now : Now) (t : Alarm)
  (Hfound : findTriggered h alarms now = Some t)
  (Hzero : seconds now = 0) :
  (forall st : V2.State,
      V2.has st (secondKey now) = false ->
      let st1 := fst (V2.step h (V2.Tick alarms now) st) in
      V2.has st1 (secondKey now) = true
      /\ forall evs h' alarms' now',
           secondKey now' = secondKey now ->
           V2.tick h' alarms' now' (fst (V2.run h evs st1))
           = (fst (V2.run h evs st1), []))
  /\ (forall st : V1.State,
        V1.has st (secondKey now) = false ->
        V1.ringingAlarm st = None ->
        let st1 := fst (V1.step h (V1.Tick alarms now) st) in
        V1.has st1 (secondKey now) = true
        /\ forall evs h' alarms' now',
             secondKey now' = secondKey now ->
             V1.tick h' alarms' now' (fst (V1.run h evs st1))
             = (fst (V1.run h evs st1), [])).
Proof.
  split.
  - intros st Hfresh st1.
    assert (Hin : secondKey now ∈ V2.triggeredItems st1).
    { unfold st1. rewrite v2_step_tick_triggered.
      rewrite (v2_tick_dispatch h alarms now st t Hfound Hfresh Hzero).
      rewrite v2_dispatch_triggered. set_solver. }
    split.
    + now apply v2_has_true.
    + intros evs h' alarms' now' E.
      now apply v2_consumed_forever with (key := secondKey now).
  - intros st Hfresh Hidle st1.
    assert (Hin : secondKey now ∈ V1.triggeredAlarms st1).
    { unfold st1. rewrite v1_step_tick_triggered.
      rewrite (v1_tick_dispatch h alarms now st t Hfound Hfresh Hzero Hidle).
      rewrite v1_dispatch_triggered. set_solver. }
    split.
    + now apply v1_has_true.
    + intros evs h' alarms' now' E.
      now apply v1_consumed_forever with (key := secondKey now).
Qed.

Lemma dedupe_once_per_minute_key_witness :
  V2.has (fst (V2.step utcHost (V2.Tick [standup; wakeUp] wed0800) V2.initial))
         (secondKey wed0800) = true
  /\ V1.has (fst (V1.step utcHost (V1.Tick [standup; wakeUp] wed0800) V1.initial))
            (secondKey wed0800) = true.
Proof.
  pose proof (dedupe_once_per_minute_key utcHost [standup; wakeUp] wed0800
                standup eq_refl eq_refl) as [H2 H1].
  split.
  - exact (proj1 (H2 V2.initial eq_refl)).
  - exact (proj1 (H1 V1.initial eq_refl eq_refl)).
Defined.

(** C2, the claim as written: the key is said to include the alarm id,
    so that two distinct items due in the same minute are deduplicated
    independently and each can fire once in that minute.  In the code
    the key is date and minute only.  Two distinct events are both due
    at 08:00; each fires on a fresh tracker, but once the first has
    fired the second is suppressed by the shared key, even when it is
    the only item left in the list.  With both in the list, the tick at
    08:00:00 fires the first, and no tick of that minute, after any
    history, fires anything again.  The same holds in V1 after the
    first alarm has been dismissed. *)
Lemma dedupe_key_has_no_alarm_id :
  id standup <> id review
  /\ isCandidate utcHost wed0800 standup = true
  /\ isCandidate utcHost wed0800 review = true
  /\ snd (V2.tick utcHost [standup] wed0800 V2.initial) <> []
  /\ snd (V2.tick utcHost [review] wed0800 V2.initial) <> []
  /\ (let st1 := fst (V2.step utcHost (V2.Tick [standup] wed0800) V2.initial) in
      V2.tick utcHost [review] wed0800 st1 = (st1, []))
  /\ (let fired := V2.step utcHost (V2.Tick [standup; review] wed0800)
                           V2.initial in
      snd fired = [ChimeTone; Vibrate [400];
                   Notify "Zora Event: Standup" "Scheduled for 8:00:00 AM";
                   BannerTimeout 5000]
      /\ forall evs alarms' now',
           secondKey now' = secondKey wed0800 ->
           snd (V2.tick utcHost alarms' now' (fst (V2.run utcHost evs (fst fired))))
           = [])
  /\ snd (V1.tick utcHost [workout] wed0800 V1.initial) <> []
  /\ (let st1 := fst (V1.run utcHost [V1.Tick [wakeUp] wed0800; V1.Dismiss]
                             V1.initial) in
      V1.ringingAlarm st1 = None
      /\ V1.tick utcHost [workout] wed0800 st1 = (st1, [])).
Proof.
  split; [discriminate|].
  split; [by_eval|]. split; [by_eval|].
  split; [vm_compute; discriminate|]. split; [vm_compute; discriminate|].
  split; [by_eval|].
  split.
  { cbv zeta. split; [by_eval|]. intros evs alarms' now' E.
    rewrite (v2_consumed_forever utcHost evs _ (secondKey wed0800));
      [reflexivity | | exact E].
    apply v2_has_true. by_eval. }
  split; [vm_compute; discriminate|].
  split; by_eval.
Qed.

(** ** LifecycleStateMachine: the ringing slot *)

Section RingingSlot.

Variable h : Host.
Variable now : Now.

Lemma candidate_found (alarms : list Alarm) (a : Alarm) :
  In a alarms -> isCandidate h now a = true ->
  exists w, findTriggered h alarms now = Some w.
Proof.
  intros Hin Hc. destruct (findTriggered h alarms now) as [w|] eqn:Hf.
  - now exists w.
  - apply findTriggered_none in Hf. rewrite List.Forall_forall in Hf.
    specialize (Hf a Hin). congruence.
Qed.

(** V2, something already rings: the slot keeps its alarm. *)
Lemma v2_ringing_kept (alarms : list Alarm) (st : V2.State) (r : Alarm) :
  V2.ringingAlarm st = Some r ->
  V2.ringingAlarm (fst (V2.tick h alarms now st)) = Some r.
Proof.
  intros Hr. unfold V2.tick.
  destruct (findTriggered h alarms now) as [t|]; [|exact Hr].
  destruct (negb (V2.has st (secondKey now)) && (seconds now =? 0));
    [|exact Hr].
  destruct (isEvent t); [exact Hr|]. rewrite Hr. exact Hr.
Qed.

(** V2, something already rings and the candidate is of Alarm kind:
    nothing is started; only the minute key is recorded. *)
Lemma v2_ringing_blocks_alarm (alarms : list Alarm) (st : V2.State)
      (r t : Alarm) :
  V2.ringingAlarm st = Some r ->
  findTriggered h alarms now = Some t ->
  isEvent t = false ->
  snd (V2.tick h alarms now st) = []
  /\ V2.alarmAudio (fst (V2.tick h alarms now st)) = V2.alarmAudio st
  /\ V2.vibrationInterval (fst (V2.tick h alarms now st))
     = V2.vibrationInterval st
  /\ V2.currentAiSource (fst (V2.tick h alarms now st))
     = V2.currentAiSource st.
Proof.
  intros Hr Hf Hk. unfold V2.tick. rewrite Hf, Hk, Hr.
  destruct (negb (V2.has st (secondKey now)) && (seconds now =? 0));
    repeat split; reflexivity.
Qed.

(** V2, nothing rings: the first candidate, if of Alarm kind, takes
    the slot. *)
Lemma v2_idle_rings (alarms : list Alarm) (st : V2.State) (w : Alarm) :
  V2.ringingAlarm st = None ->
  V2.has st (secondKey now) = false ->
  seconds now = 0 ->
  findTriggered h alarms now = Some w ->
  isEvent w = false ->
  V2.ringingAlarm (fst (V2.tick h alarms now st)) = Some w.
Proof.
  intros Hr Hh Hs Hf Hk.
  rewrite (v2_tick_dispatch h alarms now st w Hf Hh Hs).
  unfold V2.dispatch. rewrite Hk, Hr.
  apply v2_startRinging_ringing.
Qed.

Lemma v1_idle_rings (alarms : list Alarm) (st : V1.State) (w : Alarm) :
  V1.ringingAlarm st = None ->
  V1.has st (secondKey now) = false ->
  seconds now = 0 ->
  findTriggered h alarms now = Some w ->
  V1.ringingAlarm (fst (V1.tick h alarms now st)) = Some w.
Proof.
  intros Hr Hh Hs Hf.
  rewrite (v1_tick_dispatch h alarms now st w Hf Hh Hs Hr).
  apply v1_dispatch_ringing.
Qed.

End RingingSlot.

(** C3, as the code has it.  At most one alarm rings at a time.  The
    slot holds one alarm or none.  While an alarm rings, a tick keeps
    it in the slot, and an Alarm-kind candidate starts nothing (no
    audio, no vibration, no narration request).  When two distinct
    Alarm-kind alarms are due in the same minute and nothing rings
    yet, the tick on the full minute is, in state and effects, the
    tick of the first due item of the list alone, so at most one of the
    two rings.  In the variant with events that first item rings if it
    is of Alarm kind, and the slot stays empty if it is an event; in
    the variant without events it rings.  When the first due item is
    one of the two alarms, exactly that one rings. *)
Theorem one_alarm_rings_at_a_time (h : Host) (now : Now) (alarms : list Alarm) :
  (forall (st : V2.State) r,
      V2.ringingAlarm st = Some r ->
      V2.ringingAlarm (fst (V2.tick h alarms now st)) = Some r
      /\ forall t, findTriggered h alarms now = Some t -> isEvent t = false ->
           snd (V2.tick h alarms now st) = []
           /\ V2.alarmAudio (fst (V2.tick h alarms now st)) = V2.alarmAudio st
           /\ V2.vibrationInterval (fst (V2.tick h alarms now st))
              = V2.vibrationInterval st)
  /\ (forall (st : V1.State) r,
        V1.ringingAlarm st = Some r -> V1.tick h alarms now st = (st, []))
  /\ (forall a1 a2,
        a1 <> a2 ->
        In a1 alarms -> In a2 alarms ->
        isCandidate h now a1 = true -> isCandidate h now a2 = true ->
        isEvent a1 = false -> isEvent a2 = false ->
        seconds now = 0 ->
        exists w,
          findTriggered h alarms now = Some w
          /\ ~ (w = a1 /\ w = a2)
          /\ (forall st : V2.State,
                 V2.ringingAlarm st = None ->
                 V2.has st (secondKey now) = false ->
                 V2.tick h alarms now st = V2.tick h [w] now st
                 /\ V2.ringingAlarm (fst (V2.tick h alarms now st))
                    = (if isEvent w then None else Some w)
                 /\ (w = a1 \/ w = a2 ->
                     V2.ringingAlarm (fst (V2.tick h alarms now st)) = Some w))
          /\ (forall st : V1.State,
                 V1.ringingAlarm st = None ->
                 V1.has st (secondKey now) = false ->
                 V1.tick h alarms now st = V1.tick h [w] now st
                 /\ V1.ringingAlarm (fst (V1.tick h alarms now st)) = Some w)).
Proof.
  split; [|split].
  - intros st r Hr. split.
    + now apply v2_ringing_kept.
    + intros t Hf Hk.
      destruct (v2_ringing_blocks_alarm h now alarms st r t Hr Hf Hk)
        as [E1 [E2 [E3 _]]].
      now repeat split.
  - intros st r Hr. now apply v1_tick_ringing with (r := r).
  - intros a1 a2 Hne Hin1 Hin2 Hc1 Hc2 Hk1 Hk2 Hzero.
    destruct (candidate_found h now alarms a1 Hin1 Hc1) as [w Hf].
    exists w. split; [exact Hf|]. split.
    { intros [E1 E2]. apply Hne. congruence. }
    split.
    + intros st Hr Hh.
      assert (R : V2.ringingAlarm (fst (V2.tick h alarms now st))
                  = (if isEvent w then None else Some w)).
      { destruct (isEvent w) eqn:Hk.
        - unfold V2.tick. rewrite Hf, Hh, Hzero, Hk. simpl. exact Hr.
        - now apply v2_idle_rings. }
      split; [now apply v2_tick_first_only|]. split; [exact R|].
      intros [-> | ->]; rewrite R; [now rewrite Hk1 | now rewrite Hk2].
    + intros st Hr Hh. split; [now apply v1_tick_first_only|].
      now apply v1_idle_rings.
Qed.

Lemma one_alarm_rings_at_a_time_witness :
  V2.ringingAlarm (fst (V2.tick utcHost [wakeUp; workout] wed0800 V2.initial))
  = Some wakeUp
  /\ V1.ringingAlarm (fst (V1.tick utcHost [wakeUp; workout] wed0800 V1.initial))
     = Some wakeUp.
Proof.
  destruct (one_alarm_rings_at_a_time utcHost wed0800 [wakeUp; workout])
    as [_ [_ H]].
  assert (Hne : wakeUp <> workout) by discriminate.
  destruct (H wakeUp workout Hne (or_introl eq_refl)
              (or_intror (or_introl eq_refl)) eq_refl eq_refl eq_refl eq_refl
              eq_refl)
    as [w [Hf [_ [H2 H1]]]].
  assert (Ew : Some w = Some wakeUp) by (rewrite <- Hf; reflexivity).
  injection Ew as ->.
  destruct (H2 V2.initial eq_refl eq_refl) as [_ [_ R2]].
  destruct (H1 V1.initial eq_refl eq_refl) as [_ R1].
  split; [apply R2; now left | exact R1].
Defined.

(** C3, the claim as written: of two distinct Alarm-kind alarms due at
    the same date and time exactly one is said to start ringing on
    that tick.  An event and two alarms are due at 08:00:00, the event
    first in the list, and nothing rings.  The tick chimes for the
    event and leaves the slot empty: neither alarm rings, on that tick
    or on any later tick of the minute. *)
Lemma event_first_leaves_both_alarms_silent :
  wakeUp <> workout
  /\ isEvent wakeUp = false /\ isEvent workout = false
  /\ isCandidate utcHost wed0800 wakeUp = true
  /\ isCandidate utcHost wed0800 workout = true
  /\ V2.ringingAlarm V2.initial = None
  /\ (let res := V2.step utcHost (V2.Tick [standup; wakeUp; workout] wed0800)
                         V2.initial in
      V2.ringingAlarm (fst res) = None
      /\ snd res = [ChimeTone; Vibrate [400];
                    Notify "Zora Event: Standup" "Scheduled for 8:00:00 AM";
                    BannerTimeout 5000]
      /\ V2.tick utcHost [standup; wakeUp; workout] wed0800 (fst res)
         = (fst res, [])
      /\ V2.tick utcHost [wakeUp; workout] wed0800 (fst res) = (fst res, [])).
Proof.
  split; [discriminate|]. split; [reflexivity|]. split; [reflexivity|].
  split; [by_eval|]. split; [by_eval|]. split; [reflexivity|]. cbv zeta.
  split; [by_eval|]. split; [by_eval|]. split; by_eval.
Qed.

(** ** Events and the ringing state *)

Section Events.

Variable h : Host.
Variable now : Now.

Lemma startRinging_chimeless (t : Alarm) (st : V2.State) :
  filter isChime (snd (V2.startRinging h t st)) = [].
Proof.
  unfold V2.startRinging, V2.startAlarmVibration.
  destruct (V2.alarmAudio st); destruct (canVibrate h); destruct (onLine h);
    reflexivity.
Qed.

(** What a tick chimes does not depend on what the ringing slot
    holds. *)
Lemma chime_ignores_ringing (alarms : list Alarm) (st : V2.State)
      (r : option Alarm) :
  filter isChime (snd (V2.tick h alarms now (V2.setRingingAlarm r st)))
  = filter isChime (snd (V2.tick h alarms now st))
  /\ V2.eventNotification (fst (V2.tick h alarms now (V2.setRingingAlarm r st)))
     = V2.eventNotification (fst (V2.tick h alarms now st)).
Proof.
  unfold V2.tick.
  change (V2.has (V2.setRingingAlarm r st) (secondKey now))
    with (V2.has st (secondKey now)).
  destruct (findTriggered h alarms now) as [t|]; [|split; reflexivity].
  destruct (negb (V2.has st (secondKey now)) && (seconds now =? 0));
    [|split; reflexivity].
  destruct (isEvent t); [split; reflexivity|].
  change (V2.ringingAlarm (V2.setRingingAlarm r st)) with r.
  destruct r as [x|]; destruct (V2.ringingAlarm st) as [y|];
    rewrite ?startRinging_chimeless; split; try reflexivity;
    unfold V2.startRinging, V2.startAlarmVibration; simpl;
    destruct (V2.alarmAudio st); destruct (canVibrate h); reflexivity.
Qed.

(** What a tick does to the ringing slot, and all it emits, does not
    depend on a banner being on display. *)
Lemma ringing_ignores_banner (alarms : list Alarm) (st : V2.State)
      (banner : option (string * string)) :
  V2.ringingAlarm (fst (V2.tick h alarms now (V2.setEventNotification banner st)))
  = V2.ringingAlarm (fst (V2.tick h alarms now st))
  /\ snd (V2.tick h alarms now (V2.setEventNotification banner st))
     = snd (V2.tick h alarms now st).
Proof.
  unfold V2.tick.
  change (V2.has (V2.setEventNotification banner st) (secondKey now))
    with (V2.has st (secondKey now)).
  destruct (findTriggered h alarms now) as [t|]; [|split; reflexivity].
  destruct (negb (V2.has st (secondKey now)) && (seconds now =? 0));
    [|split; reflexivity].
  destruct (isEvent t); [split; reflexivity|].
  change (V2.ringingAlarm (V2.setEventNotification banner st))
    with (V2.ringingAlarm st).
  destruct (V2.ringingAlarm st) as [y|]; [split; reflexivity|].
  unfold V2.startRinging, V2.startAlarmVibration; simpl.
  destruct (V2.alarmAudio st); destruct (canVibrate h); split; reflexivity.
Qed.

End Events.

(** C6.  An Event-kind occurrence is neither blocked by the ringing
    state nor does it touch it.  Whenever the candidate of a tick on the
    full minute is an event and the minute key is fresh, the tick plays
    the chime whatever the ringing slot holds: the tone and the banner
    always, the vibration burst when the host vibrates, the notification
    when it is permitted.  The slot, the looped alarm audio, the
    vibration pattern and the narration source are left as they were,
    and so they are when the banner expires.  In general, what a tick
    chimes is the same for every content of the ringing slot, and what
    it does to the ringing slot is the same for every banner on
    display. *)
Theorem event_chimes_whatever_rings
  (h : Host) (alarms : list Alarm) (now : Now) (st : V2.State) :
  (forall e,
      findTriggered h alarms now = Some e ->
      isEvent e = true ->
      V2.has st (secondKey now) = false ->
      seconds now = 0 ->
      let res := V2.tick h alarms now st in
      res = V2.playEventChime h now (label e)
              (V2.consume (secondKey now) st)
      /\ In ChimeTone (snd res)
      /\ In (BannerTimeout 5000) (snd res)
      /\ (canVibrate h = true -> In (Vibrate [400]) (snd res))
      /\ (notificationGranted h = true ->
          In (Notify ("Zora Event: " +:+ label e)
                     ("Scheduled for " +:+ localeTime now)) (snd res))
      /\ V2.eventNotification (fst res) = Some (label e, localeTime now)
      /\ V2.ringingAlarm (fst res) = V2.ringingAlarm st
      /\ V2.alarmAudio (fst res) = V2.alarmAudio st
      /\ V2.vibrationInterval (fst res) = V2.vibrationInterval st
      /\ V2.currentAiSource (fst res) = V2.currentAiSource st
      /\ V2.ringingAlarm (fst (V2.step h V2.BannerExpires (fst res)))
         = V2.ringingAlarm st)
  /\ (forall r,
        filter isChime (snd (V2.tick h alarms now (V2.setRingingAlarm r st)))
        = filter isChime (snd (V2.tick h alarms now st))
        /\ V2.eventNotification
             (fst (V2.tick h alarms now (V2.setRingingAlarm r st)))
           = V2.eventNotification (fst (V2.tick h alarms now st)))
  /\ (forall banner,
        V2.ringingAlarm
          (fst (V2.tick h alarms now (V2.setEventNotification banner st)))
        = V2.ringingAlarm (fst (V2.tick h alarms now st))
        /\ snd (V2.tick h alarms now (V2.setEventNotification banner st))
           = snd (V2.tick h alarms now st)).
Proof.
  split; [|split].
  - intros e Hfound Hevent Hfresh Hzero res. unfold res.
    rewrite (v2_tick_dispatch h alarms now st e Hfound Hfresh Hzero).
    unfold V2.dispatch. rewrite Hevent.
    unfold V2.playEventChime. simpl.
    split; [reflexivity|].
    split; [now left|].
    split; [apply in_cons, in_or_app; right; apply in_or_app; right; now left|].
    split; [intros Hv; rewrite Hv; right; now left|].
    split; [intros Hn; rewrite Hn; right; apply in_or_app; right; now left|].
    repeat split.
  - intros r. apply chime_ignores_ringing.
  - intros banner. apply ringing_ignores_banner.
Qed.

Lemma event_chimes_whatever_rings_witness :
  V2.ringingAlarm ringingSince0800 = Some wakeUp
  /\ In ChimeTone (snd (V2.tick utcHost [wakeUp; dailyCall] wed0805 ringingSince0800))
  /\ V2.ringingAlarm (fst (V2.tick utcHost [wakeUp; dailyCall] wed0805 ringingSince0800))
     = Some wakeUp.
Proof.
  pose proof (proj1 (event_chimes_whatever_rings utcHost [wakeUp; dailyCall]
                       wed0805 ringingSince0800)
                     dailyCall eq_refl eq_refl eq_refl eq_refl) as H.
  cbv zeta in H.
  destruct H as [_ [Hc [_ [_ [_ [_ [Hr _]]]]]]].
  split; [reflexivity|]. split; [exact Hc|].
  rewrite Hr. reflexivity.
Defined.

(** ** OccurrenceClock *)

Section Clock.

Variable h : Host.
Variable now : Now.


Lemma v1_tick_emitted (alarms : list Alarm) (st : V1.State) :
  V1.tick h alarms now st =
  match emitted h alarms now with
  | Some a => if V1.has st (secondKey now) then (st, [])
              else match V1.ringingAlarm st with
                   | Some _ => (st, [])
                   | None => V1.dispatch h now a st
                   end
  | None => (st, [])
  end.
Proof.
  unfold emitted. destruct (Z.eq_dec (seconds now) 0) as [Hs|Hs].
  - rewrite Hs. simpl.
    destruct (findTriggered h alarms now) as [t|] eqn:Hf.
    + destruct (V1.has st (secondKey now)) eqn:Hh.
      * now apply v1_tick_consumed.
      * destruct (V1.ringingAlarm st) as [r|] eqn:Hr.
        -- now apply v1_tick_ringing with (r := r).
        -- now apply v1_tick_dispatch.
    + now apply v1_tick_no_candidate.
  - rewrite (v1_tick_off_minute h alarms now st Hs).
    apply Z.eqb_neq in Hs. now rewrite Hs.
Qed.


Lemma startRinging_no_chime t (st : V2.State) :
  ~ In ChimeTone (snd (V2.startRinging h t st)).
Proof.
  unfold V2.startRinging, V2.startAlarmVibration.
  destruct (V2.alarmAudio st); destruct (canVibrate h); destruct (onLine h);
    simpl; intuition discriminate.
Qed.

Lemma startRinging_greets_only t other (st : V2.State) :
  other <> t -> ~ In (RequestGreeting other) (snd (V2.startRinging h t st)).
Proof.
  intros Hne. unfold V2.startRinging, V2.startAlarmVibration.
  destruct (V2.alarmAudio st); destruct (canVibrate h); destruct (onLine h);
    simpl; intuition (try discriminate; congruence).
Qed.

Lemma playEventChime_no_greeting lbl other (st : V2.State) :
  ~ In (RequestGreeting other) (snd (V2.playEventChime h now lbl st)).
Proof.
  unfold V2.playEventChime.
  destruct (canVibrate h); destruct (notificationGranted h);
    simpl; intuition discriminate.
Qed.

End Clock.





(** C9, as the code has it.  Within a tick the candidate search, which
    reads no state and has no effect, comes first, and the tick then
    dispatches its single result: it is the tick of the first match
    alone.  On the full minute, with the minute's key not yet
    consumed, that first match fires: an event chimes and shows its
    banner; an alarm, when nothing rings, takes the ringing slot and
    starts the looped audio.  No other item of the list gets a
    narration request; when the first match is of Alarm kind the tick
    plays no chime, and when it is an event the tick leaves the
    ringing slot as it was. *)
Theorem tick_dispatches_first_match_only
  (h : Host) (alarms : list Alarm) (now : Now) :
  (forall st : V2.State,
      V2.tick h alarms now st =
      match findTriggered h alarms now with
      | Some w => V2.tick h [w] now st
      | None => (st, [])
      end)
  /\ (forall st : V1.State,
         V1.tick h alarms now st =
         match findTriggered h alarms now with
         | Some w => V1.tick h [w] now st
         | None => (st, [])
         end)
  /\ (forall w (st : V2.State),
         findTriggered h alarms now = Some w ->
         V2.has st (secondKey now) = false ->
         seconds now = 0 ->
         (isEvent w = true ->
          In ChimeTone (snd (V2.tick h alarms now st))
          /\ In (BannerTimeout 5000) (snd (V2.tick h alarms now st))
          /\ V2.eventNotification (fst (V2.tick h alarms now st))
             = Some (label w, localeTime now))
         /\ (isEvent w = false ->
             V2.ringingAlarm st = None ->
             V2.ringingAlarm (fst (V2.tick h alarms now st)) = Some w
             /\ forall au,
                  V2.alarmAudio st = Some au ->
                  In (AlarmPlay (Sound.url (resolveSound h (soundId w))))
                     (snd (V2.tick h alarms now st))
                  /\ playbackOf (V2.alarmAudio (fst (V2.tick h alarms now st)))
                     = Some (Sound.url (resolveSound h (soundId w)), true,
                             false)))
  /\ (forall w (st : V1.State),
         findTriggered h alarms now = Some w ->
         V1.has st (secondKey now) = false ->
         seconds now = 0 ->
         V1.ringingAlarm st = None ->
         V1.ringingAlarm (fst (V1.tick h alarms now st)) = Some w
         /\ forall au,
              V1.alarmAudio st = Some au ->
              In (AlarmPlay (Sound.url (resolveSound h (soundId w))))
                 (snd (V1.tick h alarms now st))
              /\ playbackOf (V1.alarmAudio (fst (V1.tick h alarms now st)))
                 = Some (Sound.url (resolveSound h (soundId w)), true, false))
  /\ (forall w other (st : V2.State),
         findTriggered h alarms now = Some w ->
         other <> w ->
         ~ In (RequestGreeting other) (snd (V2.tick h alarms now st))
         /\ (isEvent w = false -> ~ In ChimeTone (snd (V2.tick h alarms now st)))
         /\ (isEvent w = true ->
             V2.ringingAlarm (fst (V2.tick h alarms now st))
             = V2.ringingAlarm st)).
Proof.
  split; [|split; [|split; [|split]]].
  - intros st. destruct (findTriggered h alarms now) as [w|] eqn:Hf.
    + now apply v2_tick_first_only.
    + now apply v2_tick_no_candidate.
  - intros st. destruct (findTriggered h alarms now) as [w|] eqn:Hf.
    + now apply v1_tick_first_only.
    + now apply v1_tick_no_candidate.
  - intros w st Hf Hh Hs.
    rewrite (v2_tick_dispatch h alarms now st w Hf Hh Hs).
    unfold V2.dispatch. split.
    + intros Hk. rewrite Hk. unfold V2.playEventChime.
      cbn [fst snd]. split; [now left|]. split; [|reflexivity].
      apply in_or_app. right. apply in_or_app. right.
      apply in_or_app. right. now left.
    + intros Hk Hr. rewrite Hk, Hr. split; [apply v2_startRinging_ringing|].
      intros au Ha. unfold V2.startRinging, V2.startAlarmVibration, V2.consume.
      cbn [V2.alarmAudio V2.setTriggeredItems]. rewrite Ha.
      destruct (canVibrate h); cbn; split; try reflexivity; now left.
  - intros w st Hf Hh Hs Hr.
    rewrite (v1_tick_dispatch h alarms now st w Hf Hh Hs Hr).
    split; [apply v1_dispatch_ringing|].
    intros au Ha. unfold V1.dispatch.
    cbn [V1.alarmAudio V1.setTriggeredAlarms]. rewrite Ha.
    cbn. split; [right; now left | reflexivity].
  - intros w other st Hf Hne. unfold V2.tick. rewrite Hf.
    destruct (negb (V2.has st (secondKey now)) && (seconds now =? 0)).
    + destruct (isEvent w) eqn:Hk.
      * split; [apply playEventChime_no_greeting|].
        split; [discriminate | reflexivity].
      * destruct (V2.ringingAlarm st) as [r|] eqn:Hr.
        -- simpl. split; [tauto|]. split; [tauto | discriminate].
        -- split; [now apply startRinging_greets_only|].
           split; [intros _; apply startRinging_no_chime | discriminate].
    + simpl. split; [tauto|]. split; [tauto | reflexivity].
Qed.

Lemma tick_dispatches_first_match_only_witness :
  V2.ringingAlarm
    (fst (V2.tick utcHost [wakeUp; workout; standup] wed0800 V2.initial))
  = Some wakeUp
  /\ ~ In (RequestGreeting workout)
          (snd (V2.tick utcHost [wakeUp; workout; standup] wed0800 V2.initial))
  /\ ~ In ChimeTone
          (snd (V2.tick utcHost [wakeUp; workout; standup] wed0800 V2.initial)).
Proof.
  destruct (tick_dispatches_first_match_only utcHost
              [wakeUp; workout; standup] wed0800) as [_ [_ [P [_ H]]]].
  assert (Hne : workout <> wakeUp) by discriminate.
  destruct (H wakeUp workout V2.initial eq_refl Hne) as [Hg [Hc _]].
  destruct (P wakeUp V2.initial eq_refl eq_refl eq_refl) as [_ R].
  destruct (R eq_refl eq_refl) as [Rr _].
  split; [exact Rr|]. split; [exact Hg | exact (Hc eq_refl)].
Defined.

(** C9, the claim as written: every matching item is said to take part
    in the tick, so that one alarm wins the ringing slot while a
    matching event still chimes on that tick.  An alarm and an event are
    both due at 08:00:00.  With the alarm first in the list the alarm
    rings and the event plays no chime, on that tick or on any later
    tick of the minute; with the event first the event chimes and the
    alarm does not ring. *)
Lemma matching_event_does_not_chime_beside_alarm :
  isCandidate utcHost wed0800 wakeUp = true
  /\ isCandidate utcHost wed0800 standup = true
  /\ (let res := V2.step utcHost (V2.Tick [wakeUp; standup] wed0800) V2.initial in
      V2.ringingAlarm (fst res) = Some wakeUp
      /\ ~ In ChimeTone (snd res)
      /\ V2.eventNotification (fst res) = None
      /\ V2.tick utcHost [wakeUp; standup] wed0800 (fst res) = (fst res, [])
      /\ V2.tick utcHost [standup] wed0800 (fst res) = (fst res, []))
  /\ (let res := V2.step utcHost (V2.Tick [standup; wakeUp] wed0800) V2.initial in
      In ChimeTone (snd res)
      /\ V2.ringingAlarm (fst res) = None
      /\ V2.tick utcHost [standup; wakeUp] wed0800 (fst res) = (fst res, [])
      /\ V2.tick utcHost [wakeUp] wed0800 (fst res) = (fst res, [])).
Proof.
  split; [by_eval|]. split; [by_eval|]. split; cbv zeta.
  - split; [by_eval|].
    split; [vm_compute; intuition discriminate|].
    split; [by_eval|]. split; by_eval.
  - split; [vm_compute; now left|].
    split; [by_eval|]. split; by_eval.
Qed.

(** ** SideEffectOrchestrator: narration results *)

Section Narration.

(** V2 discards a synthesized result when the ringing reference is
    empty or holds another alarm. *)
Lemma v2_stale_result_discarded (a : Alarm) (audio : string) (decodes : bool)
      (st : V2.State) :
  match V2.ringingAlarmRef st with
  | None => True
  | Some r => id r <> id a
  end ->
  V2.playAiGreeting a (Speech audio decodes) st = (st, []).
Proof.
  intros H. unfold V2.playAiGreeting.
  destruct (V2.ringingAlarmRef st) as [r|]; [|reflexivity].
  unfold str_eqb. apply String.eqb_neq in H. now rewrite H.
Qed.

(** V2: dismissal empties the reference, so a result that arrives
    next is dropped, whatever it is, and nothing is played. *)
Lemma v2_result_after_dismiss_discarded (h : Host) (a : Alarm)
      (audio : string) (decodes : bool) (st : V2.State) :
  let st' := fst (V2.step h V2.Dismiss st) in
  V2.ringingAlarmRef st' = None
  /\ V2.playAiGreeting a (Speech audio decodes) st' = (st', []).
Proof.
  intros st'.
  assert (Href : V2.ringingAlarmRef st' = None).
  { unfold st'. rewrite v2_step_ref_synced. unfold V2.step.
    pose proof (v2_handleDismissAlarm_ringing h st) as H.
    destruct (V2.handleDismissAlarm h st) as [s es]. exact H. }
  split; [exact Href|].
  apply v2_stale_result_discarded. now rewrite Href.
Qed.

(** V1 has no such test: a decodable result is always played. *)
Lemma v1_result_always_played (a : Alarm) (audio : string) (st : V1.State) :
  In (NarrationStart audio)
     (snd (V1.playImmediateAiGreeting a (Speech audio true) st))
  /\ V1.currentAiSource (fst (V1.playImmediateAiGreeting a (Speech audio true) st))
     = Some audio.
Proof.
  unfold V1.playImmediateAiGreeting, V1.setVolume. simpl. split.
  - apply in_or_app. right. now left.
  - destruct (V1.alarmAudio st); reflexivity.
Qed.

End Narration.

(** C4.  A narration result that arrives after dismissal is to be
    discarded without playback.  V2 does so ([v2_result_after_dismiss_
    discarded]); V1 does not: the alarm rings and requests a narration,
    the user dismisses it, the synthesized audio arrives, and it is
    played although nothing rings any more. *)
Theorem v1_narration_plays_after_dismiss :
  let ringing := V1.step utcHost (V1.Tick [wakeUp] wed0800) V1.initial in
  let dismissed := V1.step utcHost V1.Dismiss (fst ringing) in
  let arrived :=
    V1.step utcHost (V1.GreetingResult wakeUp (Speech "pcm" true))
            (fst dismissed) in
  In (RequestGreeting wakeUp) (snd ringing)
  /\ V1.ringingAlarm (fst ringing) = Some wakeUp
  /\ V1.ringingAlarm (fst dismissed) = None
  /\ V1.currentAiSource (fst dismissed) = None
  /\ snd arrived = [NarrationStart "pcm"]
  /\ V1.currentAiSource (fst arrived) = Some "pcm"
  /\ V1.ringingAlarm (fst arrived) = None.
Proof.
  cbv zeta.
  split; [vm_compute; right; right; now left|].
  split; [by_eval|]. split; [by_eval|]. split; [by_eval|].
  split; [by_eval|]. split; by_eval.
Qed.

(** The same history in V2 ends without playback. *)
Lemma v2_narration_dropped_after_dismiss :
  let ringing := V2.step utcHost (V2.Tick [wakeUp] wed0800) V2.initial in
  let dismissed := V2.step utcHost V2.Dismiss (fst ringing) in
  let arrived :=
    V2.step utcHost (V2.GreetingResult wakeUp (Speech "pcm" true))
            (fst dismissed) in
  In (RequestGreeting wakeUp) (snd ringing)
  /\ V2.ringingAlarm (fst ringing) = Some wakeUp
  /\ V2.ringingAlarm (fst dismissed) = None
  /\ snd arrived = []
  /\ V2.currentAiSource (fst arrived) = None.
Proof.
  cbv zeta.
  split; [vm_compute; right; right; now left|].
  split; [by_eval|]. split; [by_eval|]. split; by_eval.
Qed.

(** ** Narration failure *)

(** C5, as the code has it.  A narration that ends in anything but
    playable audio never reaches the state machine: the ringing slot,
    the dedupe set, the narration source, the vibration, the banner and
    the playback of the looped alarm audio (source, looping, playing)
    are as before.  A failed text or speech request is caught in the
    handler and logged, by exactly one log line.  A speech answer
    without audio raises no error: nothing is logged.  Audio that does
    not decode is caught and logged; in V2 it is decoded only while its
    alarm still rings, and is dropped without a log line otherwise.
    In V2 the volume of the looped audio is untouched.  In V1 the
    handler sets it to 0.8 whenever it logs a failure. *)
Theorem narration_failure_is_contained
  (a : Alarm) (res : Narration) (Hfail : isPlayable res = false) :
  (forall st : V2.State,
      let r := V2.playAiGreeting a res st in
      snd r = match res with
              | GreetingFailed | SpeechFailed => [ConsoleError "Greeting Error:"]
              | SpeechEmpty => []
              | Speech _ _ => if stillRinging st a
                              then [ConsoleError "Greeting Error:"] else []
              end
      /\ V2.ringingAlarm (fst r) = V2.ringingAlarm st
      /\ V2.ringingAlarmRef (fst r) = V2.ringingAlarmRef st
      /\ V2.triggeredItems (fst r) = V2.triggeredItems st
      /\ V2.currentAiSource (fst r) = V2.currentAiSource st
      /\ V2.vibrationInterval (fst r) = V2.vibrationInterval st
      /\ V2.eventNotification (fst r) = V2.eventNotification st
      /\ V2.alarmAudio (fst r) = V2.alarmAudio st)
  /\ (forall st : V1.State,
         let r := V1.playImmediateAiGreeting a res st in
         snd r = (if isFailure res
                  then [ConsoleError "Immediate AI Greeting failed"] else [])
         /\ V1.ringingAlarm (fst r) = V1.ringingAlarm st
         /\ V1.triggeredAlarms (fst r) = V1.triggeredAlarms st
         /\ V1.currentAiSource (fst r) = V1.currentAiSource st
         /\ V1.rampInterval (fst r) = V1.rampInterval st
         /\ playbackOf (V1.alarmAudio (fst r)) = playbackOf (V1.alarmAudio st)
         /\ volumeOf (V1.alarmAudio (fst r))
            = (if isFailure res
               then match V1.alarmAudio st with
                    | Some _ => Some 0.8%float
                    | None => None
                    end
               else volumeOf (V1.alarmAudio st))).
Proof.
  split.
  - intros st r. unfold r, V2.playAiGreeting, stillRinging.
    destruct res as [| | |audio decodes];
      try (repeat split; reflexivity).
    simpl in Hfail. subst decodes.
    destruct (V2.ringingAlarmRef st) as [x|] eqn:E;
      [|simpl; rewrite ?E; repeat split; reflexivity].
    destruct (str_eqb (id x) (id a)); simpl; rewrite ?E;
      repeat split; reflexivity.
  - intros st r. unfold r, V1.playImmediateAiGreeting, V1.greetingFailed, V1.setVolume.
    destruct res as [| | |audio decodes].
    + simpl. destruct (V1.alarmAudio st) eqn:E; simpl; rewrite ?E;
        repeat split; reflexivity.
    + simpl. destruct (V1.alarmAudio st) eqn:E; simpl; rewrite ?E;
        repeat split; reflexivity.
    + simpl. repeat split; reflexivity.
    + simpl in Hfail. subst decodes. simpl.
      destruct (V1.alarmAudio st) eqn:E; simpl; rewrite ?E;
        repeat split; reflexivity.
Qed.

Lemma narration_failure_is_contained_witness :
  snd (V1.playImmediateAiGreeting wakeUp SpeechFailed fullyRamped)
  = [ConsoleError "Immediate AI Greeting failed"]
  /\ V1.ringingAlarm (fst (V1.playImmediateAiGreeting wakeUp SpeechFailed fullyRamped))
     = V1.ringingAlarm fullyRamped
  /\ snd (V2.playAiGreeting wakeUp SpeechFailed ringingSince0800)
     = [ConsoleError "Greeting Error:"]
  /\ V2.alarmAudio (fst (V2.playAiGreeting wakeUp SpeechFailed ringingSince0800))
     = V2.alarmAudio ringingSince0800.
Proof.
  destruct (narration_failure_is_contained wakeUp SpeechFailed eq_refl)
    as [H2 H1].
  destruct (H1 fullyRamped) as [He [Hr _]].
  destruct (H2 ringingSince0800) as [Hl [_ [_ [_ [_ [_ [_ Ha]]]]]]].
  split; [exact He|]. split; [exact Hr|]. split; [exact Hl | exact Ha].
Defined.

(** C5, the claim as written: after a narration failure at any stage
    the failure is said to be logged and the looped alarm audio to be
    left at its current ramped volume.  In V1 the alarm has ramped up
    to full volume when the speech request fails, and the handler turns
    it down to 0.8; had the failure come right after the start, it
    would have turned 0.05 up to 0.8.  And in both variants a speech
    answer that carries no audio, a malformed response, leaves no log
    line at all. *)
Lemma failure_resets_volume_or_goes_unlogged :
  V1.ringingAlarm fullyRamped = Some wakeUp
  /\ volumeOf (V1.alarmAudio fullyRamped) = Some 1%float
  /\ volumeOf (V1.alarmAudio
                 (fst (V1.step utcHost (V1.GreetingResult wakeUp SpeechFailed)
                               fullyRamped)))
     = Some 0.8%float
  /\ PrimFloat.ltb 0.8 1 = true
  /\ (let started := fst (V1.step utcHost (V1.Tick [wakeUp] wed0800) V1.initial) in
      volumeOf (V1.alarmAudio started) = Some 0.05%float
      /\ volumeOf (V1.alarmAudio
                     (fst (V1.step utcHost
                                   (V1.GreetingResult wakeUp GreetingFailed)
                                   started)))
         = Some 0.8%float
      /\ PrimFloat.ltb 0.05 0.8 = true)
  /\ V2.ringingAlarm ringingSince0800 = Some wakeUp
  /\ snd (V2.step utcHost (V2.GreetingResult wakeUp SpeechEmpty)
                  ringingSince0800) = []
  /\ snd (V1.step utcHost (V1.GreetingResult wakeUp SpeechEmpty) fullyRamped)
     = [].
Proof.
  split; [by_eval|]. split; [by_eval|]. split; [by_eval|].
  split; [by_eval|]. split.
  - cbv zeta. split; [by_eval|]. split; by_eval.
  - split; [by_eval|]. split; by_eval.
Qed.

(** ** The volume ramp *)

Section Ramp.

Lemma rampStep_ceiling : V1.rampStep 1 = 1%float.
Proof. reflexivity. Qed.

Lemma iter_fixed (f : float -> float) (x : float) (n : nat) :
  f x = x -> Nat.iter n f x = x.
Proof.
  intros H. induction n as [|n IH]; [reflexivity|].
  simpl. now rewrite IH.
Qed.

Lemma rampFrom_add (v0 : float) (n k : nat) :
  rampFrom v0 (k + n) = Nat.iter k V1.rampStep (rampFrom v0 n).
Proof. unfold rampFrom. apply Nat.iter_add. Qed.

Lemma rampStart_assigned (h : Host) : In (V1.rampStart h) assignedVolumes.
Proof.
  unfold V1.rampStart, assignedVolumes.
  destruct (onLine h); [now left | right; now left].
Qed.

(** After twelve intervals the ceiling is reached from every
    assigned value, and it is kept. *)
Lemma rampFrom_ceiling (v0 : float) (n : nat) :
  In v0 assignedVolumes -> (12 <= n)%nat -> rampFrom v0 n = 1%float.
Proof.
  intros Hv Hn. replace n with ((n - 12) + 12)%nat by lia.
  rewrite rampFrom_add.
  assert (E : rampFrom v0 12 = 1%float).
  { unfold rampFrom.
    destruct Hv as [<-|[<-|[<-|[<-|[<-|[]]]]]]; by_eval. }
  rewrite E. apply iter_fixed, rampStep_ceiling.
Qed.

(** Before that, each sample is at most the next one and at most
    1. *)
Lemma rampFrom_early (v0 : float) (n : nat) :
  In v0 assignedVolumes -> (n < 12)%nat ->
  PrimFloat.leb (rampFrom v0 n) (rampFrom v0 (S n)) = true
  /\ PrimFloat.leb (rampFrom v0 n) 1 = true.
Proof.
  intros Hv Hn. unfold rampFrom.
  destruct Hv as [<-|[<-|[<-|[<-|[<-|[]]]]]];
    do 12 (destruct n as [|n]; [split; by_eval|]); lia.
Qed.

(** The restriction to assigned values matters in doubles: at the
    smallest positive double, which the code never assigns, the product
    with 1.3 rounds back to the same value and the ramp would not
    move. *)
Remark rampStep_stalls_at_smallest_double :
  PrimFloat.ltb 0 0x1p-1074 = true
  /\ V1.rampStep 0x1p-1074 = 0x1p-1074%float
  /\ ~ In 0x1p-1074%float assignedVolumes.
Proof.
  split; [reflexivity|]. split; [reflexivity|].
  intros H.
  assert (E : forall v, In v assignedVolumes -> PrimFloat.ltb 0.01 v = true).
  { intros v [<-|[<-|[<-|[<-|[<-|[]]]]]]; reflexivity. }
  specialize (E _ H). vm_compute in E. discriminate.
Qed.

(** The ramp interval on the state is [rampStep] on the volume. *)
Lemma rampTick_volume (st : V1.State) (au : AudioEl) :
  V1.rampInterval st = true ->
  V1.alarmAudio st = Some au ->
  volumeOf (V1.alarmAudio (V1.rampTick st)) = Some (V1.rampStep (volume au))
  /\ playbackOf (V1.alarmAudio (V1.rampTick st)) = playbackOf (V1.alarmAudio st)
  /\ V1.ringingAlarm (V1.rampTick st) = V1.ringingAlarm st.
Proof.
  intros Hi Ha. unfold V1.rampTick, V1.setVolume. rewrite Hi, Ha. simpl.
  repeat split; rewrite ?Ha; reflexivity.
Qed.

(** The ramp effect starts from [rampStart]. *)
Lemma rampEffect_volume (h : Host) (st : V1.State) (r : Alarm) (au : AudioEl) :
  V1.ringingAlarm st = Some r ->
  V1.alarmAudio st = Some au ->
  volumeOf (V1.alarmAudio (V1.rampEffect h st)) = Some (V1.rampStart h)
  /\ V1.rampInterval (V1.rampEffect h st) = true.
Proof.
  intros Hr Ha. unfold V1.rampEffect, V1.setVolume. simpl.
  rewrite Hr, Ha. split; reflexivity.
Qed.

End Ramp.

(** C7.  The volume ramp.  The start value is 0.05 when the network is
    reachable and 0.2 when it is not; every interval multiplies the
    volume by 1.3 and caps it at 1.  In the doubles the code computes
    with, and from every value the code assigns to the volume (the two
    start values among them), the sampled volumes never decrease, never
    exceed 1, and are exactly 1 from the twelfth interval on. *)
Theorem volume_ramp_monotone_bounded (v0 : float) (n : nat)
  (Hstart : In v0 assignedVolumes) :
  PrimFloat.leb (rampFrom v0 n) (rampFrom v0 (S n)) = true
  /\ PrimFloat.leb (rampFrom v0 n) 1 = true
  /\ ((12 <= n)%nat -> rampFrom v0 n = 1%float)
  /\ rampFrom v0 (S n) = V1.rampStep (rampFrom v0 n)
  /\ (forall h : Host,
        In (V1.rampStart h) assignedVolumes
        /\ rampVolume h n = rampFrom (V1.rampStart h) n
        /\ V1.rampStart h = (if onLine h then 0.05 else 0.2)%float)
  /\ PrimFloat.ltb 0.05 0.2 = true
  /\ PrimFloat.ltb 1 1.3 = true.
Proof.
  split; [|split; [|split; [|split; [|split; [|split]]]]].
  - destruct (le_lt_dec 12 n) as [Hn|Hn].
    + rewrite (rampFrom_ceiling v0 n Hstart Hn).
      rewrite (rampFrom_ceiling v0 (S n) Hstart) by lia. reflexivity.
    + apply (rampFrom_early v0 n Hstart Hn).
  - destruct (le_lt_dec 12 n) as [Hn|Hn].
    + rewrite (rampFrom_ceiling v0 n Hstart Hn). reflexivity.
    + apply (rampFrom_early v0 n Hstart Hn).
  - now apply rampFrom_ceiling.
  - reflexivity.
  - intros h. split; [apply rampStart_assigned|]. split; reflexivity.
  - reflexivity.
  - reflexivity.
Qed.

Lemma volume_ramp_monotone_bounded_witness :
  rampVolume utcHost 15 = 1%float
  /\ PrimFloat.leb (rampVolume utcHost 3) (rampVolume utcHost 4) = true.
Proof.
  pose proof (volume_ramp_monotone_bounded (V1.rampStart utcHost) 15
                (or_introl eq_refl)) as [_ [_ [H15 _]]].
  pose proof (volume_ramp_monotone_bounded (V1.rampStart utcHost) 3
                (or_introl eq_refl)) as [H3 _].
  split; [apply H15; lia | exact H3].
Defined.

(** ** The editor modal *)

(** C10.  A record saved by the editor never carries both specific
    dates and a date range.  With the range in use (or, in the modal
    with item kinds, for an event) the specific dates are undefined and
    the range is set; otherwise the range is undefined and the specific
    dates are set.  The repeat days are saved beside either whenever
    some are chosen.  Attaching the id changes none of this. *)
Theorem saved_record_has_one_date_rule :
  (forall f : ModalV1.Form,
      let d := ModalV1.handleSave f in
      (Draft.specificDates d = None \/ Draft.dateRange d = None)
      /\ (ModalV1.useRange f = true ->
          Draft.specificDates d = None
          /\ Draft.dateRange d
             = Some {| from := ModalV1.rangeFrom f; to := ModalV1.rangeTo f |})
      /\ (ModalV1.useRange f = false ->
          Draft.dateRange d = None
          /\ Draft.specificDates d = Some (ModalV1.specificDates f))
      /\ Draft.repeatDays d = nonEmptyDays (ModalV1.repeatDays f))
  /\ (forall f : ModalV2.Form,
         let d := ModalV2.handleSave f in
         (Draft.specificDates d = None \/ Draft.dateRange d = None)
         /\ (ModalV2.type f = event \/ ModalV2.useRange f = true ->
             Draft.specificDates d = None /\ Draft.dateRange d <> None)
         /\ (ModalV2.type f = alarm /\ ModalV2.useRange f = false ->
             Draft.dateRange d = None
             /\ Draft.specificDates d = Some (ModalV2.specificDates f))
         /\ Draft.repeatDays d = nonEmptyDays (ModalV2.repeatDays f))
  /\ (forall i d,
         specificDates (withId i d) = Draft.specificDates d
         /\ dateRange (withId i d) = Draft.dateRange d
         /\ repeatDays (withId i d) = Draft.repeatDays d)
  /\ (Draft.repeatDays (ModalV2.handleSave weekdayForm) = Some [1; 2; 3; 4; 5]
      /\ Draft.specificDates (ModalV2.handleSave weekdayForm)
         = Some ["2024-03-06"])
  /\ (Draft.repeatDays (ModalV2.handleSave eventForm) = Some [3]
      /\ Draft.dateRange (ModalV2.handleSave eventForm)
         = Some {| from := "2024-03-06"; to := "2024-03-06" |}).
Proof.
  split; [|split; [|split; [|split]]].
  - intros f d. unfold d, ModalV1.handleSave. simpl.
    destruct (ModalV1.useRange f); simpl.
    + split; [now left|]. split; [intros _; split; reflexivity|].
      split; [discriminate | reflexivity].
    + split; [now right|]. split; [discriminate|].
      split; [intros _; split; reflexivity | reflexivity].
  - intros f d. unfold d, ModalV2.handleSave, ModalV2.finalUseRange. simpl.
    destruct (ModalV2.type f); destruct (ModalV2.useRange f); simpl.
    + split; [now left|]. split; [intros _; split; [reflexivity|discriminate]|].
      split; [intros [_ H]; discriminate | reflexivity].
    + split; [now right|]. split; [intros [H|H]; discriminate|].
      split; [intros _; split; reflexivity | reflexivity].
    + split; [now left|]. split; [intros _; split; [reflexivity|discriminate]|].
      split; [intros [H _]; discriminate | reflexivity].
    + split; [now left|]. split; [intros _; split; [reflexivity|discriminate]|].
      split; [intros [H _]; discriminate | reflexivity].
  - intros i d. repeat split.
  - split; reflexivity.
  - split; reflexivity.
Qed.

Lemma saved_record_has_one_date_rule_witness :
  Draft.specificDates (ModalV2.handleSave eventForm) = None
  /\ Draft.dateRange (ModalV2.handleSave weekdayForm) = None.
Proof.
  destruct saved_record_has_one_date_rule as [_ [H2 _]].
  destruct (H2 eventForm) as [_ [He _]].
  destruct (H2 weekdayForm) as [_ [_ [Ha _]]].
  split.
  - exact (proj1 (He (or_introl eq_refl))).
  - exact (proj1 (Ha (conj eq_refl eq_refl))).
Defined.

(** ** End-to-end scenarios *)

(** A workday alarm at 08:00 rings on a Wednesday and not on a
    Saturday. *)
Example workday_alarm_scenario :
  V2.ringingAlarm
    (fst (V2.step utcHost (V2.Tick [workdayAlarm] (clockAt "2024-03-06" 8 0 0))
                  V2.initial)) = Some workdayAlarm
  /\ V2.step utcHost (V2.Tick [workdayAlarm] (clockAt "2024-03-09" 8 0 0))
             V2.initial = (V2.initial, []).
Proof. split; by_eval. Qed.

(** A one-off alarm fires once at 09:00:00 on its date, is not fired
    again during that minute, also after dismissal, and does not fire
    the next day. *)
Example one_off_alarm_scenario :
  let fired :=
    V2.step utcHost (V2.Tick [oneOffAlarm] (clockAt "2024-03-01" 9 0 0))
            V2.initial in
  let dismissed := V2.step utcHost V2.Dismiss (fst fired) in
  V2.ringingAlarm (fst fired) = Some oneOffAlarm
  /\ (forall s, V2.tick utcHost [oneOffAlarm] (clockAt "2024-03-01" 9 0 s)
                        (fst dismissed) = (fst dismissed, []))
  /\ V2.tick utcHost [oneOffAlarm] (clockAt "2024-03-02" 9 0 0) (fst dismissed)
     = (fst dismissed, []).
Proof.
  cbv zeta. split; [by_eval|]. split.
  - intros s. apply v2_tick_consumed. by_eval.
  - by_eval.
Qed.

(** * Further properties *)

(** ** The calendar *)

Section Calendar.

Lemma DayFromYear_step (y : Z) :
  DayFromYear (y + 1) = DayFromYear y + (if InLeapYear y then 366 else 365).
Proof.
  unfold DayFromYear, InLeapYear.
  destruct (y mod 4 =? 0) eqn:E4; destruct (y mod 100 =? 0) eqn:E100;
    destruct (y mod 400 =? 0) eqn:E400; simpl;
    rewrite ?Z.eqb_eq, ?Z.eqb_neq in *;
    Z.div_mod_to_equations; lia.
Qed.

Lemma DayFromYear_mono (y1 y2 : Z) :
  y1 < y2 -> DayFromYear y1 + 365 <= DayFromYear y2.
Proof. intros H. unfold DayFromYear. Z.div_mod_to_equations. lia. Qed.

Lemma DayFromYear_le (y1 y2 : Z) :
  y1 <= y2 -> DayFromYear y1 <= DayFromYear y2.
Proof. intros H. unfold DayFromYear. Z.div_mod_to_equations. lia. Qed.

(** [YearFromDay] is the standard's [YearFromTime]: the year whose
    days include the given one. *)
Lemma YearFromDay_spec (day : Z) :
  DayFromYear (YearFromDay day) <= day < DayFromYear (YearFromDay day + 1).
Proof.
  unfold YearFromDay.
  set (y0 := 1970 + 400 * day / 146097).
  destruct (day <? DayFromYear y0) eqn:E1.
  - apply Z.ltb_lt in E1. replace (y0 - 1 + 1) with y0 by lia.
    split; [|assumption].
    unfold DayFromYear in *. subst y0. Z.div_mod_to_equations. lia.
  - apply Z.ltb_ge in E1.
    destruct (DayFromYear (y0 + 1) <=? day) eqn:E2.
    + apply Z.leb_le in E2. split; [assumption|].
      unfold DayFromYear in *. subst y0. Z.div_mod_to_equations. lia.
    + apply Z.leb_gt in E2. lia.
Qed.

Lemma YearFromDay_unique (day y : Z) :
  DayFromYear y <= day < DayFromYear (y + 1) -> YearFromDay day = y.
Proof.
  intros H. pose proof (YearFromDay_spec day) as S.
  destruct (Z.lt_trichotomy (YearFromDay day) y) as [L|[E|G]]; [|exact E|].
  - pose proof (DayFromYear_le (YearFromDay day + 1) y ltac:(lia)). lia.
  - pose proof (DayFromYear_le (y + 1) (YearFromDay day) ltac:(lia)). lia.
Qed.

Lemma monthStart_bounds (leap : bool) (m d : Z) :
  1 <= m <= 12 -> 1 <= d <= daysInMonth leap m ->
  0 <= monthStart leap m + d - 1 < (if leap then 366 else 365).
Proof.
  intros Hm Hd.
  assert (C : m = 1 \/ m = 2 \/ m = 3 \/ m = 4 \/ m = 5 \/ m = 6 \/ m = 7
              \/ m = 8 \/ m = 9 \/ m = 10 \/ m = 11 \/ m = 12) by lia.
  destruct leap;
    repeat (destruct C as [->|C]; [simpl in *; lia|]); subst; simpl in *; lia.
Qed.

(** From a civil date to its day number and back. *)
Lemma civil_of_MakeDay (y m d : Z) :
  validDate y m d ->
  YearFromDay (MakeDay y m d) = y
  /\ MonthFromDay (MakeDay y m d) = m - 1
  /\ DateFromDay (MakeDay y m d) = d.
Proof.
  intros [Hm Hd].
  assert (Hy : YearFromDay (MakeDay y m d) = y).
  { apply YearFromDay_unique. unfold MakeDay. rewrite DayFromYear_step.
    pose proof (monthStart_bounds (InLeapYear y) m d Hm Hd).
    destruct (InLeapYear y); lia. }
  assert (Hmo : MonthFromDay (MakeDay y m d) = m - 1).
  { unfold MonthFromDay, DayWithinYear. rewrite Hy. unfold MakeDay.
    replace (DayFromYear y + monthStart (InLeapYear y) m + d - 1 - DayFromYear y)
      with (monthStart (InLeapYear y) m + d - 1) by lia.
    assert (C : m = 1 \/ m = 2 \/ m = 3 \/ m = 4 \/ m = 5 \/ m = 6 \/ m = 7
                \/ m = 8 \/ m = 9 \/ m = 10 \/ m = 11 \/ m = 12) by lia.
    destruct (InLeapYear y);
      repeat (destruct C as [->|C];
              [simpl in *;
               repeat match goal with
                      | |- context [?a <? ?b] =>
                          destruct (Z.ltb_spec a b); try lia
                      end; reflexivity|]);
      subst; simpl in *;
      repeat match goal with
             | |- context [?a <? ?b] => destruct (Z.ltb_spec a b); try lia
             end; reflexivity. }
  split; [exact Hy|]. split; [exact Hmo|].
  unfold DateFromDay, DayWithinYear. rewrite Hy, Hmo.
  replace (m - 1 + 1) with m by lia. unfold MakeDay. lia.
Qed.

(** From a day number to its civil date and back. *)
Lemma MakeDay_of_civil (day : Z) :
  validDate (YearFromDay day) (MonthFromDay day + 1) (DateFromDay day)
  /\ MakeDay (YearFromDay day) (MonthFromDay day + 1) (DateFromDay day) = day.
Proof.
  pose proof (YearFromDay_spec day) as S. rewrite DayFromYear_step in S.
  unfold validDate, MakeDay, DateFromDay, MonthFromDay, DayWithinYear.
  set (y := YearFromDay day) in *. set (dw := day - DayFromYear y).
  assert (Hdw : 0 <= dw < (if InLeapYear y then 366 else 365))
    by (unfold dw; destruct (InLeapYear y); lia).
  destruct (InLeapYear y); simpl;
    repeat match goal with
           | |- context [?a <? ?b] => destruct (Z.ltb_spec a b)
           end; simpl; lia.
Qed.

End Calendar.

(** ** Date keys *)

Section DateKeys.

Lemma digitVal_digitChar (k : Z) :
  0 <= k <= 9 -> digitVal (digitChar k) = Some k.
Proof.
  intros H.
  assert (C : k = 0 \/ k = 1 \/ k = 2 \/ k = 3 \/ k = 4 \/ k = 5 \/ k = 6
              \/ k = 7 \/ k = 8 \/ k = 9) by lia.
  repeat (destruct C as [->|C]; [reflexivity|]). subst. reflexivity.
Qed.

Lemma digitVal_inv (c : ascii) (k : Z) :
  digitVal c = Some k -> 0 <= k <= 9 /\ c = digitChar k.
Proof.
  unfold digitVal, digitChar, code.
  destruct ((48 <=? N_of_ascii c)%N && (N_of_ascii c <=? 57)%N) eqn:E;
    [|discriminate].
  intros H. inversion H; subst. clear H.
  apply andb_true_iff in E. destruct E as [E1 E2].
  apply N.leb_le in E1. apply N.leb_le in E2. split; [lia|].
  replace (Z.to_N (48 + (Z.of_N (N_of_ascii c) - 48))) with (N_of_ascii c)
    by lia.
  symmetry. apply ascii_N_embedding.
Qed.

Lemma isHyphen_inv (c : ascii) : isHyphen c = true -> c = "-"%char.
Proof.
  unfold isHyphen, code. intros H. apply N.eqb_eq in H.
  rewrite <- (ascii_N_embedding c), H. reflexivity.
Qed.

Lemma parseCalendarKey_keyText (a b c e f g h i : Z) :
  0 <= a <= 9 -> 0 <= b <= 9 -> 0 <= c <= 9 -> 0 <= e <= 9 ->
  0 <= f <= 9 -> 0 <= g <= 9 -> 0 <= h <= 9 -> 0 <= i <= 9 ->
  parseCalendarKey (keyText a b c e f g h i) =
  let y := 1000 * a + 100 * b + 10 * c + e in
  let m := 10 * f + g in
  let d := 10 * h + i in
  if (1 <=? m) && (m <=? 12) && (1 <=? d)
     && (d <=? daysInMonth (InLeapYear y) m)
  then Some (y, m, d) else None.
Proof.
  intros Ha Hb Hc He Hf Hg Hh Hi. unfold keyText, parseCalendarKey.
  rewrite !digitVal_digitChar by assumption.
  change (isHyphen "-") with true. reflexivity.
Qed.

(** Every text the parser accepts is such a text. *)
Lemma parseCalendarKey_inv (s : string) (y m d : Z) :
  parseCalendarKey s = Some (y, m, d) ->
  exists a b c e f g h i,
    s = keyText a b c e f g h i
    /\ (0 <= a <= 9 /\ 0 <= b <= 9 /\ 0 <= c <= 9 /\ 0 <= e <= 9)
    /\ (0 <= f <= 9 /\ 0 <= g <= 9 /\ 0 <= h <= 9 /\ 0 <= i <= 9)
    /\ y = 1000 * a + 100 * b + 10 * c + e
    /\ m = 10 * f + g /\ d = 10 * h + i
    /\ validDate y m d.
Proof.
  unfold parseCalendarKey.
  destruct s as [|y1 [|y2 [|y3 [|y4 [|h1 [|m1 [|m2 [|h2 [|d1 [|d2 [|x s]]]]]]]]]]];
    try discriminate.
  destruct (digitVal y1) as [a|] eqn:Ea; [|discriminate].
  destruct (digitVal y2) as [b|] eqn:Eb; [|discriminate].
  destruct (digitVal y3) as [c|] eqn:Ec; [|discriminate].
  destruct (digitVal y4) as [e|] eqn:Ee; [|discriminate].
  destruct (digitVal m1) as [f|] eqn:Ef; [|discriminate].
  destruct (digitVal m2) as [g|] eqn:Eg; [|discriminate].
  destruct (digitVal d1) as [h|] eqn:Eh; [|discriminate].
  destruct (digitVal d2) as [i|] eqn:Ei; [|discriminate].
  cbv zeta.
  destruct (isHyphen h1 && isHyphen h2 && (1 <=? 10 * f + g)
            && (10 * f + g <=? 12) && (1 <=? 10 * h + i)
            && (10 * h + i <=?
                daysInMonth (InLeapYear (1000 * a + 100 * b + 10 * c + e))
                            (10 * f + g))) eqn:E; [|discriminate].
  intros H. inversion H; subst. clear H.
  repeat (apply andb_true_iff in E; destruct E as [E ?]).
  apply isHyphen_inv in E. apply isHyphen_inv in H3.
  apply digitVal_inv in Ea, Eb, Ec, Ee, Ef, Eg, Eh, Ei.
  destruct Ea as [? ->], Eb as [? ->], Ec as [? ->], Ee as [? ->],
           Ef as [? ->], Eg as [? ->], Eh as [? ->], Ei as [? ->].
  subst h1 h2.
  exists a, b, c, e, f, g, h, i. unfold validDate.
  repeat split; try reflexivity; lia.
Qed.

Lemma digits2_text (n : Z) :
  0 <= n <= 99 ->
  digits2 n = String (digitChar (n / 10)) (String (digitChar (n mod 10)) "").
Proof.
  intros H. unfold digits2. rewrite (Z.mod_small (n / 10)); [reflexivity|].
  Z.div_mod_to_equations. lia.
Qed.

(** The key of a civil date in the years 0 to 9999, digit by digit. *)
Lemma dateKeyOf_text (y m d : Z) :
  0 <= y <= 9999 -> validDate y m d ->
  dateKeyOf y m d =
  keyText (y / 1000 mod 10) (y / 100 mod 10) (y / 10 mod 10) (y mod 10)
          (m / 10) (m mod 10) (d / 10) (d mod 10).
Proof.
  intros Hy Hv. unfold dateKeyOf, formatDateKey, Day.
  rewrite Z.div_mul by (unfold msPerDay; lia).
  destruct (civil_of_MakeDay y m d Hv) as [E1 [E2 E3]].
  rewrite E1, E2, E3. replace (m - 1 + 1) with m by lia.
  unfold isoYear.
  replace ((0 <=? y) && (y <=? 9999)) with true
    by (symmetry; apply andb_true_iff; split; apply Z.leb_le; lia).
  destruct Hv as [Hm Hd].
  assert (Hd' : 1 <= d <= 31).
  { split; [lia|]. destruct Hd as [_ Hd]. revert Hd.
    unfold daysInMonth.
    destruct (InLeapYear y);
      repeat match goal with
             | |- context [match ?x with _ => _ end] => destruct x
             end; lia. }
  rewrite (digits2_text m), (digits2_text d) by lia.
  reflexivity.
Qed.

End DateKeys.

Section DateOrder.

Lemma str_ltb_digit (a b : Z) (s t : string) :
  0 <= a <= 9 -> 0 <= b <= 9 ->
  str_ltb (String (digitChar a) s) (String (digitChar b) t) =
  if a <? b then true else if b <? a then false else str_ltb s t.
Proof.
  intros Ha Hb. simpl. unfold code, digitChar.
  rewrite !N_ascii_embedding by lia.
  destruct (Z.ltb_spec a b); destruct (Z.ltb_spec b a);
    destruct (N.ltb_spec (Z.to_N (48 + a)) (Z.to_N (48 + b)));
    destruct (N.ltb_spec (Z.to_N (48 + b)) (Z.to_N (48 + a)));
    try lia; reflexivity.
Qed.

Lemma str_ltb_same (c : ascii) (s t : string) :
  str_ltb (String c s) (String c t) = str_ltb s t.
Proof. simpl. now rewrite N.ltb_irrefl. Qed.

(** Within a year the day number grows with month and day. *)
Lemma monthStart_order (leap : bool) (m1 d1 m2 d2 : Z) :
  1 <= m1 <= 12 -> 1 <= d1 <= daysInMonth leap m1 ->
  1 <= m2 <= 12 -> 1 <= d2 <= daysInMonth leap m2 ->
  m1 < m2 ->
  monthStart leap m1 + d1 < monthStart leap m2 + d2.
Proof.
  intros H1 D1 H2 D2 L.
  assert (C1 : m1 = 1 \/ m1 = 2 \/ m1 = 3 \/ m1 = 4 \/ m1 = 5 \/ m1 = 6
               \/ m1 = 7 \/ m1 = 8 \/ m1 = 9 \/ m1 = 10 \/ m1 = 11 \/ m1 = 12)
    by lia.
  assert (C2 : m2 = 1 \/ m2 = 2 \/ m2 = 3 \/ m2 = 4 \/ m2 = 5 \/ m2 = 6
               \/ m2 = 7 \/ m2 = 8 \/ m2 = 9 \/ m2 = 10 \/ m2 = 11 \/ m2 = 12)
    by lia.
  destruct leap;
    repeat (destruct C1 as [->|C1]); subst;
    repeat (destruct C2 as [->|C2]); subst; simpl in *; lia.
Qed.

(** Day numbers order civil dates as year, month, day do. *)
Lemma MakeDay_lt_iff (y1 m1 d1 y2 m2 d2 : Z) :
  validDate y1 m1 d1 -> validDate y2 m2 d2 ->
  (MakeDay y1 m1 d1 < MakeDay y2 m2 d2 <->
   y1 < y2 \/ (y1 = y2 /\ (m1 < m2 \/ (m1 = m2 /\ d1 < d2)))).
Proof.
  intros V1 V2.
  assert (F : forall ya ma da yb mb db,
             validDate ya ma da -> validDate yb mb db ->
             ya < yb \/ (ya = yb /\ (ma < mb \/ (ma = mb /\ da < db))) ->
             MakeDay ya ma da < MakeDay yb mb db).
  { intros ya ma da yb mb db [Ha Da] [Hb Db] [L|[-> [L|[-> L]]]].
    - pose proof (monthStart_bounds _ _ _ Ha Da) as Ba.
      pose proof (monthStart_bounds _ _ _ Hb Db) as Bb.
      pose proof (DayFromYear_step ya) as S.
      pose proof (DayFromYear_le (ya + 1) yb ltac:(lia)).
      unfold MakeDay. destruct (InLeapYear ya); lia.
    - pose proof (monthStart_order _ _ _ _ _ Ha Da Hb Db L).
      unfold MakeDay. lia.
    - unfold MakeDay. lia. }
  split; [|now apply F].
  intros L.
  destruct (Z.lt_trichotomy y1 y2) as [?|[->|?]]; [now left| |].
  - right. split; [reflexivity|].
    destruct (Z.lt_trichotomy m1 m2) as [?|[->|?]]; [now left| |].
    + right. split; [reflexivity|]. unfold MakeDay in L. lia.
    + pose proof (F y2 m2 d2 y2 m1 d1 V2 V1 ltac:(right; split; [reflexivity|now left])).
      lia.
  - pose proof (F y2 m2 d2 y1 m1 d1 V2 V1 ltac:(now left)). lia.
Qed.

(** On texts the parser accepts, the code-unit order of strings is
    the order of the calendar. *)
Lemma str_ltb_calendar (s1 s2 : string) (y1 m1 d1 y2 m2 d2 : Z) :
  parseCalendarKey s1 = Some (y1, m1, d1) ->
  parseCalendarKey s2 = Some (y2, m2, d2) ->
  (str_ltb s1 s2 = true <-> MakeDay y1 m1 d1 < MakeDay y2 m2 d2).
Proof.
  intros P1 P2.
  destruct (parseCalendarKey_inv _ _ _ _ P1)
    as (a1 & b1 & c1 & e1 & f1 & g1 & h1 & i1 & -> & Y1 & M1 & -> & -> & -> & V1).
  destruct (parseCalendarKey_inv _ _ _ _ P2)
    as (a2 & b2 & c2 & e2 & f2 & g2 & h2 & i2 & -> & Y2 & M2 & -> & -> & -> & V2).
  rewrite (MakeDay_lt_iff _ _ _ _ _ _ V1 V2).
  unfold keyText.
  rewrite !str_ltb_digit, !str_ltb_same, !str_ltb_digit, !str_ltb_same,
    !str_ltb_digit by tauto.
  simpl (str_ltb "" "").
  destruct (Z.ltb_spec a1 a2); [split; [lia|reflexivity]|].
  destruct (Z.ltb_spec a2 a1); [split; [discriminate|lia]|].
  destruct (Z.ltb_spec b1 b2); [split; [lia|reflexivity]|].
  destruct (Z.ltb_spec b2 b1); [split; [discriminate|lia]|].
  destruct (Z.ltb_spec c1 c2); [split; [lia|reflexivity]|].
  destruct (Z.ltb_spec c2 c1); [split; [discriminate|lia]|].
  destruct (Z.ltb_spec e1 e2); [split; [lia|reflexivity]|].
  destruct (Z.ltb_spec e2 e1); [split; [discriminate|lia]|].
  destruct (Z.ltb_spec f1 f2); [split; [lia|reflexivity]|].
  destruct (Z.ltb_spec f2 f1); [split; [discriminate|lia]|].
  destruct (Z.ltb_spec g1 g2); [split; [lia|reflexivity]|].
  destruct (Z.ltb_spec g2 g1); [split; [discriminate|lia]|].
  destruct (Z.ltb_spec h1 h2); [split; [lia|reflexivity]|].
  destruct (Z.ltb_spec h2 h1); [split; [discriminate|lia]|].
  destruct (Z.ltb_spec i1 i2); [split; [lia|reflexivity]|].
  destruct (Z.ltb_spec i2 i1); [split; [discriminate|lia]|].
  split; [discriminate|lia].
Qed.

End DateOrder.

(** ** Local dates and the calendar grid *)

Section LocalDates.

Variable tz : Z.

Lemma MonthFromDay_range (day : Z) : 0 <= MonthFromDay day <= 11.
Proof.
  unfold MonthFromDay.
  repeat match goal with
         | |- context [if ?a <? ?b then _ else _] => destruct (a <? b)
         end; lia.
Qed.

Lemma localDay_localMidnight (year month date : Z) :
  localDay tz (localMidnight tz year month date)
  = MakeDayJS (fullYear year) month date
  /\ LocalTime tz (localMidnight tz year month date) mod msPerDay = 0.
Proof.
  unfold localDay, Day, LocalTime, localMidnight, fullYear, msPerDay.
  set (D := MakeDayJS _ month date).
  replace (D * 86400000 - tz * msPerMinute + tz * msPerMinute)
    with (D * 86400000) by lia.
  split; [apply Z.div_mul; lia | apply Z.mod_mul; lia].
Qed.

Lemma MakeDayJS_MakeDay (year month date : Z) :
  MakeDayJS year month date
  = MakeDay (year + month / 12) (month mod 12 + 1) date.
Proof. reflexivity. Qed.

Lemma MakeDay_shift (y m d k : Z) : MakeDay y m (d + k) = MakeDay y m d + k.
Proof. unfold MakeDay. lia. Qed.

(** The first of the next month follows the last day of the month. *)
Lemma MakeDayJS_next_month (year month : Z) :
  MakeDayJS year (month + 1) 1
  = MakeDayJS year month 1
    + daysInMonth (InLeapYear (year + month / 12)) (month mod 12 + 1).
Proof.
  unfold MakeDayJS.
  assert (C : month mod 12 = 11 \/ 0 <= month mod 12 <= 10)
    by (pose proof (Z.mod_pos_bound month 12); lia).
  destruct C as [E|E].
  - assert (E1 : (month + 1) mod 12 = 0) by (Z.div_mod_to_equations; lia).
    assert (E2 : (month + 1) / 12 = month / 12 + 1)
      by (Z.div_mod_to_equations; lia).
    rewrite E, E1, E2. replace (year + (month / 12 + 1))
      with (year + month / 12 + 1) by lia.
    rewrite DayFromYear_step. simpl.
    destruct (InLeapYear (year + month / 12)); simpl; lia.
  - assert (E1 : (month + 1) mod 12 = month mod 12 + 1)
      by (Z.div_mod_to_equations; lia).
    assert (E2 : (month + 1) / 12 = month / 12)
      by (Z.div_mod_to_equations; lia).
    rewrite E1, E2.
    assert (C : month mod 12 = 0 \/ month mod 12 = 1 \/ month mod 12 = 2
                \/ month mod 12 = 3 \/ month mod 12 = 4 \/ month mod 12 = 5
                \/ month mod 12 = 6 \/ month mod 12 = 7 \/ month mod 12 = 8
                \/ month mod 12 = 9 \/ month mod 12 = 10) by lia.
    destruct (InLeapYear (year + month / 12));
      repeat (destruct C as [->|C]; [simpl; lia|]); rewrite C; simpl; lia.
Qed.

(** The calendar fields of [new Date(year, month, date)] for a date
    inside the month. *)
Lemma fields_localMidnight (year month date : Z) :
  0 <= month <= 11 ->
  1 <= date <= daysInMonth (InLeapYear (fullYear year)) (month + 1) ->
  getFullYear tz (localMidnight tz year month date) = fullYear year
  /\ getMonth tz (localMidnight tz year month date) = month
  /\ getDate tz (localMidnight tz year month date) = date.
Proof.
  intros Hm Hd. unfold getFullYear, getMonth, getDate.
  destruct (localDay_localMidnight year month date) as [E _].
  unfold localDay in E. rewrite E, MakeDayJS_MakeDay.
  rewrite Z.div_small, Z.mod_small, Z.add_0_r by lia.
  destruct (civil_of_MakeDay (fullYear year) (month + 1) date) as [A [B C]].
  { unfold validDate. lia. }
  rewrite A, B, C. repeat split; lia.
Qed.

End LocalDates.

Section DaysInMonth.

Variable tz : Z.

Lemma getMonth_localMidnight_any (year month : Z) :
  getMonth tz (localMidnight tz year month 1) = month mod 12.
Proof.
  unfold getMonth. destruct (localDay_localMidnight tz year month 1) as [E _].
  unfold localDay in E. rewrite E, MakeDayJS_MakeDay.
  destruct (civil_of_MakeDay (fullYear year + month / 12) (month mod 12 + 1) 1)
    as [_ [B _]].
  { unfold validDate. pose proof (Z.mod_pos_bound month 12 ltac:(lia)).
    split; [lia|]. unfold daysInMonth.
    destruct (InLeapYear _);
      repeat match goal with
             | |- context [match ?x with _ => _ end] => destruct x
             end; lia. }
  rewrite B. lia.
Qed.

Lemma setDateValue_next (year month date : Z) :
  0 <= month <= 11 ->
  1 <= date <= daysInMonth (InLeapYear (fullYear year)) (month + 1) ->
  setDateValue tz (localMidnight tz year month date)
          (getDate tz (localMidnight tz year month date) + 1)
  = localMidnight tz year month (date + 1).
Proof.
  intros Hm Hd.
  destruct (fields_localMidnight tz year month date Hm Hd) as [_ [_ C]].
  destruct (localDay_localMidnight tz year month date) as [D E].
  rewrite C. unfold setDateValue.
  change (Day (LocalTime tz (localMidnight tz year month date)))
    with (localDay tz (localMidnight tz year month date)).
  rewrite D, E, (MakeDayJS_MakeDay (fullYear year) month date).
  rewrite (Z.div_small month 12), (Z.mod_small month 12),
    (Z.add_0_r (fullYear year)) by lia.
  destruct (civil_of_MakeDay (fullYear year) (month + 1) date) as [A [B _]].
  { unfold validDate. lia. }
  rewrite A, B. replace (month + 1 - 1) with month by lia.
  unfold localMidnight. fold (fullYear year). lia.
Qed.

Lemma fullYear_idem (year : Z) : fullYear (fullYear year) = fullYear year.
Proof.
  unfold fullYear.
  destruct ((0 <=? year) && (year <=? 99)) eqn:Y; [|now rewrite Y].
  apply andb_true_iff in Y. destruct Y as [Y1 Y2].
  apply Z.leb_le in Y1. apply Z.leb_le in Y2.
  replace ((0 <=? 1900 + year) && (1900 + year <=? 99)) with false;
    [reflexivity|].
  symmetry. apply andb_false_iff. right. apply Z.leb_gt. lia.
Qed.

Lemma getMonth_localDay (t : Z) : getMonth tz t = MonthFromDay (localDay tz t).
Proof. reflexivity. Qed.

(** The day after the last day of the month is in the next month. *)
Lemma getMonth_past_month (year month : Z) :
  0 <= month <= 11 ->
  getMonth tz (localMidnight tz year month
                 (daysInMonth (InLeapYear (fullYear year)) (month + 1) + 1))
  = (month + 1) mod 12.
Proof.
  intros Hm. rewrite getMonth_localDay.
  rewrite (proj1 (localDay_localMidnight tz year month _)).
  pose proof (MakeDayJS_next_month (fullYear year) month) as N.
  rewrite (Z.div_small month 12), (Z.mod_small month 12),
    (Z.add_0_r (fullYear year)) in N by lia.
  replace (MakeDayJS (fullYear year) month
             (daysInMonth (InLeapYear (fullYear year)) (month + 1) + 1))
    with (MakeDayJS (fullYear year) (month + 1) 1)
    by (rewrite N; unfold MakeDayJS; lia).
  pose proof (getMonth_localMidnight_any (fullYear year) (month + 1)) as G.
  rewrite getMonth_localDay in G.
  rewrite (proj1 (localDay_localMidnight tz (fullYear year) (month + 1) 1)) in G.
  rewrite fullYear_idem in G. exact G.
Qed.

Lemma TimeClip_some (x t : Z) : TimeClip x = Some t -> t = x.
Proof.
  unfold TimeClip. destruct ((- maxTime <=? x) && (x <=? maxTime)); congruence.
Qed.

Lemma TimeClip_in_range (x : Z) :
  - maxTime <= x <= maxTime -> TimeClip x = Some x.
Proof.
  intros H. unfold TimeClip.
  replace ((- maxTime <=? x) && (x <=? maxTime)) with true; [reflexivity|].
  symmetry. apply andb_true_iff. split; apply Z.leb_le; lia.
Qed.

Lemma daysLoop_valid (fuel : nat) (month t : Z) (days : list Z) :
  daysLoop (S fuel) tz month (Some t) days
  = if getMonth tz t =? month
    then daysLoop fuel tz month (setDate tz t (getDate tz t + 1)) (days ++ [t])
    else Some days.
Proof. reflexivity. Qed.

Lemma daysLoop_invalid (fuel : nat) (month : Z) (days : list Z) :
  daysLoop (S fuel) tz month None days = Some days.
Proof. reflexivity. Qed.

Lemma daysLoop_run (year month : Z) (n : nat) :
  0 <= month <= 11 ->
  forall (k : Z) (fuel : nat) (acc : list Z),
    1 <= k ->
    k + Z.of_nat n
    = daysInMonth (InLeapYear (fullYear year)) (month + 1) + 1 ->
    (n < fuel)%nat ->
    daysLoop fuel tz month (newDateYMD tz year month k) acc
    = Some (acc ++ validPrefix
                     (map (fun i => newDateYMD tz year month (k + Z.of_nat i))
                          (seq 0 n))).
Proof.
  intros Hm. induction n as [|n IH]; intros k fuel acc Hk Hn Hf.
  - destruct fuel as [|fuel]; [lia|].
    cbn [seq map validPrefix]. rewrite app_nil_r.
    unfold newDateYMD.
    destruct (TimeClip (localMidnight tz year month k)) as [t|] eqn:C;
      [|apply daysLoop_invalid].
    apply TimeClip_some in C. subst t. rewrite daysLoop_valid.
    replace k with (daysInMonth (InLeapYear (fullYear year)) (month + 1) + 1)
      by lia.
    rewrite (getMonth_past_month year month Hm).
    replace ((month + 1) mod 12 =? month) with false; [reflexivity|].
    symmetry. apply Z.eqb_neq. Z.div_mod_to_equations. lia.
  - destruct fuel as [|fuel]; [lia|].
    assert (Hd : 1 <= k <= daysInMonth (InLeapYear (fullYear year)) (month + 1))
      by lia.
    cbn [seq map]. change (Z.of_nat 0) with 0. rewrite (Z.add_0_r k).
    unfold newDateYMD at 1 2.
    destruct (TimeClip (localMidnight tz year month k)) as [t|] eqn:C.
    + apply TimeClip_some in C. subst t. rewrite daysLoop_valid.
      destruct (fields_localMidnight tz year month k Hm Hd) as [_ [B _]].
      rewrite B, Z.eqb_refl. unfold setDate.
      rewrite (setDateValue_next year month k Hm Hd).
      change (TimeClip (localMidnight tz year month (k + 1)))
        with (newDateYMD tz year month (k + 1)).
      rewrite (IH (k + 1) fuel (acc ++ [localMidnight tz year month k]))
        by lia.
      rewrite <- app_assoc. cbn [validPrefix app]. do 4 f_equal.
      rewrite <- seq_shift, map_map. apply map_ext. intros i. f_equal. lia.
    + rewrite daysLoop_invalid. cbn [validPrefix]. now rewrite app_nil_r.
Qed.

Lemma localMidnight_date (year month date : Z) :
  localMidnight tz year month date
  = localMidnight tz year month 1 + (date - 1) * msPerDay.
Proof. unfold localMidnight, MakeDayJS. lia. Qed.

Lemma validPrefix_all (f : Z -> Z) (g : Z -> option Z) (l : list Z) :
  (forall x, In x l -> g x = Some (f x)) ->
  validPrefix (map g l) = map f l.
Proof.
  induction l as [|x r IH]; intros H; [reflexivity|]. cbn [map].
  rewrite (H x (or_introl eq_refl)). cbn [validPrefix]. f_equal.
  apply IH. intros y I. apply H. now right.
Qed.

End DaysInMonth.

(** X1.  [getDaysInMonth] ends by its own test.  For a month number
    from 0 to 11 it returns the local midnights of the days of the
    month, from the 1st on, up to the last day of the month or to the
    last one that is still a time value: all of them when the 1st and
    the last day are within the range of time values, none when the
    1st is not.  For a month number outside 0..11 it returns no day at
    all. *)
Theorem getDaysInMonth_lists_the_month (tz year month : Z) :
  let dim := daysInMonth (InLeapYear (fullYear year)) (month + 1) in
  (0 <= month <= 11 ->
   getDaysInMonth tz year month
   = Some (validPrefix (map (fun d => newDateYMD tz year month d)
                            (countUp dim))))
  /\ (0 <= month <= 11 ->
      - maxTime <= localMidnight tz year month 1 ->
      localMidnight tz year month dim <= maxTime ->
      getDaysInMonth tz year month
      = Some (map (fun d => localMidnight tz year month d) (countUp dim)))
  /\ (~ 0 <= month <= 11 -> getDaysInMonth tz year month = Some []).
Proof.
  cbv zeta.
  set (dim := daysInMonth (InLeapYear (fullYear year)) (month + 1)).
  assert (Hdim : 28 <= dim <= 31).
  { unfold dim, daysInMonth.
    destruct (InLeapYear _);
      repeat match goal with
             | |- context [match ?x with _ => _ end] => destruct x
             end; lia. }
  assert (P : 0 <= month <= 11 ->
              getDaysInMonth tz year month
              = Some (validPrefix (map (fun d => newDateYMD tz year month d)
                                       (countUp dim)))).
  { intros Hm. unfold getDaysInMonth, countUp.
    rewrite (daysLoop_run tz year month (Z.to_nat dim) Hm 1 32 []);
      [| lia | fold dim; lia | lia].
    cbn [app]. do 2 f_equal. rewrite <- seq_shift, !map_map. apply map_ext.
    intros i. f_equal. lia. }
  split; [exact P|]. split.
  - intros Hm Hlo Hhi. rewrite (P Hm). f_equal.
    apply validPrefix_all. intros d Hd. unfold newDateYMD.
    apply TimeClip_in_range.
    assert (R : 1 <= d <= dim).
    { unfold countUp in Hd. apply in_map_iff in Hd.
      destruct Hd as (i & <- & Hi). apply in_seq in Hi. lia. }
    rewrite (localMidnight_date tz year month d).
    rewrite (localMidnight_date tz year month dim) in Hhi.
    unfold msPerDay in *. nia.
  - intros Hm. unfold getDaysInMonth, newDateYMD.
    destruct (TimeClip (localMidnight tz year month 1)) as [t|] eqn:C;
      [|reflexivity].
    apply TimeClip_some in C. subst t. rewrite daysLoop_valid.
    rewrite getMonth_localMidnight_any.
    replace (month mod 12 =? month) with false; [reflexivity|].
    symmetry. apply Z.eqb_neq. pose proof (Z.mod_pos_bound month 12). lia.
Qed.

Section Grid.

Variable tz : Z.

Lemma daysInMonth_range (leap : bool) (m : Z) : 28 <= daysInMonth leap m <= 31.
Proof.
  unfold daysInMonth.
  destruct leap;
    repeat match goal with
           | |- context [match ?x with _ => _ end] => destruct x
           end; lia.
Qed.

Lemma fullYear_id (year : Z) : ~ 0 <= year <= 99 -> fullYear year = year.
Proof.
  intros H. unfold fullYear.
  destruct ((0 <=? year) && (year <=? 99)) eqn:E; [|reflexivity].
  apply andb_true_iff in E. destruct E as [E1 E2].
  apply Z.leb_le in E1. apply Z.leb_le in E2. lia.
Qed.

Lemma getWeekDay_localDay (t : Z) :
  getWeekDay tz t = (localDay tz t + 4) mod 7.
Proof. reflexivity. Qed.

Lemma getDate_localDay (t : Z) : getDate tz t = DateFromDay (localDay tz t).
Proof. reflexivity. Qed.

Lemma getFullYear_localDay (t : Z) :
  getFullYear tz t = YearFromDay (localDay tz t).
Proof. reflexivity. Qed.

Lemma length_countUp (n : Z) : length (countUp n) = Z.to_nat n.
Proof. unfold countUp. now rewrite length_map, length_seq. Qed.

Lemma length_countDown (n : Z) : length (countDown n) = Z.to_nat n.
Proof. unfold countDown. now rewrite length_rev, length_map, length_seq. Qed.

(** Whatever the view date, the invalid date included, the grid has 42
    cells. *)
Lemma getCalendarGrid_length (viewDate : option Z) :
  length (getCalendarGrid tz viewDate) = 42%nat.
Proof.
  destruct viewDate as [v|]; [|reflexivity].
  unfold getCalendarGrid. cbv zeta.
  set (vy := getFullYear tz v). set (vm := getMonth tz v).
  set (lead := match newDateYMD tz vy vm 1 with
               | Some s => map (fun i => newDateYMD tz vy vm (- i))
                               (countDown (getWeekDay tz s))
               | None => []
               end).
  set (inMonth := match newDateYMD tz vy (vm + 1) 0 with
                  | Some e => map (fun i => newDateYMD tz vy vm i)
                                  (countUp (getDate tz e))
                  | None => []
                  end).
  assert (L1 : (length lead <= 6)%nat).
  { unfold lead. destruct (newDateYMD tz vy vm 1) as [s|]; [|simpl; lia].
    rewrite length_map, length_countDown.
    pose proof (Z.mod_pos_bound (localDay tz s + 4) 7 ltac:(lia)) as B.
    rewrite getWeekDay_localDay. lia. }
  assert (L2 : (length inMonth <= 31)%nat).
  { unfold inMonth. destruct (newDateYMD tz vy (vm + 1) 0) as [e|]; [|simpl; lia].
    rewrite length_map, length_countUp, getDate_localDay.
    destruct (MakeDay_of_civil (localDay tz e)) as [[_ V] _].
    pose proof (daysInMonth_range (InLeapYear (YearFromDay (localDay tz e)))
                  (MonthFromDay (localDay tz e) + 1)) as R.
    lia. }
  rewrite length_app, length_map, length_countUp, length_app. lia.
Qed.

Lemma monthStart_leap_diff (m : Z) :
  1 <= m <= 12 ->
  monthStart false m <= monthStart true m <= monthStart false m + 1.
Proof.
  intros Hm.
  assert (C : m = 1 \/ m = 2 \/ m = 3 \/ m = 4 \/ m = 5 \/ m = 6 \/ m = 7
              \/ m = 8 \/ m = 9 \/ m = 10 \/ m = 11 \/ m = 12) by lia.
  repeat (destruct C as [->|C]; [simpl; lia|]). subst. simpl. lia.
Qed.

(** Two days of the same month in different years lie far apart. *)
Lemma same_month_other_year (d1 d2 : Z) :
  YearFromDay d1 < YearFromDay d2 ->
  MonthFromDay d1 = MonthFromDay d2 ->
  334 <= d2 - d1.
Proof.
  intros HY HM.
  destruct (MakeDay_of_civil d1) as [[M1 D1] E1].
  destruct (MakeDay_of_civil d2) as [[M2 D2] E2].
  rewrite <- HM in E2, D2.
  pose proof (DayFromYear_step (YearFromDay d1)) as S.
  pose proof (DayFromYear_le (YearFromDay d1 + 1) (YearFromDay d2) ltac:(lia)).
  pose proof (monthStart_leap_diff (MonthFromDay d1 + 1) M1) as L.
  pose proof (daysInMonth_range (InLeapYear (YearFromDay d1))
                                (MonthFromDay d1 + 1)).
  unfold MakeDay in E1, E2.
  destruct (InLeapYear (YearFromDay d1)); destruct (InLeapYear (YearFromDay d2));
    lia.
Qed.

(** The local days of the grid: 42 consecutive days, the first of
    them the Sunday on or before the first of the month. *)
Lemma grid_days (viewDate : Z) :
  let vy := getFullYear tz viewDate in
  let vm := getMonth tz viewDate in
  let first := MakeDay vy (vm + 1) 1 in
  let startDay := (first + 4) mod 7 in
  ~ 0 <= vy <= 99 ->
  map (localDay tz) (gridTimes tz viewDate)
  = map (fun k => first - startDay + Z.of_nat k) (seq 0 42).
Proof.
  intros vy vm first startDay Hy.
  assert (Hvm : 0 <= vm <= 11) by apply MonthFromDay_range.
  assert (HJ : forall m d, localDay tz (localMidnight tz vy m d) = MakeDayJS vy m d).
  { intros m d. rewrite (proj1 (localDay_localMidnight tz vy m d)).
    now rewrite (fullYear_id vy Hy). }
  assert (H0 : MakeDayJS vy vm 1 = first).
  { rewrite MakeDayJS_MakeDay.
    now rewrite (Z.div_small vm 12), (Z.mod_small vm 12), Z.add_0_r by lia. }
  set (dim := daysInMonth (InLeapYear vy) (vm + 1)).
  assert (H1 : forall d, MakeDayJS vy vm d = first + d - 1).
  { intros d. rewrite <- H0. unfold MakeDayJS. lia. }
  assert (H2 : forall d, MakeDayJS vy (vm + 1) d = first + dim + d - 1).
  { intros d. pose proof (MakeDayJS_next_month vy vm) as N.
    rewrite (Z.div_small vm 12), (Z.mod_small vm 12), Z.add_0_r in N by lia.
    fold dim in N. rewrite H0 in N.
    replace (MakeDayJS vy (vm + 1) d) with (MakeDayJS vy (vm + 1) 1 + d - 1)
      by (unfold MakeDayJS; lia).
    lia. }
  assert (HS : getWeekDay tz (localMidnight tz vy vm 1) = startDay).
  { rewrite getWeekDay_localDay, HJ, H0. reflexivity. }
  assert (HE : getDate tz (localMidnight tz vy (vm + 1) 0) = dim).
  { rewrite getDate_localDay, HJ, H2.
    replace (first + dim + 0 - 1) with (MakeDay vy (vm + 1) dim)
      by (unfold first, MakeDay; lia).
    pose proof (daysInMonth_range (InLeapYear vy) (vm + 1)).
    apply (civil_of_MakeDay vy (vm + 1) dim). unfold validDate. fold dim. lia. }
  unfold gridTimes. fold vy vm. rewrite HS, HE.
  rewrite !map_app, !map_map, length_app, !length_map.
  rewrite (map_ext _ (fun i => first - i - 1))
    by (intros i; rewrite HJ, H1; lia).
  rewrite (map_ext (fun x => localDay tz (localMidnight tz vy vm x))
                   (fun i => first + i - 1))
    by (intros i; rewrite HJ, H1; lia).
  rewrite (map_ext (fun x => localDay tz (localMidnight tz vy (vm + 1) x))
                   (fun i => first + dim + i - 1))
    by (intros i; rewrite HJ, H2; lia).
  assert (Hsd : 0 <= startDay < 7) by (apply Z.mod_pos_bound; lia).
  pose proof (daysInMonth_range (InLeapYear vy) (vm + 1)) as Hdim.
  fold dim in Hdim.
  assert (Cs : startDay = 0 \/ startDay = 1 \/ startDay = 2 \/ startDay = 3
               \/ startDay = 4 \/ startDay = 5 \/ startDay = 6) by lia.
  assert (Cd : dim = 28 \/ dim = 29 \/ dim = 30 \/ dim = 31) by lia.
  clearbody startDay dim first. clear - Cs Cd.
  destruct Cs as [->|[->|[->|[->|[->|[->| ->]]]]]];
    destruct Cd as [->|[->|[-> | ->]]];
    repeat match goal with
           | |- context [countUp ?n] =>
               let v := eval vm_compute in (countUp n) in
               change (countUp n) with v
           | |- context [countDown ?n] =>
               let v := eval vm_compute in (countDown n) in
               change (countDown n) with v
           end;
    cbn [map seq app]; repeat (f_equal; try lia).
Qed.

End Grid.

(** The cells before clipping: six full weeks. *)
Lemma gridTimes_cells (tz viewDate : Z) (k : nat) :
  let vy := getFullYear tz viewDate in
  let vm := getMonth tz viewDate in
  let first := MakeDay vy (vm + 1) 1 in
  let startDay := (first + 4) mod 7 in
  let dim := daysInMonth (InLeapYear vy) (vm + 1) in
  let grid := gridTimes tz viewDate in
  let cell := nth k grid 0 in
  ~ 0 <= vy <= 99 ->
  (k < 42)%nat ->
  length grid = 42%nat
  /\ localDay tz cell = first - startDay + Z.of_nat k
  /\ getWeekDay tz cell = Z.of_nat k mod 7
  /\ (getMonth tz cell = vm <-> startDay <= Z.of_nat k < startDay + dim)
  /\ (startDay <= Z.of_nat k < startDay + dim ->
      getFullYear tz cell = vy
      /\ getDate tz cell = Z.of_nat k - startDay + 1).
Proof.
  intros vy vm first startDay dim grid cell Hy Hk.
  pose proof (grid_days tz viewDate Hy) as G. cbv zeta in G.
  fold vy vm first startDay grid in G.
  assert (HL : length grid = 42%nat).
  { rewrite <- (length_map (localDay tz)), G, length_map. apply length_seq. }
  assert (HD : localDay tz cell = first - startDay + Z.of_nat k).
  { unfold cell.
    rewrite <- (map_nth (localDay tz)), G.
    rewrite (nth_indep _ _ (first - startDay + Z.of_nat 0))
      by (rewrite length_map, length_seq; exact Hk).
    rewrite (map_nth (fun i => first - startDay + Z.of_nat i)).
    now rewrite seq_nth by exact Hk. }
  assert (Hvm : 0 <= vm <= 11) by apply MonthFromDay_range.
  pose proof (daysInMonth_range (InLeapYear vy) (vm + 1)) as Hdim.
  fold dim in Hdim.
  assert (Hsd : 0 <= startDay < 7) by (apply Z.mod_pos_bound; lia).
  destruct (civil_of_MakeDay vy (vm + 1) 1) as [F1 [F2 _]].
  { unfold validDate. fold dim. lia. }
  fold first in F1, F2.
  assert (Hin : startDay <= Z.of_nat k < startDay + dim ->
                YearFromDay (localDay tz cell) = vy
                /\ MonthFromDay (localDay tz cell) = vm
                /\ DateFromDay (localDay tz cell) = Z.of_nat k - startDay + 1).
  { intros Hr. rewrite HD.
    replace (first - startDay + Z.of_nat k)
      with (MakeDay vy (vm + 1) (Z.of_nat k - startDay + 1))
      by (unfold first, MakeDay; lia).
    destruct (civil_of_MakeDay vy (vm + 1) (Z.of_nat k - startDay + 1))
      as [A [B C]].
    { unfold validDate. fold dim. lia. }
    rewrite A, B, C. repeat split; lia. }
  split; [exact HL|]. split; [exact HD|]. split; [|split].
  - rewrite getWeekDay_localDay, HD. unfold startDay.
    Z.div_mod_to_equations. lia.
  - rewrite getMonth_localDay. split; [|intros Hr; apply (Hin Hr)].
    intros HM.
    assert (HY : YearFromDay (localDay tz cell) = vy).
    { destruct (Z.lt_trichotomy (YearFromDay (localDay tz cell)) vy)
        as [L|[E|L]]; [|exact E|].
      - pose proof (same_month_other_year (localDay tz cell) first) as Far.
        rewrite F1, F2, HM in Far.
        specialize (Far L ltac:(lia)). rewrite HD in Far. lia.
      - pose proof (same_month_other_year first (localDay tz cell)) as Far.
        rewrite F1, F2, HM in Far.
        specialize (Far L ltac:(lia)). rewrite HD in Far. lia. }
    destruct (MakeDay_of_civil (localDay tz cell)) as [[_ V] E].
    rewrite HY, HM in E, V. fold dim in V.
    rewrite HD in E at 2. unfold MakeDay in E. unfold first, MakeDay in E.
    lia.
  - intros Hr. rewrite getFullYear_localDay, getDate_localDay.
    destruct (Hin Hr) as [A [_ C]]. now split.
Qed.

Section GridRange.

Variable tz : Z.
Hypothesis Htz : -1440 < tz < 1440.

Lemma in_countUp (n i : Z) : In i (countUp n) -> 1 <= i <= n.
Proof.
  unfold countUp. intros H. apply in_map_iff in H.
  destruct H as (j & <- & Hj). apply in_seq in Hj. lia.
Qed.

Lemma in_countDown (n i : Z) : In i (countDown n) -> 0 <= i < n.
Proof.
  unfold countDown. intros H. apply in_rev, in_map_iff in H.
  destruct H as (j & <- & Hj). apply in_seq in Hj. lia.
Qed.

Lemma TimeClip_local_midnight (day : Z) :
  -99999990 <= day <= 99999990 ->
  TimeClip (day * msPerDay - tz * msPerMinute)
  = Some (day * msPerDay - tz * msPerMinute).
Proof.
  intros H. apply TimeClip_in_range. unfold maxTime, msPerDay, msPerMinute. lia.
Qed.

(** From the year -271820 to the year 275759 no date of the grid is
    clipped. *)
Lemma getCalendarGrid_in_range (viewDate : Z) :
  let vy := getFullYear tz viewDate in
  -271820 <= vy <= 275759 -> ~ 0 <= vy <= 99 ->
  getCalendarGrid tz (Some viewDate) = map Some (gridTimes tz viewDate).
Proof.
  intros vy Hr Hy. set (vm := getMonth tz viewDate).
  set (first := MakeDay vy (vm + 1) 1).
  set (dim := daysInMonth (InLeapYear vy) (vm + 1)).
  assert (Hvm : 0 <= vm <= 11) by apply MonthFromDay_range.
  pose proof (daysInMonth_range (InLeapYear vy) (vm + 1)) as Hdim.
  fold dim in Hdim.
  assert (H0 : MakeDayJS vy vm 1 = first).
  { rewrite MakeDayJS_MakeDay.
    now rewrite (Z.div_small vm 12), (Z.mod_small vm 12), Z.add_0_r by lia. }
  assert (H1 : forall d, MakeDayJS vy vm d = first + d - 1).
  { intros d. rewrite <- H0. unfold MakeDayJS. lia. }
  assert (H2 : forall d, MakeDayJS vy (vm + 1) d = first + dim + d - 1).
  { intros d. pose proof (MakeDayJS_next_month vy vm) as N.
    rewrite (Z.div_small vm 12), (Z.mod_small vm 12), Z.add_0_r in N by lia.
    fold dim in N. rewrite H0 in N.
    replace (MakeDayJS vy (vm + 1) d) with (MakeDayJS vy (vm + 1) 1 + d - 1)
      by (unfold MakeDayJS; lia).
    lia. }
  assert (Bf : DayFromYear vy <= first /\ first + dim <= DayFromYear (vy + 1)).
  { pose proof (monthStart_bounds (InLeapYear vy) (vm + 1) dim
                  ltac:(lia) ltac:(fold dim; lia)) as B.
    pose proof (monthStart_bounds (InLeapYear vy) (vm + 1) 1
                  ltac:(lia) ltac:(fold dim; lia)) as B1.
    rewrite DayFromYear_step. unfold first, MakeDay.
    destruct (InLeapYear vy); lia. }
  assert (Blo : -99999900 <= DayFromYear vy).
  { pose proof (DayFromYear_le (-271820) vy ltac:(lia)) as L.
    assert (E : DayFromYear (-271820) = -99999744) by reflexivity. lia. }
  assert (Bhi : DayFromYear (vy + 1) <= 99999900).
  { pose proof (DayFromYear_le (vy + 1) 275760 ltac:(lia)) as L.
    assert (E : DayFromYear 275760 = 99999744) by reflexivity. lia. }
  assert (A : forall d, -50 <= d <= 50 ->
                newDateYMD tz vy vm d = Some (localMidnight tz vy vm d)).
  { intros d Hd. unfold newDateYMD, localMidnight.
    rewrite (fullYear_id vy Hy), H1. apply TimeClip_local_midnight. lia. }
  assert (B : forall d, -50 <= d <= 50 ->
                newDateYMD tz vy (vm + 1) d
                = Some (localMidnight tz vy (vm + 1) d)).
  { intros d Hd. unfold newDateYMD, localMidnight.
    rewrite (fullYear_id vy Hy), H2. apply TimeClip_local_midnight. lia. }
  assert (HJ : forall m d, localDay tz (localMidnight tz vy m d) = MakeDayJS vy m d).
  { intros m d. rewrite (proj1 (localDay_localMidnight tz vy m d)).
    now rewrite (fullYear_id vy Hy). }
  assert (HS : 0 <= getWeekDay tz (localMidnight tz vy vm 1) < 7).
  { rewrite getWeekDay_localDay. apply Z.mod_pos_bound. lia. }
  assert (HE : getDate tz (localMidnight tz vy (vm + 1) 0) = dim).
  { rewrite getDate_localDay, HJ, H2.
    replace (first + dim + 0 - 1) with (MakeDay vy (vm + 1) dim)
      by (unfold first, MakeDay; lia).
    apply (civil_of_MakeDay vy (vm + 1) dim). unfold validDate. fold dim. lia. }
  unfold getCalendarGrid, gridTimes. cbv zeta. fold vy vm.
  rewrite (A 1), (B 0) by lia. rewrite HE.
  set (sd := getWeekDay tz (localMidnight tz vy vm 1)) in *.
  assert (L1 : map (fun i => newDateYMD tz vy vm (- i)) (countDown sd)
               = map Some (map (fun i => localMidnight tz vy vm (- i))
                               (countDown sd))).
  { rewrite map_map. apply map_ext_in. intros i Hi.
    apply in_countDown in Hi. apply A. lia. }
  assert (L2 : map (fun i => newDateYMD tz vy vm i) (countUp dim)
               = map Some (map (fun i => localMidnight tz vy vm i)
                               (countUp dim))).
  { rewrite map_map. apply map_ext_in. intros i Hi.
    apply in_countUp in Hi. apply A. lia. }
  rewrite L1, L2, <- map_app, length_map.
  set (rc := 42 - Z.of_nat (length _)).
  assert (L3 : map (fun i => newDateYMD tz vy (vm + 1) i) (countUp rc)
               = map Some (map (fun i => localMidnight tz vy (vm + 1) i)
                               (countUp rc))).
  { rewrite map_map. apply map_ext_in. intros i Hi.
    apply in_countUp in Hi. apply B. unfold rc in Hi. lia. }
  now rewrite L3, <- map_app.
Qed.

End GridRange.

(** X2.  [getCalendarGrid] yields six full weeks.  Whatever the view
    date, the grid has 42 cells.  For a valid view date in the years
    -271820 to 275759, where no date of the grid falls outside the
    range of time values, on a host less than a day from UTC, the cells
    are valid dates on consecutive local days, cell [k] falling on
    weekday [k mod 7] (so the first cell is a Sunday and the columns
    are the weekdays), and the cells of the viewed month are exactly
    those from [startDay] on, one per day of the month, numbered from
    1; the viewed year is taken outside 0..99, which
    [new Date(y, m, d)] reads as 1900 + y. *)
Theorem calendar_grid_six_weeks (tz viewDate : Z) (k : nat) :
  let vy := getFullYear tz viewDate in
  let vm := getMonth tz viewDate in
  let first := MakeDay vy (vm + 1) 1 in
  let startDay := (first + 4) mod 7 in
  let dim := daysInMonth (InLeapYear vy) (vm + 1) in
  let grid := getCalendarGrid tz (Some viewDate) in
  (forall view : option Z, length (getCalendarGrid tz view) = 42%nat)
  /\ (-1440 < tz < 1440 ->
      -271820 <= vy <= 275759 ->
      ~ 0 <= vy <= 99 ->
      (k < 42)%nat ->
      exists cell,
        nth k grid None = Some cell
        /\ localDay tz cell = first - startDay + Z.of_nat k
        /\ getWeekDay tz cell = Z.of_nat k mod 7
        /\ (getMonth tz cell = vm <-> startDay <= Z.of_nat k < startDay + dim)
        /\ (startDay <= Z.of_nat k < startDay + dim ->
            getFullYear tz cell = vy
            /\ getDate tz cell = Z.of_nat k - startDay + 1)).
Proof.
  intros vy vm first startDay dim grid.
  split; [apply getCalendarGrid_length|].
  intros Htz Hr Hy Hk.
  destruct (gridTimes_cells tz viewDate k Hy Hk) as (HL & HD & HW & HM & HF).
  unfold grid. rewrite (getCalendarGrid_in_range tz Htz viewDate Hr Hy).
  exists (nth k (gridTimes tz viewDate) 0). split.
  - rewrite (nth_indep _ None (Some 0)) by (rewrite length_map, HL; exact Hk).
    apply (map_nth Some).
  - split; [exact HD|]. split; [exact HW|]. split; [exact HM | exact HF].
Qed.

Lemma calendar_grid_six_weeks_witness :
  length (getCalendarGrid 0 (Some 8640000000000000)) = 42%nat
  /\ exists cell,
       nth 5 (getCalendarGrid 330 (Some 1709712000000)) None = Some cell
       /\ getWeekDay 330 cell = 5
       /\ getDate 330 cell = 1.
Proof.
  pose proof (calendar_grid_six_weeks 330 1709712000000 5) as H.
  cbv zeta in H. destruct H as [_ H].
  assert (Hr : -271820 <= getFullYear 330 1709712000000 <= 275759)
    by (vm_compute; split; discriminate).
  assert (Hy : ~ 0 <= getFullYear 330 1709712000000 <= 99)
    by (intros [_ H']; vm_compute in H'; now apply H').
  destruct (H ltac:(lia) Hr Hy ltac:(lia))
    as (cell & N & _ & W & _ & D).
  split.
  - exact (proj1 (calendar_grid_six_weeks 0 8640000000000000 0)
                 (Some 8640000000000000)).
  - exists cell. split; [exact N|]. split; [exact W|].
    apply D. vm_compute. split; [discriminate | reflexivity].
Defined.

(** The last month of the range of time values, September 275760: the
    month ends after the last time value, so the grid has its leading
    cells and no cell of the month, and the cells that follow are
    invalid dates. *)
Example calendar_grid_last_month :
  let grid := getCalendarGrid 0 (Some 8640000000000000) in
  length grid = 42%nat
  /\ option_map formatDateKey (nth 0 grid None) = Some "+275760-08-31"
  /\ nth 1 grid (Some 0) = None
  /\ nth 41 grid (Some 0) = None.
Proof. cbv zeta. repeat split; vm_compute; reflexivity. Qed.

Section KeyRoundTrip.

Lemma formatDateKey_civil (t : Z) :
  formatDateKey t
  = dateKeyOf (YearFromDay (Day t)) (MonthFromDay (Day t) + 1)
              (DateFromDay (Day t)).
Proof.
  unfold dateKeyOf. destruct (MakeDay_of_civil (Day t)) as [_ E].
  unfold formatDateKey at 2.
  replace (Day (MakeDay (YearFromDay (Day t)) (MonthFromDay (Day t) + 1)
                        (DateFromDay (Day t)) * msPerDay))
    with (Day t); [reflexivity|].
  rewrite E. unfold Day at 2. symmetry. apply Z.div_mul.
  unfold msPerDay. lia.
Qed.

Lemma parse_dateKeyOf (y m d : Z) :
  0 <= y <= 9999 -> validDate y m d ->
  parseCalendarKey (dateKeyOf y m d) = Some (y, m, d).
Proof.
  intros Hy Hv. rewrite (dateKeyOf_text y m d Hy Hv).
  destruct Hv as [Hm Hd].
  pose proof (daysInMonth_range (InLeapYear y) m) as R.
  rewrite parseCalendarKey_keyText
    by (try (apply Z.mod_pos_bound; lia); Z.div_mod_to_equations; lia).
  cbv zeta.
  replace (1000 * (y / 1000 mod 10) + 100 * (y / 100 mod 10)
           + 10 * (y / 10 mod 10) + y mod 10) with y
    by (Z.div_mod_to_equations; lia).
  replace (10 * (m / 10) + m mod 10) with m by (Z.div_mod_to_equations; lia).
  replace (10 * (d / 10) + d mod 10) with d by (Z.div_mod_to_equations; lia).
  replace ((1 <=? m) && (m <=? 12) && (1 <=? d)
           && (d <=? daysInMonth (InLeapYear y) m)) with true; [reflexivity|].
  symmetry. rewrite !andb_true_iff, !Z.leb_le. lia.
Qed.

Lemma dateKeyOf_parse (s : string) (y m d : Z) :
  parseCalendarKey s = Some (y, m, d) -> dateKeyOf y m d = s.
Proof.
  intros P.
  destruct (parseCalendarKey_inv _ _ _ _ P)
    as (a & b & c & e & f & g & h & i & -> & Y & M & Ey & Em & Ed & V).
  rewrite dateKeyOf_text by (try assumption; lia).
  subst y m d. f_equal; Z.div_mod_to_equations; lia.
Qed.

Lemma parseCalendarKey_parseDateKey (s : string) (y m d : Z) :
  parseCalendarKey s = Some (y, m, d) -> parseDateKey s = Some (y, m, d).
Proof.
  unfold parseCalendarKey, parseDateKey.
  destruct s as [|y1 [|y2 [|y3 [|y4 [|h1 [|m1 [|m2 [|h2 [|d1 [|d2 [|x s]]]]]]]]]]];
    try discriminate.
  destruct (digitVal y1), (digitVal y2), (digitVal y3), (digitVal y4),
    (digitVal m1), (digitVal m2), (digitVal d1), (digitVal d2);
    try discriminate.
  cbv zeta.
  match goal with
  | |- (if ?c then _ else _) = _ -> _ => destruct c eqn:C; [|discriminate]
  end.
  intros E. rewrite !andb_true_iff, !Z.leb_le in C.
  destruct C as (((((H1 & H2) & M1) & M2) & D1) & D2).
  rewrite H1, H2. cbn [andb].
  match type of D2 with
  | _ <= daysInMonth ?l ?mm => pose proof (daysInMonth_range l mm) as R
  end.
  match goal with
  | |- (if ?c then _ else _) = _ =>
      replace c with true
        by (symmetry; rewrite andb_true_iff, !Z.leb_le; lia)
  end.
  match goal with
  | |- (if ?c then _ else _) = _ =>
      replace c with true
        by (symmetry; rewrite andb_true_iff, !Z.leb_le; lia)
  end.
  exact E.
Qed.

Lemma parseDateKey_range (s : string) (y m d : Z) :
  parseDateKey s = Some (y, m, d) ->
  0 <= y <= 9999 /\ 1 <= m <= 12 /\ 1 <= d <= 31.
Proof.
  unfold parseDateKey.
  destruct s as [|y1 [|y2 [|y3 [|y4 rest]]]]; try discriminate.
  destruct (digitVal y1) as [a|] eqn:A; [|discriminate].
  destruct (digitVal y2) as [b|] eqn:B; [|discriminate].
  destruct (digitVal y3) as [c|] eqn:C; [|discriminate].
  destruct (digitVal y4) as [e|] eqn:E; [|discriminate].
  apply digitVal_inv in A, B, C, E. cbv zeta.
  destruct rest as [|h1 [|m1 [|m2 rest]]]; try discriminate.
  - intros H. inversion H; subst. lia.
  - destruct (digitVal m1) as [f|] eqn:F; [|discriminate].
    destruct (digitVal m2) as [g|] eqn:G; [|discriminate].
    destruct (isHyphen h1 && (1 <=? 10 * f + g) && (10 * f + g <=? 12)) eqn:M;
      [|discriminate].
    rewrite !andb_true_iff, !Z.leb_le in M.
    destruct rest as [|h2 [|d1 [|d2 [|x rest]]]]; try discriminate.
    + intros H. inversion H; subst. lia.
    + destruct (digitVal d1) as [h|] eqn:Hh; [|discriminate].
      destruct (digitVal d2) as [i|] eqn:Hi; [|discriminate].
      destruct (isHyphen h2 && (1 <=? 10 * h + i) && (10 * h + i <=? 31)) eqn:D;
        [|discriminate].
      rewrite !andb_true_iff, !Z.leb_le in D.
      intros H. inversion H; subst. lia.
Qed.

(** A day of the month up to 31 stays within the year. *)
Lemma YearFromDay_MakeDay_rolled (y m d : Z) :
  1 <= m <= 12 -> 1 <= d <= 31 -> YearFromDay (MakeDay y m d) = y.
Proof.
  intros Hm Hd. apply YearFromDay_unique. unfold MakeDay.
  rewrite DayFromYear_step.
  assert (C : m = 1 \/ m = 2 \/ m = 3 \/ m = 4 \/ m = 5 \/ m = 6 \/ m = 7
              \/ m = 8 \/ m = 9 \/ m = 10 \/ m = 11 \/ m = 12) by lia.
  destruct (InLeapYear y);
    repeat (destruct C as [->|C]; [simpl; lia|]); subst; simpl; lia.
Qed.

End KeyRoundTrip.

Lemma calendarDate_newDate (s : string) (t : Z) :
  calendarDate s = Some t -> newDate s = Some t.
Proof.
  unfold calendarDate, newDate.
  destruct (parseCalendarKey s) as [[[y m] d]|] eqn:P; [|discriminate].
  now rewrite (parseCalendarKey_parseDateKey s y m d P).
Qed.

Lemma newDate_dateKeyOf (y m d : Z) :
  0 <= y <= 9999 -> validDate y m d ->
  newDate (dateKeyOf y m d) = Some (MakeDay y m d * msPerDay).
Proof.
  intros Hy Hv. apply calendarDate_newDate. unfold calendarDate.
  now rewrite (parse_dateKeyOf y m d Hy Hv).
Qed.

Lemma calendarDate_formatDateKey (t : Z) :
  0 <= YearFromDay (Day t) <= 9999 ->
  calendarDate (formatDateKey t) = Some (Day t * msPerDay).
Proof.
  intros Hy. rewrite formatDateKey_civil. unfold calendarDate.
  destruct (MakeDay_of_civil (Day t)) as [V E].
  rewrite (parse_dateKeyOf _ _ _ Hy V). now rewrite E.
Qed.

Lemma newDate_formatDateKey (t : Z) :
  0 <= YearFromDay (Day t) <= 9999 ->
  newDate (formatDateKey t) = Some (Day t * msPerDay).
Proof.
  intros Hy. apply calendarDate_newDate. now apply calendarDate_formatDateKey.
Qed.

Lemma formatDateKey_calendarDate (s : string) (t : Z) :
  calendarDate s = Some t -> formatDateKey t = s.
Proof.
  unfold calendarDate.
  destruct (parseCalendarKey s) as [[[y m] d]|] eqn:P; [|discriminate].
  intros H. inversion H; subst. clear H.
  exact (dateKeyOf_parse s y m d P).
Qed.

(** The date of a key the engine reads lies in the years 0 to 9999
    and on a day boundary. *)
Lemma newDate_year (s : string) (t : Z) :
  newDate s = Some t ->
  0 <= YearFromDay (Day t) <= 9999 /\ Day t * msPerDay = t.
Proof.
  unfold newDate.
  destruct (parseDateKey s) as [[[y m] d]|] eqn:P; [|discriminate].
  intros H. inversion H; subst. clear H.
  destruct (parseDateKey_range s y m d P) as (Hy & Hm & Hd).
  assert (E : Day (MakeDay y m d * msPerDay) = MakeDay y m d).
  { unfold Day. apply Z.div_mul. unfold msPerDay. lia. }
  rewrite E, (YearFromDay_MakeDay_rolled y m d Hm Hd). now split.
Qed.

Lemma newDate_normal (s : string) (t : Z) :
  newDate s = Some t -> newDate (formatDateKey t) = Some t.
Proof.
  intros H. destruct (newDate_year s t H) as [Hy E].
  rewrite (newDate_formatDateKey t Hy). now rewrite E.
Qed.

Lemma key_returns_iff_calendar (s : string) (t : Z) :
  newDate s = Some t -> (formatDateKey t = s <-> isCalendarKey s = true).
Proof.
  intros H. destruct (newDate_year s t H) as [Hy E]. split.
  - intros <-. unfold isCalendarKey.
    pose proof (calendarDate_formatDateKey t Hy) as C.
    unfold calendarDate in C.
    now destruct (parseCalendarKey (formatDateKey t)).
  - unfold isCalendarKey. intros C.
    destruct (parseCalendarKey s) as [[[y m] d]|] eqn:P; [|discriminate].
    apply formatDateKey_calendarDate. unfold calendarDate. rewrite P.
    unfold newDate in H. rewrite (parseCalendarKey_parseDateKey s y m d P) in H.
    exact H.
Qed.

(** X3.  Date keys and time values round-trip as far as the key names
    a calendar date.  For a time value in the years 0 to 9999,
    [new Date(formatDateKey(date))] is midnight UTC of the same day.
    For a text that [new Date] reads, the key of the date read is read
    as the same date again, and it is the text itself exactly when the
    text is YYYY-MM-DD with a day that the month has: [new Date] also
    reads a day up to 31 in a shorter month, as a day of the next
    month, and the key of that date is another text. *)
Theorem date_key_round_trip :
  (forall t,
      0 <= YearFromDay (Day t) <= 9999 ->
      newDate (formatDateKey t) = Some (Day t * msPerDay))
  /\ (forall s t,
        newDate s = Some t ->
        newDate (formatDateKey t) = Some t
        /\ (formatDateKey t = s <-> isCalendarKey s = true)).
Proof.
  split; [exact newDate_formatDateKey|].
  intros s t H. split.
  - exact (newDate_normal s t H).
  - exact (key_returns_iff_calendar s t H).
Qed.

Lemma date_key_round_trip_witness :
  newDate (formatDateKey 1709715723000) = Some (Day 1709715723000 * msPerDay)
  /\ newDate "2024-02-30" = Some 1709251200000
  /\ formatDateKey 1709251200000 = "2024-03-01"
  /\ formatDateKey 1709251200000 <> "2024-02-30".
Proof.
  destruct date_key_round_trip as [H1 H2]. split; [|split; [|split]].
  - apply H1. vm_compute. split; discriminate.
  - reflexivity.
  - apply (proj2 (H2 "2024-03-01" 1709251200000 eq_refl)). reflexivity.
  - intros E.
    apply (proj2 (H2 "2024-02-30" 1709251200000 eq_refl)) in E. discriminate.
Defined.

(** X4.  On well-formed keys (keys that name a calendar date) the
    string comparison of the range rule is the calendar: an alarm whose
    only rule is a date range matches a date exactly when the date lies
    between the two ends, both included; a range whose end precedes its
    start matches nothing. *)
Theorem date_range_follows_calendar
  (tz : Z) (a : Alarm) (r : DateRange) (dateKey : string) (tf tt td : Z)
  (Hs : specificDates a = None)
  (Hw : repeatDays a = None)
  (Hr : dateRange a = Some r)
  (Hf : calendarDate (from r) = Some tf)
  (Ht : calendarDate (to r) = Some tt)
  (Hd : calendarDate dateKey = Some td) :
  (isAlarmOnDate tz a dateKey = true <-> tf <= td <= tt)
  /\ (tt < tf -> isAlarmOnDate tz a dateKey = false).
Proof.
  assert (I : isAlarmOnDate tz a dateKey = true <-> tf <= td <= tt).
  { rewrite isAlarmOnDate_orb.
    unfold onSpecificDate, inDateRange, onRepeatDay. rewrite Hs, Hw, Hr.
    rewrite orb_false_r. simpl. unfold calendarDate in Hf, Ht, Hd.
    destruct (parseCalendarKey (from r)) as [[[y1 m1] d1]|] eqn:P1; [|discriminate].
    destruct (parseCalendarKey (to r)) as [[[y2 m2] d2]|] eqn:P2; [|discriminate].
    destruct (parseCalendarKey dateKey) as [[[y m] d]|] eqn:P; [|discriminate].
    inversion Hf; inversion Ht; inversion Hd; subst. clear Hf Ht Hd.
    pose proof (str_ltb_calendar _ _ _ _ _ _ _ _ P P1) as L1.
    pose proof (str_ltb_calendar _ _ _ _ _ _ _ _ P2 P) as L2.
    unfold str_leb. rewrite andb_true_iff, !negb_true_iff.
    unfold msPerDay.
    destruct (str_ltb dateKey (from r)); destruct (str_ltb (to r) dateKey);
      split; intros H; try (destruct H; discriminate);
      try (split; reflexivity); lia. }
  split; [exact I|].
  intros Hlt. destruct (isAlarmOnDate tz a dateKey); [|reflexivity].
  destruct I as [I _]. specialize (I eq_refl). lia.
Qed.

Lemma date_range_follows_calendar_witness :
  isAlarmOnDate (-300) marchWeek "2024-02-29" = true
  /\ isAlarmOnDate (-300) marchWeek "2024-03-04" = false.
Proof.
  pose proof (date_range_follows_calendar (-300) marchWeek
                {| from := "2024-02-26"; to := "2024-03-03" |} "2024-02-29"
                1708905600000 1709424000000 1709164800000
                eq_refl eq_refl eq_refl eq_refl eq_refl eq_refl) as [H _].
  pose proof (date_range_follows_calendar (-300) marchWeek
                {| from := "2024-02-26"; to := "2024-03-03" |} "2024-03-04"
                1708905600000 1709424000000 1709510400000
                eq_refl eq_refl eq_refl eq_refl eq_refl eq_refl) as [[G _] _].
  split.
  - apply H. lia.
  - destruct (isAlarmOnDate (-300) marchWeek "2024-03-04"); [|reflexivity].
    specialize (G eq_refl). lia.
Defined.

(** X5.  An alarm whose repeat days are seven distinct weekdays, the one
    the card labels "Daily Synchronization", matches every date with a
    well-formed key, on every host. *)
Theorem daily_alarm_matches_every_date
  (tz : Z) (a : Alarm) (l : list Z) (dateKey : string) (t : Z)
  (Hl : repeatDays a = Some l)
  (Hnd : List.NoDup l)
  (Hrange : forall w, In w l -> 0 <= w <= 6)
  (Hlen : length l = 7%nat)
  (Hvalid : newDate dateKey = Some t) :
  isAlarmOnDate tz a dateKey = true
  /\ getScheduleLabel a = "Daily Synchronization".
Proof.
  split.
  - apply isAlarmOnDate_cases. right. right.
    exists l, (WeekDay (t + tz * msPerMinute)).
    split; [exact Hl|]. split; [now rewrite Hvalid|].
    assert (I : incl [0; 1; 2; 3; 4; 5; 6] l).
    { apply List.NoDup_length_incl; [exact Hnd | rewrite Hlen; simpl; lia |].
      intros w Hw. specialize (Hrange w Hw).
      assert (C : w = 0 \/ w = 1 \/ w = 2 \/ w = 3 \/ w = 4 \/ w = 5 \/ w = 6)
        by lia.
      repeat (destruct C as [->|C]; [simpl; tauto|]). subst. simpl. tauto. }
    apply I. unfold WeekDay.
    pose proof (Z.mod_pos_bound ((t + tz * msPerMinute) / msPerDay + 4) 7
                  ltac:(lia)) as B.
    set (w := ((t + tz * msPerMinute) / msPerDay + 4) mod 7) in *.
    assert (C : w = 0 \/ w = 1 \/ w = 2 \/ w = 3 \/ w = 4 \/ w = 5 \/ w = 6)
      by lia.
    clearbody w.
    repeat (destruct C as [->|C]; [simpl; tauto|]). subst. simpl. tauto.
  - unfold getScheduleLabel. now rewrite Hl, Hlen.
Qed.

Lemma daily_alarm_matches_every_date_witness :
  isAlarmOnDate (-480) everyDay "2023-12-31" = true.
Proof.
  refine (proj1 (daily_alarm_matches_every_date (-480) everyDay
                   [1; 2; 3; 4; 5; 6; 0] "2023-12-31" _ eq_refl _ _ eq_refl
                   eq_refl)).
  - repeat constructor; simpl; intuition discriminate.
  - intros w H. simpl in H. lia.
Defined.

Lemma year_in_time_range (t : Z) :
  0 <= YearFromDay (Day t) <= 9999 -> - maxTime <= t <= maxTime.
Proof.
  intros Hy. pose proof (YearFromDay_spec (Day t)) as S.
  pose proof (DayFromYear_le 0 (YearFromDay (Day t)) ltac:(lia)) as L.
  pose proof (DayFromYear_le (YearFromDay (Day t) + 1) 10000 ltac:(lia)) as U.
  assert (E0 : DayFromYear 0 = -719528) by reflexivity.
  assert (E1 : DayFromYear 10000 = 2932897) by reflexivity.
  unfold Day, msPerDay, maxTime in *. Z.div_mod_to_equations. lia.
Qed.

(** X6.  The key of a local midnight, as the calendar computes it for
    its cells: on a host at or west of Greenwich it is the key of that
    local day, on a host east of Greenwich the key of the day before. *)
Theorem local_midnight_key (tz year month date : Z)
  (Htz : -1440 < tz <= 1440)
  (Hy : 0 <= YearFromDay (Day (localMidnight tz year month date)) <= 9999) :
  exists t,
    newDateYMD tz year month date = Some t
    /\ newDate (formatDateKey t)
       = Some ((localDay tz t - (if 0 <? tz then 1 else 0)) * msPerDay).
Proof.
  exists (localMidnight tz year month date). split.
  - apply TimeClip_in_range. now apply year_in_time_range.
  - rewrite (newDate_formatDateKey _ Hy). f_equal. f_equal.
    rewrite (proj1 (localDay_localMidnight tz year month date)).
    unfold Day, localMidnight.
    set (D := MakeDayJS (fullYear year) month date).
    unfold msPerDay, msPerMinute.
    destruct (Z.ltb_spec 0 tz).
    + symmetry. apply Z.div_unique with (r := 86400000 - tz * 60000); lia.
    + symmetry. apply Z.div_unique with (r := - tz * 60000); lia.
Qed.

Lemma local_midnight_key_witness :
  exists t,
    newDateYMD 330 2024 2 1 = Some t
    /\ newDate (formatDateKey t)
       = Some ((localDay 330 t - (if 0 <? 330 then 1 else 0)) * msPerDay).
Proof.
  apply (local_midnight_key 330 2024 2 1); [lia|].
  vm_compute. split; discriminate.
Defined.

(** On a host at UTC+5:30 the cell of 1 March 2024 gets the key of 29
    February; five hours west of UTC it gets its own. *)
Example local_midnight_key_east_and_west :
  option_map formatDateKey (newDateYMD 330 2024 2 1) = Some "2024-02-29"
  /\ option_map formatDateKey (newDateYMD (-300) 2024 2 1) = Some "2024-03-01".
Proof. split; reflexivity. Qed.

Lemma getDaysInMonth_lists_the_month_witness :
  option_map (@length Z) (getDaysInMonth 60 2024 1) = Some 29%nat
  /\ getDaysInMonth 0 300000 0 = Some []
  /\ option_map (@length Z) (getDaysInMonth 0 275760 8) = Some 13%nat
  /\ getDaysInMonth 60 2024 12 = Some [].
Proof.
  destruct (getDaysInMonth_lists_the_month 60 2024 1) as [H _].
  destruct (getDaysInMonth_lists_the_month 0 300000 0) as [H1 _].
  destruct (getDaysInMonth_lists_the_month 0 275760 8) as [H2 _].
  destruct (getDaysInMonth_lists_the_month 60 2024 12) as [_ [_ G]].
  cbv zeta in *. split; [|split; [|split]].
  - rewrite H by lia. reflexivity.
  - rewrite H1 by lia. reflexivity.
  - rewrite H2 by lia. reflexivity.
  - apply G. lia.
Defined.

(** ** Time display *)

Section TimeDisplay.

Lemma in_countFrom0 (n : nat) (x : Z) :
  0 <= x < Z.of_nat n -> In x (map Z.of_nat (seq 0 n)).
Proof.
  intros H. apply in_map_iff. exists (Z.to_nat x). split; [lia|].
  apply in_seq. lia.
Qed.

Lemma allTimes_complete (h m : Z) :
  0 <= h < 24 -> 0 <= m < 60 -> In (h, m) allTimes.
Proof.
  intros Hh Hm. unfold allTimes. apply in_prod.
  - now apply (in_countFrom0 24).
  - now apply (in_countFrom0 60).
Qed.

Lemma nodupb_NoDup (l : list string) : nodupb l = true -> List.NoDup l.
Proof.
  induction l as [|x r IH]; simpl; intros H; [constructor|].
  apply andb_true_iff in H. destruct H as [H1 H2].
  constructor; [|now apply IH].
  intros I. apply negb_true_iff in H1.
  assert (E : existsb (String.eqb x) r = true).
  { apply existsb_exists. exists x. split; [exact I|apply String.eqb_refl]. }
  congruence.
Qed.

Lemma NoDup_map_inj {A B : Type} (f : A -> B) (l : list A) (x y : A) :
  List.NoDup (map f l) -> In x l -> In y l -> f x = f y -> x = y.
Proof.
  induction l as [|a r IH]; simpl; intros N Ix Iy E; [contradiction|].
  inversion N as [|? ? Na Nr]; subst.
  destruct Ix as [->|Ix], Iy as [->|Iy]; auto.
  - exfalso. apply Na. rewrite E. now apply in_map.
  - exfalso. apply Na. rewrite <- E. now apply in_map.
Qed.

Lemma displayOf_all :
  forallb (fun hm =>
             String.eqb (displayOf hm) (display12 hm)
             && String.eqb (formatTimeDisplay (clockTime (fst hm) (snd hm)) true)
                           (clockTime (fst hm) (snd hm)))
          allTimes = true.
Proof. vm_compute. reflexivity. Qed.

Lemma displayOf_nodup : List.NoDup (map displayOf allTimes).
Proof. apply nodupb_NoDup. vm_compute. reflexivity. Qed.

End TimeDisplay.

Lemma formatTimeDisplay_clockTime (h m : Z) (use24Hour : bool) :
  0 <= h < 24 -> 0 <= m < 60 ->
  formatTimeDisplay (clockTime h m) use24Hour
  = if use24Hour then clockTime h m else display12 (h, m).
Proof.
  intros Hh Hm.
  pose proof (allTimes_complete h m Hh Hm) as I.
  pose proof displayOf_all as A.
  rewrite forallb_forall in A. specialize (A _ I).
  apply andb_true_iff in A. destruct A as [A1 A2].
  apply String.eqb_eq in A1, A2. destruct use24Hour; [exact A2 | exact A1].
Qed.

(** X7.  For every time of day written as the time input writes it
    (two digits, a colon, two digits), the 12-hour display is the hour
    modulo 12 (12 for 0), the unchanged minute text and AM before noon,
    PM from noon; the 24-hour display is the text itself. *)
Theorem formatTimeDisplay_clock (h m : Z) :
  0 <= h < 24 -> 0 <= m < 60 ->
  formatTimeDisplay (clockTime h m) false
    = toString (if h mod 12 =? 0 then 12 else h mod 12) +:+ ":" +:+
      padStart2 (toString m) +:+ " " +:+ (if h <? 12 then "AM" else "PM")
  /\ formatTimeDisplay (clockTime h m) true = clockTime h m.
Proof.
  intros Hh Hm. split.
  - exact (formatTimeDisplay_clockTime h m false Hh Hm).
  - exact (formatTimeDisplay_clockTime h m true Hh Hm).
Qed.

Lemma formatTimeDisplay_clock_witness :
  formatTimeDisplay "00:05" false = "12:05 AM"
  /\ formatTimeDisplay "00:05" true = "00:05".
Proof.
  exact (formatTimeDisplay_clock 0 5 ltac:(lia) ltac:(lia)).
Defined.

(** X8.  Two different times of day never share a 12-hour display. *)
Theorem formatTimeDisplay_distinct (h1 m1 h2 m2 : Z) :
  0 <= h1 < 24 -> 0 <= m1 < 60 -> 0 <= h2 < 24 -> 0 <= m2 < 60 ->
  (h1, m1) <> (h2, m2) ->
  formatTimeDisplay (clockTime h1 m1) false
  <> formatTimeDisplay (clockTime h2 m2) false.
Proof.
  intros H1 M1 H2 M2 N E. apply N.
  apply (NoDup_map_inj displayOf allTimes).
  - exact displayOf_nodup.
  - now apply allTimes_complete.
  - now apply allTimes_complete.
  - exact E.
Qed.

Lemma formatTimeDisplay_distinct_witness :
  formatTimeDisplay "07:30" false <> formatTimeDisplay "19:30" false.
Proof.
  apply (formatTimeDisplay_distinct 7 30 19 30); try lia. discriminate.
Defined.

(** ** The alarm list and its handlers *)

Section ListHandlers.

Variable h : Host.
Variable now : Now.

Lemma find_after_filter {A : Type} (p q : A -> bool) (l : list A) :
  find p (List.filter q l) = find (fun x => q x && p x) l.
Proof.
  induction l as [|x r IH]; [reflexivity|]. simpl.
  destruct (q x); simpl; [destruct (p x); auto | exact IH].
Qed.

Lemma find_ext_in {A : Type} (p q : A -> bool) (l : list A) :
  (forall x, In x l -> p x = q x) -> find p l = find q l.
Proof.
  induction l as [|x r IH]; intros E; [reflexivity|]. simpl.
  rewrite (E x (or_introl eq_refl)). destruct (q x); [reflexivity|].
  apply IH. intros y Iy. apply E. now right.
Qed.

Lemma toggled_toggled (a : Alarm) : App.toggled (App.toggled a) = a.
Proof. destruct a. unfold App.toggled. simpl. now rewrite negb_involutive. Qed.

Lemma onToggle_ids (i : string) (l : list Alarm) :
  map id (App.onToggle i l) = map id l.
Proof.
  unfold App.onToggle. rewrite map_map. apply map_ext. intros a.
  now destruct (str_eqb (id a) i).
Qed.

Lemma insertByTime_find (cmp : string -> string -> Z) (a : Alarm)
      (l : list Alarm) :
  cmp (currentTimeStr now) (currentTimeStr now) <= 0 ->
  find (isCandidate h now) (insertByTime cmp a l)
  = if isCandidate h now a then Some a else find (isCandidate h now) l.
Proof.
  intros R. induction l as [|b r IH]; simpl.
  - now destruct (isCandidate h now a).
  - destruct (cmp (time a) (time b) <=? 0) eqn:C; simpl.
    + reflexivity.
    + rewrite IH. destruct (isCandidate h now b) eqn:Pb; [|reflexivity].
      destruct (isCandidate h now a) eqn:Pa; [|reflexivity].
      apply isCandidate_iff in Pa, Pb.
      destruct Pa as (_ & Ta & _), Pb as (_ & Tb & _).
      rewrite Ta, Tb in C. apply Z.leb_gt in C. lia.
Qed.

Lemma insertByTime_perm (cmp : string -> string -> Z) (a : Alarm)
      (l : list Alarm) (x : Alarm) :
  In x (insertByTime cmp a l) <-> x = a \/ In x l.
Proof.
  induction l as [|b r IH]; simpl.
  - intuition.
  - destruct (cmp (time a) (time b) <=? 0); simpl; [intuition|].
    rewrite IH. intuition.
Qed.

Lemma sortByTime_in (cmp : string -> string -> Z) (l : list Alarm) (x : Alarm) :
  In x (sortByTime cmp l) <-> In x l.
Proof.
  induction l as [|a r IH]; simpl; [tauto|].
  rewrite insertByTime_perm, IH. intuition.
Qed.

End ListHandlers.

(** X9.  Toggling the same alarm twice restores the list, and a toggle
    never changes the ids or their order. *)
Theorem onToggle_twice_restores (i : string) (l : list Alarm) :
  App.onToggle i (App.onToggle i l) = l
  /\ map id (App.onToggle i l) = map id l.
Proof.
  split; [|apply onToggle_ids].
  unfold App.onToggle. rewrite map_map.
  rewrite <- (map_id l) at 2. apply map_ext. intros a.
  destruct (str_eqb (id a) i) eqn:E.
  - change (id (App.toggled a)) with (id a). rewrite E. apply toggled_toggled.
  - now rewrite E.
Qed.

(** X10.  Where ids are unique, switching an enabled alarm off with the
    toggle keeps the tick from finding it, whatever the time. *)
Theorem toggled_off_never_found (h : Host) (now : Now) (l : list Alarm)
        (a t : Alarm) :
  In a l -> isEnabled a = true -> List.NoDup (map id l) ->
  findTriggered h (App.onToggle (id a) l) now = Some t ->
  id t <> id a.
Proof.
  intros Ia En Nd F Eid.
  apply findTriggered_candidate in F. destruct F as [It Ct].
  unfold App.onToggle in It. apply in_map_iff in It.
  destruct It as (x & Ex & Ix).
  destruct (str_eqb (id x) (id a)) eqn:E.
  - apply String.eqb_eq in E.
    assert (x = a) by (apply (NoDup_map_inj id l); assumption).
    subst x t. apply isCandidate_iff in Ct. destruct Ct as (Ct & _).
    simpl in Ct. rewrite En in Ct. discriminate.
  - subst x. apply String.eqb_neq in E. contradiction.
Qed.

Lemma toggled_off_never_found_witness :
  findTriggered utcHost (App.onToggle "a1" [wakeUp; workout]) wed0800
  = Some workout
  /\ id workout <> "a1".
Proof.
  split; [reflexivity|].
  apply (toggled_off_never_found utcHost wed0800 [wakeUp; workout] wakeUp
           workout).
  - simpl. now left.
  - reflexivity.
  - repeat constructor; simpl; intuition discriminate.
  - reflexivity.
Defined.

(** X11.  Deleting an id removes exactly the alarms with that id and keeps
    the others in order; the tick then never finds the deleted id, and
    finds the same alarm as before unless that one was deleted. *)
Theorem onDelete_spec (h : Host) (now : Now) (i : string) (l : list Alarm) :
  (forall x, In x (App.onDelete i l) <-> In x l /\ id x <> i)
  /\ (forall t, findTriggered h (App.onDelete i l) now = Some t -> id t <> i)
  /\ (forall t, findTriggered h l now = Some t -> id t <> i ->
                findTriggered h (App.onDelete i l) now = Some t).
Proof.
  assert (M : forall x, In x (App.onDelete i l) <-> In x l /\ id x <> i).
  { intros x. unfold App.onDelete. rewrite filter_In, negb_true_iff.
    unfold str_eqb. rewrite String.eqb_neq. tauto. }
  split; [exact M|]. split.
  - intros t F. apply findTriggered_candidate in F. now apply M.
  - intros t F N. unfold findTriggered, App.onDelete in *.
    rewrite find_after_filter.
    revert F. induction l as [|x r IH]; simpl; [discriminate|].
    destruct (isCandidate h now x) eqn:C.
    + intros [= ->]. apply String.eqb_neq in N. unfold str_eqb. now rewrite N.
    + rewrite andb_false_r. apply IH.
      intros y. unfold App.onDelete. rewrite filter_In, negb_true_iff.
      unfold str_eqb. rewrite String.eqb_neq. tauto.
Qed.

(** X12.  A newly saved alarm, appended to the list, never takes the place
    of an alarm the tick already finds; it is found only when no
    earlier alarm matches. *)
Theorem added_alarm_never_preempts (h : Host) (now : Now) (newId : string)
        (d : Draft.t) (l : list Alarm) :
  findTriggered h (App.onSave None newId d l) now
  = match findTriggered h l now with
    | Some t => Some t
    | None => if isCandidate h now (withId newId d)
              then Some (withId newId d) else None
    end.
Proof.
  unfold findTriggered. simpl.
  induction l as [|x r IH]; simpl; [reflexivity|].
  destruct (isCandidate h now x); [reflexivity | exact IH].
Qed.

(** X13.  Saving an edit keeps the ids and their order, leaves the alarms
    with other ids as they were, and the alarm edited through the modal
    comes back enabled with the form's time. *)
Theorem edit_keeps_ids_and_enables (e : Alarm) (newId : string)
        (f : ModalV2.Form) (l : list Alarm) :
  let l' := App.onSave (Some e) newId (ModalV2.handleSave f) l in
  map id l' = map id l
  /\ (forall x, In x l' -> id x = id e ->
                isEnabled x = true /\ time x = ModalV2.time f)
  /\ (forall x, id x <> id e -> (In x l' <-> In x l)).
Proof.
  simpl. split; [|split].
  - rewrite map_map. apply map_ext. intros a.
    now destruct (str_eqb (id a) (id e)).
  - intros x Ix Ex. apply in_map_iff in Ix. destruct Ix as (c & <- & Ic).
    destruct (str_eqb (id c) (id e)) eqn:E; [now split|].
    apply String.eqb_neq in E. contradiction.
  - intros x N. rewrite in_map_iff. split.
    + intros (c & <- & Ic).
      destruct (str_eqb (id c) (id e)) eqn:E; [|exact Ic].
      apply String.eqb_eq in E. simpl in N. contradiction.
    + intros Ix. exists x. split; [|exact Ix].
      apply String.eqb_neq in N. unfold str_eqb. now rewrite N.
Qed.

(** X14.  Rendering the list view sorts, with no date selected, the very
    array the tick searches; the array keeps its alarms and the tick
    finds the same alarm as before the sort. *)
Theorem render_sort_keeps_tick (localeCompare : string -> string -> Z)
        (h : Host) (now : Now) (selectedDate : option string)
        (alarms : list Alarm) :
  localeCompare (currentTimeStr now) (currentTimeStr now) <= 0 ->
  findTriggered h (alarmsAfterRender localeCompare selectedDate alarms) now
  = findTriggered h alarms now
  /\ forall x, In x (alarmsAfterRender localeCompare selectedDate alarms)
               <-> In x alarms.
Proof.
  intros R.
  assert (S : findTriggered h (sortByTime localeCompare alarms) now
              = findTriggered h alarms now).
  { unfold findTriggered. induction alarms as [|a r IH]; [reflexivity|].
    simpl. rewrite insertByTime_find by exact R. now rewrite IH. }
  unfold alarmsAfterRender.
  destruct selectedDate as [[|c s]|]; split;
    try exact S; try tauto; intros x; apply sortByTime_in.
Qed.

Lemma render_sort_keeps_tick_witness :
  alarmsAfterRender codeUnitCompare None lateFirst = [wakeUp; workout; dailyCall]
  /\ findTriggered utcHost (alarmsAfterRender codeUnitCompare None lateFirst)
                   wed0800
     = findTriggered utcHost lateFirst wed0800.
Proof.
  split; [reflexivity|].
  apply (render_sort_keeps_tick codeUnitCompare utcHost wed0800 None lateFirst).
  vm_compute. discriminate.
Defined.

(** X15.  The alarm a tick finds is on the agenda of the tick's date key:
    it is among the alarms the day cell of that key lists, and the cell
    shows its dot. *)
Theorem found_alarm_is_on_agenda (h : Host) (now : Now) (alarms : list Alarm)
        (t : Alarm) :
  findTriggered h alarms now = Some t ->
  In t (App.dayAlarms (tzOffset h) alarms (todayKey now))
  /\ existsb isEnabled (App.dayAlarms (tzOffset h) alarms (todayKey now)) = true
  /\ App.hasAlarms (tzOffset h) alarms (todayKey now) = true.
Proof.
  intros F. apply findTriggered_candidate in F. destruct F as [I C].
  apply isCandidate_iff in C. destruct C as (En & _ & On).
  assert (D : In t (App.dayAlarms (tzOffset h) alarms (todayKey now))).
  { unfold App.dayAlarms. apply filter_In. now split. }
  split; [exact D|]. split.
  - apply existsb_exists. exists t. now split.
  - unfold App.hasAlarms. apply existsb_exists. exists t. split; [exact I|].
    now rewrite En, On.
Qed.

Lemma found_alarm_is_on_agenda_witness :
  In wakeUp (App.dayAlarms 0 [wakeUp; workout] "2024-03-06").
Proof.
  apply (found_alarm_is_on_agenda utcHost wed0800 [wakeUp; workout] wakeUp).
  reflexivity.
Defined.

(** ** The editor modal's form *)

Section ModalForm.

Lemma orStr_idem (a b : string) : orStr (orStr a b) b = orStr a b.
Proof. destruct a; [destruct b|]; reflexivity. Qed.

Lemma orStr_empty (a : string) : orStr a "" = a.
Proof. now destruct a. Qed.

Lemma orStr_nonempty (a b : string) : a <> "" -> orStr a b = a.
Proof. destruct a; [congruence | reflexivity]. Qed.

Lemma nonEmptyDays_optList (l : list Z) :
  nonEmptyDays (optList (nonEmptyDays l)) = nonEmptyDays l.
Proof. now destruct l. Qed.

Lemma existsb_eqb_In (day : Z) (l : list Z) :
  existsb (fun d => d =? day) l = true <-> In day l.
Proof.
  rewrite existsb_exists. split.
  - intros (x & I & E). apply Z.eqb_eq in E. now subst.
  - intros I. exists day. split; [exact I | apply Z.eqb_refl].
Qed.

Lemma toggleDay_In (day d : Z) (l : list Z) :
  In d (toggleDay day l) <->
  (d = day /\ ~ In day l) \/ (d <> day /\ In d l).
Proof.
  unfold toggleDay. destruct (existsb (fun x => x =? day) l) eqn:E.
  - apply existsb_eqb_In in E. rewrite filter_In, negb_true_iff, Z.eqb_neq.
    split; [intros [I N]; right; now split|].
    intros [[-> N]|[N I]]; [contradiction | now split].
  - assert (N : ~ In day l).
    { intros I. apply existsb_eqb_In in I. congruence. }
    rewrite in_app_iff. simpl. split.
    + intros [I|[<-|[]]]; [|left; now split].
      right. split; [|exact I]. intros ->. contradiction.
    + intros [[-> _]|[_ I]]; [right; now left | now left].
Qed.

Lemma toggleDay_NoDup (day : Z) (l : list Z) :
  List.NoDup l -> List.NoDup (toggleDay day l).
Proof.
  intros N. unfold toggleDay.
  destruct (existsb (fun x => x =? day) l) eqn:E.
  - now apply List.NoDup_filter.
  - assert (Hn : ~ In day l).
    { intros I. apply existsb_eqb_In in I. congruence. }
    apply List.NoDup_app; [exact N | repeat constructor; simpl; tauto |].
    intros x Ix [<-|[]]. contradiction.
Qed.

Lemma count_occ_toggleDay (day d : Z) (l : list Z) :
  count_occ Z.eq_dec (toggleDay day l) d
  = if Z.eq_dec d day
    then (if existsb (fun x => x =? day) l then 0%nat else 1%nat)
    else count_occ Z.eq_dec l d.
Proof.
  unfold toggleDay. destruct (existsb (fun x => x =? day) l) eqn:E.
  - destruct (Z.eq_dec d day) as [->|Nd].
    + apply count_occ_not_In. rewrite filter_In, negb_true_iff, Z.eqb_neq.
      tauto.
    + clear E. induction l as [|x r IH]; [reflexivity|]. simpl.
      destruct (Z.eqb_spec x day) as [->|Nx]; simpl.
      * destruct (Z.eq_dec day d); [congruence | exact IH].
      * destruct (Z.eq_dec x d); now rewrite IH.
  - rewrite count_occ_app. simpl.
    destruct (Z.eq_dec d day) as [->|Nd].
    + destruct (Z.eq_dec day day); [|congruence].
      assert (N : ~ In day l).
      { intros I. apply existsb_eqb_In in I. congruence. }
      apply (count_occ_not_In Z.eq_dec) in N. now rewrite N.
    + destruct (Z.eq_dec day d); [congruence | apply Nat.add_0_r].
Qed.

Lemma toggleDays_snoc (clicks : list Z) (day : Z) (prev : list Z) :
  toggleDays (clicks ++ [day]) prev = toggleDay day (toggleDays clicks prev).
Proof. unfold toggleDays. now rewrite fold_left_app. Qed.

Lemma addSpecificDate_In (date d : string) (l : list string) :
  In d (addSpecificDate date l) <-> In d l \/ (d = date /\ date <> "").
Proof.
  unfold addSpecificDate. destruct date as [|c s].
  - split; [now left | intros [I|[_ N]]; [exact I | congruence]].
  - destruct (includes_str l (String c s)) eqn:E.
    + split; [now left|]. intros [I|[-> _]]; [exact I|].
      unfold includes_str in E. apply existsb_exists in E.
      destruct E as (y & Iy & Ey). apply String.eqb_eq in Ey. now subst.
    + rewrite in_app_iff. simpl. split.
      * intros [I|[<-|[]]]; [now left | right; split; congruence].
      * intros [I|[-> _]]; [now left | right; now left].
Qed.

Lemma addSpecificDate_NoDup (date : string) (l : list string) :
  List.NoDup l -> List.NoDup (addSpecificDate date l).
Proof.
  intros N. unfold addSpecificDate. destruct date as [|c s]; [exact N|].
  destruct (includes_str l (String c s)) eqn:E; [exact N|].
  apply List.NoDup_app; [exact N | repeat constructor; simpl; tauto |].
  intros x Ix [<-|[]].
  assert (T : includes_str l (String c s) = true).
  { unfold includes_str. apply existsb_exists. exists (String c s).
    split; [exact Ix | apply String.eqb_refl]. }
  congruence.
Qed.

Lemma removeSpecificDate_In (date d : string) (l : list string) :
  In d (removeSpecificDate date l) <-> In d l /\ d <> date.
Proof.
  unfold removeSpecificDate, str_eqb.
  now rewrite filter_In, negb_true_iff, String.eqb_neq.
Qed.

Lemma removeSpecificDate_absent (date : string) (l : list string) :
  ~ In date l -> removeSpecificDate date l = l.
Proof.
  induction l as [|x r IH]; intros N; [reflexivity|].
  unfold removeSpecificDate in *. simpl.
  destruct (str_eqb x date) eqn:E.
  - apply String.eqb_eq in E. subst. exfalso. apply N. now left.
  - simpl. f_equal. apply IH. intros I. apply N. now right.
Qed.

End ModalForm.

(** X16.  The repeat days after any clicks on the day buttons, from any
    selection the form was loaded with: a day is chosen at the end
    exactly when it was chosen at the start and clicked an even number
    of times, or not chosen at the start and clicked an odd number of
    times.  A day that was never clicked keeps the number of entries it
    was loaded with, a clicked day has at most one entry.  Hence a
    selection loaded without repetition stays without repetition, and
    if the loaded days and the clicked days are weekdays 0..6, so are
    the chosen ones, at most seven.  From the empty selection a day is
    chosen exactly when it was clicked an odd number of times. *)
Theorem toggleDays_parity (clicks prev : list Z) :
  let l := toggleDays clicks prev in
  (forall d, In d l <->
             (In d prev <-> Nat.even (count_occ Z.eq_dec clicks d) = true))
  /\ (forall d, ~ In d clicks ->
                count_occ Z.eq_dec l d = count_occ Z.eq_dec prev d)
  /\ (forall d, In d clicks -> (count_occ Z.eq_dec l d <= 1)%nat)
  /\ (List.NoDup prev -> List.NoDup l)
  /\ (List.NoDup prev ->
      (forall d, In d prev -> 0 <= d <= 6) ->
      (forall d, In d clicks -> 0 <= d <= 6) ->
      (forall d, In d l -> 0 <= d <= 6) /\ (length l <= 7)%nat)
  /\ (prev = [] ->
      forall d, In d l <-> Nat.odd (count_occ Z.eq_dec clicks d) = true).
Proof.
  cbv zeta.
  assert (M : forall d, In d (toggleDays clicks prev) <->
                        (In d prev
                         <-> Nat.even (count_occ Z.eq_dec clicks d) = true)).
  { induction clicks as [|day r IH] using rev_ind.
    - intros d. simpl. split; [intros I; split; [reflexivity | now intros _]|].
      intros [_ H]. now apply H.
    - intros d. rewrite toggleDays_snoc, toggleDay_In, count_occ_app. simpl.
      destruct (Z.eq_dec day d) as [->|Ne].
      + rewrite Nat.add_1_r, Nat.even_succ, <- Nat.negb_even, negb_true_iff.
        specialize (IH d).
        destruct (in_dec Z.eq_dec d prev) as [Ip|Ip];
          destruct (Nat.even (count_occ Z.eq_dec r d));
          destruct (in_dec Z.eq_dec d (toggleDays r prev)) as [Il|Il];
          split; intros; try tauto; try (split; intros; try tauto; congruence);
          try (exfalso; intuition congruence); intuition congruence.
      + rewrite Nat.add_0_r, <- IH. split.
        * intros [[-> _]|[_ H]]; [congruence | exact H].
        * intros H. right. split; [congruence | exact H]. }
  assert (K : forall d, ~ In d clicks ->
                        count_occ Z.eq_dec (toggleDays clicks prev) d
                        = count_occ Z.eq_dec prev d).
  { clear M. induction clicks as [|day r IH] using rev_ind; [reflexivity|].
    intros d N. rewrite toggleDays_snoc.
    assert (Nd : d <> day).
    { intros ->. apply N. apply in_or_app. right. now left. }
    rewrite count_occ_toggleDay.
    destruct (Z.eq_dec d day) as [E|_]; [contradiction|].
    apply IH. intros I. apply N. apply in_or_app. now left. }
  assert (O : forall d, In d clicks ->
                        (count_occ Z.eq_dec (toggleDays clicks prev) d <= 1)%nat).
  { clear M K. induction clicks as [|day r IH] using rev_ind; [intros d []|].
    intros d I. rewrite toggleDays_snoc, count_occ_toggleDay.
    destruct (Z.eq_dec d day) as [E|Nd].
    - destruct (existsb _ _); lia.
    - apply IH. apply in_app_or in I. destruct I as [I|[E|[]]];
        [exact I | congruence]. }
  assert (N : List.NoDup prev -> List.NoDup (toggleDays clicks prev)).
  { clear M K O. intros Np.
    induction clicks as [|day r IH] using rev_ind; [exact Np|].
    rewrite toggleDays_snoc. now apply toggleDay_NoDup. }
  split; [exact M|]. split; [exact K|]. split; [exact O|]. split; [exact N|].
  split.
  - intros Np Rp Rc.
    assert (Rg : forall d, In d (toggleDays clicks prev) -> 0 <= d <= 6).
    { intros d I. destruct (in_dec Z.eq_dec d clicks) as [Y|Y]; [now apply Rc|].
      apply Rp. apply (count_occ_In Z.eq_dec). rewrite <- (K d Y).
      now apply (count_occ_In Z.eq_dec). }
    split; [exact Rg|].
    change 7%nat with (length weekDays).
    apply List.NoDup_incl_length; [now apply N|].
    intros d I. apply Rg in I. unfold weekDays. simpl.
    assert (d = 0 \/ d = 1 \/ d = 2 \/ d = 3 \/ d = 4 \/ d = 5 \/ d = 6) by lia.
    intuition.
  - intros -> d. rewrite M, <- Nat.negb_even. simpl.
    destruct (Nat.even (count_occ Z.eq_dec clicks d)); simpl;
      intuition congruence.
Qed.

Lemma toggleDays_parity_witness :
  (In 1 (toggleDays [1; 3; 3; 5; 1; 1] [])
   <-> Nat.odd (count_occ Z.eq_dec [1; 3; 3; 5; 1; 1] 1) = true)
  /\ (In 1 (toggleDays [1] [1; 2])
      <-> (In 1 [1; 2] <-> Nat.even (count_occ Z.eq_dec [1] 1) = true))
  /\ count_occ Z.eq_dec (toggleDays [4] [6; 0; 6; 2]) 6
     = count_occ Z.eq_dec [6; 0; 6; 2] 6
  /\ List.NoDup (toggleDays [1; 2; 1] [1; 5]).
Proof.
  split.
  - exact (proj2 (proj2 (proj2 (proj2 (proj2
             (toggleDays_parity [1; 3; 3; 5; 1; 1] []))))) eq_refl 1).
  - split; [exact (proj1 (toggleDays_parity [1] [1; 2]) 1)|]. split.
    + apply (proj1 (proj2 (toggleDays_parity [4] [6; 0; 6; 2]))).
      simpl. intros [H|[]]. discriminate.
    + apply (proj1 (proj2 (proj2 (proj2 (toggleDays_parity [1; 2; 1] [1; 5]))))).
      repeat constructor; simpl; intuition discriminate.
Defined.

(** Clicking a chosen day of a loaded form takes it out, and a day the
    form was loaded with twice stays twice until it is clicked. *)
Example toggleDays_loaded_form :
  toggleDays [1] [1; 2] = [2]
  /\ toggleDays [4] [6; 0; 6; 2] = [6; 0; 6; 2; 4]
  /\ toggleDays [6; 6] [6; 0; 6; 2] = [0; 2; 6].
Proof. repeat split. Qed.

(** X17.  Picking and dropping dates, in any number and order, never
    leaves a date twice or the empty text among the chosen dates. *)
Theorem editDates_keeps_distinct (ops : list DateOp) (start : list string) :
  List.NoDup start -> ~ In "" start ->
  List.NoDup (editDates ops start) /\ ~ In "" (editDates ops start).
Proof.
  revert start. induction ops as [|op r IH]; intros start N E; [now split|].
  unfold editDates in *. simpl. apply IH.
  - destruct op as [d|d]; simpl.
    + now apply addSpecificDate_NoDup.
    + now apply List.NoDup_filter.
  - destruct op as [d|d]; simpl.
    + rewrite addSpecificDate_In. intros [I|[<- Ne]]; [now apply E | congruence].
    + rewrite removeSpecificDate_In. intros [I _]. now apply E.
Qed.

Lemma editDates_keeps_distinct_witness :
  List.NoDup (editDates [PickDate "2024-03-06"; PickDate "";
                         PickDate "2024-03-06"; DropDate "2024-03-05"]
                        ["2024-03-05"]).
Proof.
  apply (editDates_keeps_distinct _ ["2024-03-05"]).
  - repeat constructor; simpl; tauto.
  - simpl. intros [H|[]]. discriminate.
Defined.

(** X18.  Dropping a date just picked undoes the pick, when the date was
    not chosen before. *)
Theorem drop_undoes_pick (date : string) (l : list string) :
  ~ In date l ->
  removeSpecificDate date (addSpecificDate date l) = l.
Proof.
  intros N. unfold addSpecificDate. destruct date as [|c s].
  - now apply removeSpecificDate_absent.
  - destruct (includes_str l (String c s)).
    + now apply removeSpecificDate_absent.
    + unfold removeSpecificDate. rewrite List.filter_app.
      cbn [List.filter]. unfold str_eqb at 2. rewrite String.eqb_refl.
      cbn [negb]. rewrite app_nil_r. now apply removeSpecificDate_absent.
Qed.

Lemma drop_undoes_pick_witness :
  removeSpecificDate "2024-03-07" (addSpecificDate "2024-03-07" ["2024-03-06"])
  = ["2024-03-06"].
Proof.
  apply (drop_undoes_pick "2024-03-07" ["2024-03-06"]).
  simpl. intros [H|[]]. discriminate.
Defined.

(** X19.  Opening the first modal on a record it saved and saving again
    without a change gives the same record, exactly when the record has
    a non-empty sound id. *)
Theorem resave_v1_idempotent (f : ModalV1.Form) (i : string)
        (selected : option string) :
  ModalV1.handleSave (loadV1 selected (Some (withId i (ModalV1.handleSave f))))
  = ModalV1.handleSave f
  <-> ModalV1.selectedSoundId f <> "".
Proof.
  destruct f as [t lbl rd sd ur rf rt snd]. unfold ModalV1.handleSave, loadV1.
  simpl. split.
  - intros E N. subst snd. simpl in E. discriminate.
  - intros N. rewrite orStr_idem, nonEmptyDays_optList, (orStr_nonempty snd) by exact N.
    destruct ur; simpl; [now rewrite !orStr_empty | reflexivity].
Qed.

Lemma resave_v1_idempotent_witness :
  ModalV1.handleSave
    (loadV1 None (Some (withId "r1" (ModalV1.handleSave rangeFormV1))))
  = ModalV1.handleSave rangeFormV1.
Proof.
  apply (proj2 (resave_v1_idempotent rangeFormV1 "r1" None)).
  discriminate.
Defined.

Lemma resave_range (F rt S : string) :
  {| from := orStr (orStr F "") S;
     to := orStr (orStr (orStr rt F) "") (orStr (orStr F "") S) |}
  = {| from := F; to := orStr rt F |}
  <-> (F <> "" \/ S = "").
Proof.
  rewrite !orStr_empty. split.
  - intros E. injection E as E1 E2. destruct F; [|left; discriminate].
    right. exact E1.
  - intros [N| ->].
    + now rewrite (orStr_nonempty F S), orStr_idem.
    + now rewrite orStr_empty, orStr_idem.
Qed.

(** X20.  Opening the modal with alarms and events on a record it saved
    and saving again without a change gives the same record exactly
    when the sound id is not empty, an event has a non-empty end time,
    and a range either has a start or no date is selected in the
    calendar; otherwise the second save alters the record. *)
Theorem resave_v2_idempotent (f : ModalV2.Form) (i : string)
        (selected : option string) :
  let d := ModalV2.handleSave f in
  ModalV2.handleSave (loadV2 selected (Some (withId i d))) = d
  <-> (Draft.soundId d <> ""
       /\ (ModalV2.type f = event -> ModalV2.endTime f <> "")
       /\ (forall r, Draft.dateRange d = Some r ->
                     from r <> "" \/ orOpt selected "" = "")).
Proof.
  destruct f as [t et lbl ds ty rd sd ur rf rt snd init].
  unfold ModalV2.handleSave, loadV2, ModalV2.finalUseRange.
  cbn -[orStr orOpt nonEmptyDays optList].
  destruct ty, ur; cbn -[orStr orOpt nonEmptyDays optList].
  all: change (orOpt (Some et) "09:00") with (orStr et "09:00").
  all: change (orOpt (Some ds) "") with (orStr ds "").
  all: rewrite ?orStr_idem, ?nonEmptyDays_optList, ?(orStr_empty ds).
  all: split;
    [ intros E;
      pose proof (f_equal Draft.soundId E) as E1;
      pose proof (f_equal Draft.endTime E) as E2;
      pose proof (f_equal Draft.dateRange E) as E3;
      cbn -[orStr orOpt] in E1, E2, E3; clear E;
      split; [intros ->; discriminate|];
      split; [intros Hty; try discriminate; intros ->; discriminate|];
      intros r Er; try discriminate;
      injection Er as <-; cbn [from]; injection E3 as E3 E4;
      apply (resave_range _ rt); congruence
    | intros (N & Ev & Rg); rewrite (orStr_nonempty snd) by exact N;
      try rewrite (orStr_nonempty et) by (now apply Ev);
      try (specialize (Rg _ eq_refl); cbn [from] in Rg;
           apply (resave_range _ rt) in Rg; rewrite Rg);
      reflexivity ].
Qed.

Lemma resave_v2_idempotent_witness :
  ModalV2.handleSave
    (loadV2 (Some "2024-04-01")
            (Some (withId "e9" (ModalV2.handleSave eventForm))))
  = ModalV2.handleSave eventForm.
Proof.
  apply (proj2 (resave_v2_idempotent eventForm "e9" (Some "2024-04-01"))).
  split; [discriminate|]. split; [discriminate|].
  intros r E. injection E as <-. left. discriminate.
Defined.

(** ** The ringing life cycle *)

Ltac case_cond :=
  match goal with
  | |- context [if ?c then _ else _] => destruct c eqn:?
  end.

Section LifeCycle.

Variable h : Host.

Lemma v2_run_cons (ev : V2.Event) (evs : list V2.Event) (st : V2.State) :
  fst (V2.run h (ev :: evs) st) = fst (V2.run h evs (fst (V2.step h ev st))).
Proof.
  simpl. destruct (V2.step h ev st) as [st1 e1]. simpl.
  now destruct (V2.run h evs st1).
Qed.

Lemma v1_run_cons (ev : V1.Event) (evs : list V1.Event) (st : V1.State) :
  fst (V1.run h (ev :: evs) st) = fst (V1.run h evs (fst (V1.step h ev st))).
Proof.
  simpl. destruct (V1.step h ev st) as [st1 e1]. simpl.
  now destruct (V1.run h evs st1).
Qed.

Lemma v2_step_coherent (ev : V2.Event) (st : V2.State) :
  coherentV2 h st -> coherentV2 h (fst (V2.step h ev st)).
Proof.
  destruct st as [r ref note trig au ctx ai vib].
  unfold coherentV2. simpl. intros (-> & (a & -> & Pa) & -> & Ai).
  destruct a as [s l v p]. simpl in Pa. subst p.
  destruct ev as [alarms now| |a res|]; unfold V2.step, V2.syncRef.
  - unfold V2.tick. destruct (findTriggered h alarms now) as [t|]; simpl;
      [|eauto 10].
    case_cond; simpl; [|eauto 10].
    destruct (isEvent t); simpl; [eauto 10|].
    destruct r as [r|]; simpl; [eauto 10|].
    unfold V2.startRinging, V2.startAlarmVibration. simpl.
    destruct (canVibrate h); simpl; eauto 10.
  - unfold V2.handleDismissAlarm, V2.stopVibration. simpl.
    destruct ai; simpl; destruct (isSome r && canVibrate h); simpl;
      (split; [reflexivity|]; split; [eauto|]; split; [reflexivity|];
       discriminate).
  - destruct res as [| | |audio dec]; simpl; eauto 10.
    destruct r as [r|]; simpl; [|eauto 10].
    destruct (negb (str_eqb (id r) (id a))); simpl; [eauto 10|].
    destruct (negb dec); simpl; eauto 10.
  - eauto 10.
Qed.

Lemma v2_run_coherent (evs : list V2.Event) (st : V2.State) :
  coherentV2 h st -> coherentV2 h (fst (V2.run h evs st)).
Proof.
  revert st. induction evs as [|ev evs IH]; intros st C; [exact C|].
  rewrite v2_run_cons. apply IH. now apply v2_step_coherent.
Qed.

Lemma v2_initial_coherent : coherentV2 h V2.initial.
Proof.
  unfold coherentV2. simpl. split; [reflexivity|]. split; [eauto|].
  split; [reflexivity | discriminate].
Qed.

Lemma rampReachable_assigned (v : float) :
  In v assignedVolumes -> rampReachable v.
Proof. intros I. exists v, 0%nat. now split. Qed.

Lemma rampReachable_step (v : float) :
  rampReachable v -> rampReachable (V1.rampStep v).
Proof. intros (v0 & n & I & ->). exists v0, (S n). now split. Qed.

Lemma rampReachable_bounds (v : float) :
  rampReachable v ->
  PrimFloat.leb 0.05 v = true /\ PrimFloat.leb v 1 = true.
Proof.
  intros (v0 & n & I & ->).
  destruct (le_lt_dec 12 n) as [Hn|Hn].
  - rewrite (rampFrom_ceiling v0 n I Hn). split; by_eval.
  - unfold rampFrom.
    destruct I as [<-|[<-|[<-|[<-|[<-|[]]]]]];
      do 12 (destruct n as [|n]; [split; by_eval|]); lia.
Qed.

Lemma v1_step_coherent (ev : V1.Event) (st : V1.State) :
  coherentV1 st -> coherentV1 (fst (V1.step h ev st)).
Proof.
  destruct st as [r trig au ctx ai ramp].
  unfold coherentV1. simpl. intros ((a & -> & Pa & Va) & ->).
  destruct a as [s l v p]. simpl in Pa, Va. subst p.
  assert (A1 : rampReachable 0.05) by (apply rampReachable_assigned; simpl; tauto).
  assert (A2 : rampReachable 0.2) by (apply rampReachable_assigned; simpl; tauto).
  assert (A3 : rampReachable 0.8) by (apply rampReachable_assigned; simpl; tauto).
  assert (A4 : rampReachable 0.1) by (apply rampReachable_assigned; simpl; tauto).
  assert (A5 : rampReachable (V1.rampStep v)) by now apply rampReachable_step.
  assert (A6 : rampReachable (V1.rampStart h)).
  { unfold V1.rampStart. now destruct (onLine h). }
  destruct ev as [alarms now| | |a res]; unfold V1.step.
  - unfold V1.tick. destruct (findTriggered h alarms now) as [t|];
      [|destruct r; simpl; eauto 10].
    destruct r as [r|]; cbn -[V1.rampStart rampReachable].
    + rewrite andb_false_r. cbn -[V1.rampStart rampReachable]. eauto 10.
    + rewrite andb_true_r.
      case_cond; cbn -[V1.rampStart rampReachable]; eauto 10.
  - destruct r as [r|]; cbn -[V1.rampStep rampReachable]; eauto 10.
  - destruct r as [r|], ai; cbn -[rampReachable]; eauto 10.
  - destruct res as [| | |audio dec]; destruct r as [r|];
      cbn -[rampReachable]; eauto 10;
      destruct dec; cbn -[rampReachable]; eauto 10.
Qed.

Lemma v1_run_coherent (evs : list V1.Event) (st : V1.State) :
  coherentV1 st -> coherentV1 (fst (V1.run h evs st)).
Proof.
  revert st. induction evs as [|ev evs IH]; intros st C; [exact C|].
  rewrite v1_run_cons. apply IH. now apply v1_step_coherent.
Qed.

Lemma v1_initial_coherent : coherentV1 V1.initial.
Proof.
  unfold coherentV1. simpl. split; [|reflexivity].
  eexists. split; [reflexivity|]. split; [reflexivity|].
  apply rampReachable_assigned. simpl. tauto.
Qed.

End LifeCycle.

(** X21.  In the variant with events, after any sequence of ticks,
    dismissals, narration results and banner expiries from the mounted
    state: the ringing reference equals the ringing state, the audio
    element plays exactly while an alarm rings, the vibration interval
    runs exactly while an alarm rings on a host that vibrates, and a
    narration source is held only while an alarm rings. *)
Theorem v2_cells_stay_coherent (h : Host) (evs : list V2.Event) :
  let st := fst (V2.run h evs V2.initial) in
  V2.ringingAlarmRef st = V2.ringingAlarm st
  /\ (exists au, V2.alarmAudio st = Some au
                 /\ paused au = negb (isSome (V2.ringingAlarm st)))
  /\ V2.vibrationInterval st = isSome (V2.ringingAlarm st) && canVibrate h
  /\ (isSome (V2.currentAiSource st) = true ->
      isSome (V2.ringingAlarm st) = true).
Proof. exact (v2_run_coherent h evs V2.initial (v2_initial_coherent h)). Qed.

(** X22.  In the variant with events a narration only ever starts for the
    alarm that is ringing: after any history, an event that starts a
    narration is the result for an alarm with the id of the ringing
    one. *)
Theorem v2_narration_only_for_ringing (h : Host) (evs : list V2.Event)
        (ev : V2.Event) (audio : string) :
  let st := fst (V2.run h evs V2.initial) in
  In (NarrationStart audio) (snd (V2.step h ev st)) ->
  exists a r, ev = V2.GreetingResult a (Speech audio true)
              /\ V2.ringingAlarm st = Some r /\ id r = id a.
Proof.
  cbv zeta. pose proof (v2_run_coherent h evs V2.initial (v2_initial_coherent h)) as C.
  destruct (fst (V2.run h evs V2.initial)) as [r ref note trig au ctx ai vib].
  destruct C as (C1 & _). simpl in C1. subst ref.
  destruct ev as [alarms now| |a res|]; unfold V2.step, V2.syncRef.
  - unfold V2.tick. destruct (findTriggered h alarms now) as [t|]; simpl;
      [|tauto].
    case_cond; simpl; [|tauto].
    destruct (isEvent t); simpl.
    + unfold V2.playEventChime. simpl.
      destruct (canVibrate h), (notificationGranted h); simpl;
        intuition discriminate.
    + destruct r as [r|]; simpl; [tauto|].
      unfold V2.startRinging, V2.startAlarmVibration. simpl.
      destruct au, (canVibrate h), (onLine h); simpl; intuition discriminate.
  - unfold V2.handleDismissAlarm, V2.stopVibration. simpl.
    destruct au, ai, vib, (canVibrate h); simpl; intuition discriminate.
  - destruct res as [| | |aud dec]; simpl; try (intuition discriminate).
    destruct r as [r|]; simpl; [|tauto].
    destruct (str_eqb (id r) (id a)) eqn:E; simpl; [|tauto].
    apply String.eqb_eq in E.
    destruct dec; simpl; [|intuition discriminate].
    rewrite in_app_iff. intros [I|[I|[]]].
    + destruct ai; simpl in I; intuition discriminate.
    + injection I as ->. exists a, r. now split.
  - simpl. tauto.
Qed.

Lemma v2_narration_only_for_ringing_witness :
  exists a r,
    V2.GreetingResult wakeUp (Speech "pcm" true)
    = V2.GreetingResult a (Speech "pcm" true)
    /\ V2.ringingAlarm
         (fst (V2.run utcHost [V2.Tick [wakeUp] wed0800] V2.initial)) = Some r
    /\ id r = id a.
Proof.
  apply (v2_narration_only_for_ringing utcHost [V2.Tick [wakeUp] wed0800]
           (V2.GreetingResult wakeUp (Speech "pcm" true)) "pcm").
  vm_compute. left. reflexivity.
Defined.

(** X23.  In the variant with the volume ramp, after any sequence of
    ticks, ramp firings, dismissals and narration results from the
    mounted state: the audio element plays exactly while an alarm
    rings, the ramp interval runs exactly while an alarm rings, and the
    volume lies between 0.05 and 1. *)
Theorem v1_volume_stays_audible (h : Host) (evs : list V1.Event) :
  let st := fst (V1.run h evs V1.initial) in
  (exists au, V1.alarmAudio st = Some au
              /\ paused au = negb (isSome (V1.ringingAlarm st))
              /\ PrimFloat.leb 0.05 (volume au) = true
              /\ PrimFloat.leb (volume au) 1 = true)
  /\ V1.rampInterval st = isSome (V1.ringingAlarm st).
Proof.
  cbv zeta.
  destruct (v1_run_coherent h evs V1.initial v1_initial_coherent)
    as ((au & A & P & V) & R).
  split; [|exact R]. exists au. split; [exact A|]. split; [exact P|].
  now apply rampReachable_bounds.
Qed.

(** ** The sound catalog *)

Section Catalog.

Lemma find_app_some {A : Type} (p : A -> bool) (l1 l2 : list A) (x : A) :
  find p l1 = Some x -> find p (l1 ++ l2) = Some x.
Proof.
  induction l1 as [|a r IH]; simpl; [discriminate|].
  destruct (p a); [auto | exact IH].
Qed.

Lemma find_app_none {A : Type} (p : A -> bool) (l1 l2 : list A) :
  find p l1 = None -> find p (l1 ++ l2) = find p l2.
Proof.
  induction l1 as [|a r IH]; simpl; [reflexivity|].
  destruct (p a); [discriminate | exact IH].
Qed.

Lemma find_none_iff {A : Type} (p : A -> bool) (l : list A) :
  find p l = None <-> forall x, In x l -> p x = false.
Proof.
  split; [apply find_none|].
  induction l as [|a r IH]; intros H; [reflexivity|]. simpl.
  rewrite (H a (or_introl eq_refl)). apply IH. intros x I. apply H. now right.
Qed.

End Catalog.

(** X24.  The sound of an alarm is always an entry of the catalog: the
    first entry with the alarm's sound id, built-in sounds before
    stored ones, and the classic beep when no entry has the id; a
    stored sound never takes the place of a built-in one. *)
Theorem resolveSound_from_catalog (h : Host) (soundId : string) :
  let s := resolveSound h soundId in
  In s (allSounds h)
  /\ ((exists x, In x (allSounds h) /\ Sound.id x = soundId) ->
      Sound.id s = soundId)
  /\ ((forall x, In x (allSounds h) -> Sound.id x <> soundId) ->
      s = classicSound)
  /\ ((exists x, In x DEFAULT_SOUNDS /\ Sound.id x = soundId) ->
      In s DEFAULT_SOUNDS).
Proof.
  cbv zeta. unfold resolveSound, allSounds.
  destruct (find (fun s => str_eqb (Sound.id s) soundId)
                 (DEFAULT_SOUNDS ++ customSounds h)) as [s|] eqn:F.
  - destruct (find_some _ _ F) as [I E]. apply String.eqb_eq in E.
    split; [exact I|]. split; [now intros _|]. split.
    + intros N. exfalso. now apply (N s).
    + intros (x & Ix & Ex).
      destruct (find (fun s => str_eqb (Sound.id s) soundId) DEFAULT_SOUNDS)
        as [s'|] eqn:G.
      * rewrite (find_app_some _ _ (customSounds h) _ G) in F.
        injection F as <-. now apply (find_some _ _ G).
      * pose proof (find_none _ _ G x Ix) as C. simpl in C.
        apply String.eqb_neq in C. contradiction.
  - split; [simpl; now left|]. split; [|split].
    + intros (x & Ix & Ex). pose proof (find_none _ _ F x Ix) as C.
      simpl in C. apply String.eqb_neq in C. contradiction.
    + now intros _.
    + intros _. simpl. now left.
Qed.

Lemma resolveSound_from_catalog_witness :
  Sound.id (resolveSound utcHost "zen") = "zen"
  /\ resolveSound utcHost "gone" = classicSound.
Proof.
  destruct (resolveSound_from_catalog utcHost "zen") as (_ & H1 & _).
  destruct (resolveSound_from_catalog utcHost "gone") as (_ & _ & H2 & _).
  split.
  - apply H1. eexists. split; [right; right; right; left; reflexivity|].
    reflexivity.
  - apply H2. intros x I. simpl in I.
    destruct I as [<-|[<-|[<-|[<-|[]]]]]; discriminate.
Defined.

(** X25.  Storing an uploaded sound leaves every sound id that resolved
    to a catalog entry resolving to the same entry, and the new id
    resolves to the upload when no entry had it before. *)
Theorem stored_sound_resolves (h : Host) (sound : Sound.t) :
  (forall soundId x,
      In x (allSounds h) -> Sound.id x = soundId ->
      resolveSound (saveCustomSoundMetadata sound h) soundId
      = resolveSound h soundId)
  /\ ((forall x, In x (allSounds h) -> Sound.id x <> Sound.id sound) ->
      resolveSound (saveCustomSoundMetadata sound h) (Sound.id sound) = sound).
Proof.
  unfold resolveSound, allSounds, saveCustomSoundMetadata. simpl customSounds.
  split.
  - intros sid x Ix Ex.
    destruct (find (fun s => str_eqb (Sound.id s) sid)
                   (DEFAULT_SOUNDS ++ customSounds h)) as [s|] eqn:F.
    + rewrite app_assoc. now rewrite (find_app_some _ _ [sound] _ F).
    + pose proof (find_none _ _ F x Ix) as C. simpl in C.
      apply String.eqb_neq in C. contradiction.
  - intros N. rewrite app_assoc, find_app_none.
    + simpl. unfold str_eqb. now rewrite String.eqb_refl.
    + apply find_none_iff. intros x Ix. apply String.eqb_neq. now apply N.
Qed.

Lemma stored_sound_resolves_witness :
  resolveSound (saveCustomSoundMetadata uploaded utcHost) (Sound.id uploaded)
  = uploaded.
Proof.
  apply (proj2 (stored_sound_resolves utcHost uploaded)).
  intros x I. simpl in I.
  destruct I as [<-|[<-|[<-|[<-|[]]]]]; discriminate.
Defined.

(** ** The tick's clock reading *)

Section ClockReading.

Lemma formatDateKey_Day (t u : Z) :
  Day t = Day u -> formatDateKey t = formatDateKey u.
Proof. intros E. unfold formatDateKey. now rewrite E. Qed.

Lemma Day_MakeDay (y m d : Z) : Day (MakeDay y m d * msPerDay) = MakeDay y m d.
Proof. unfold Day. apply Z.div_mul. unfold msPerDay. lia. Qed.

Lemma formatDateKey_is_dateKeyOf (t y m d : Z) :
  0 <= y <= 9999 -> validDate y m d -> 0 <= YearFromDay (Day t) <= 9999 ->
  (formatDateKey t = dateKeyOf y m d <-> Day t = MakeDay y m d).
Proof.
  intros Hy Hv Ht. split.
  - intros E.
    pose proof (newDate_formatDateKey t Ht) as A.
    assert (B : newDate (dateKeyOf y m d) = Some (MakeDay y m d * msPerDay)).
    { now apply newDate_dateKeyOf. }
    rewrite E, B in A. injection A as A. unfold msPerDay in A. lia.
  - intros E. unfold dateKeyOf. apply formatDateKey_Day.
    now rewrite Day_MakeDay.
Qed.

End ClockReading.

(** X26.  The tick reads the hour and minute in local time and the date
    key in UTC: the key's day is the local day moved by the whole days
    between the local minute of the day and the offset, so east of UTC
    it is the previous local day until the local time of day reaches
    the offset, and west of UTC the next local day from then on. *)
Theorem tick_key_is_utc_day (tz t : Z) (locale : string) :
  let now := clockOf tz t locale in
  (0 <= hours now < 24 /\ 0 <= minutes now < 60 /\ 0 <= seconds now < 60)
  /\ todayKey now = formatDateKey (Day t * msPerDay)
  /\ Day t = localDay tz t + (hours now * 60 + minutes now - tz) / 1440.
Proof.
  cbv zeta. unfold clockOf, todayKey. simpl.
  unfold HourFromTime, MinFromTime, SecFromTime, localDay, Day, LocalTime.
  unfold msPerHour, msPerMinute, msPerSecond, msPerDay.
  split; [|split].
  - Z.div_mod_to_equations. lia.
  - apply formatDateKey_Day. unfold Day, msPerDay.
    now rewrite Z.div_mul by lia.
  - Z.div_mod_to_equations. lia.
Qed.

(** X27.  An enabled alarm for one chosen date is found by the tick at
    its time of day exactly when the chosen date is the UTC date of the
    moment, whatever the local date is. *)
Theorem one_date_alarm_follows_utc (h : Host) (t : Z) (locale : string)
        (a : Alarm) (y m d : Z) :
  0 <= y <= 9999 -> validDate y m d ->
  0 <= YearFromDay (Day t) <= 9999 ->
  isEnabled a = true ->
  time a = currentTimeStr (clockOf (tzOffset h) t locale) ->
  specificDates a = Some [dateKeyOf y m d] ->
  dateRange a = None -> repeatDays a = None ->
  (isCandidate h (clockOf (tzOffset h) t locale) a = true
   <-> Day t = MakeDay y m d).
Proof.
  intros Hy Hv Ht En Tm Sd Dr Rd.
  rewrite isCandidate_iff, isAlarmOnDate_cases, Sd, Dr, Rd.
  rewrite <- (formatDateKey_is_dateKeyOf t y m d Hy Hv Ht).
  change (todayKey (clockOf (tzOffset h) t locale)) with (formatDateKey t).
  split.
  - intros (_ & _ & [(l & E & I)|[(r & E & _)|(l & w & E & _)]]);
      try discriminate.
    injection E as <-. destruct I as [I|[]]. now symmetry.
  - intros E. split; [exact En|]. split; [exact Tm|]. left.
    exists [dateKeyOf y m d]. split; [reflexivity|]. left. now symmetry.
Qed.

Lemma one_date_alarm_follows_utc_witness :
  isCandidate eastHost (clockOf 330 1709674200000 "3:00:00 AM")
              (oneOff "2024-03-06" "03:00") = false
  /\ isCandidate eastHost (clockOf 330 1709760600000 "3:00:00 AM")
              (oneOff "2024-03-06" "03:00") = true.
Proof.
  assert (V : validDate 2024 3 6) by (vm_compute; split; split; discriminate).
  split.
  - destruct (isCandidate eastHost (clockOf 330 1709674200000 "3:00:00 AM")
                          (oneOff "2024-03-06" "03:00")) eqn:C; [|reflexivity].
    apply (one_date_alarm_follows_utc eastHost 1709674200000 "3:00:00 AM"
             (oneOff "2024-03-06" "03:00") 2024 3 6) in C;
      try reflexivity; try exact V; try lia.
    + vm_compute in C. discriminate.
    + vm_compute. split; discriminate.
  - apply (one_date_alarm_follows_utc eastHost 1709760600000 "3:00:00 AM"
             (oneOff "2024-03-06" "03:00") 2024 3 6);
      try reflexivity; try exact V; try lia.
    vm_compute. split; discriminate.
Defined.

(** ** The first application's tick and the alarm card *)

(** X28.  The first application's tick, on a whole minute with a matching
    alarm, starts the catalog sound and then shows exactly one message,
    a notification with the permission and an alert without; the time
    in the message is the local time of the tick in the chosen
    form. *)
Theorem v0_tick_announces_local_time (h : Host) (use24Hour : bool)
        (alarms : list Alarm) (now : Now) (t : Alarm) :
  findTriggered h alarms now = Some t ->
  seconds now = 0 ->
  0 <= hours now < 24 -> 0 <= minutes now < 60 ->
  let shown := if use24Hour then currentTimeStr now
               else display12 (hours now, minutes now) in
  V0.tick h use24Hour true alarms now
  = [ V0.Play (Sound.url (resolveSound h (soundId t)));
      if notificationGranted h
      then V0.Notification ("Zora: " +:+ label t) ("Synchronized: " +:+ shown)
      else V0.Alert ("☀️ ZORA AWAKENING: " +:+ label t +:+ " (" +:+ shown
                     +:+ ")") ].
Proof.
  intros F S Hh Hm. cbv zeta. unfold V0.tick. rewrite F, S. simpl.
  apply findTriggered_candidate in F. destruct F as [_ C].
  apply isCandidate_iff in C. destruct C as (_ & Tm & _).
  rewrite Tm. change (currentTimeStr now) with (clockTime (hours now) (minutes now)).
  rewrite (formatTimeDisplay_clockTime _ _ use24Hour Hh Hm).
  now destruct (notificationGranted h).
Qed.

Lemma v0_tick_announces_local_time_witness :
  V0.tick utcHost false true [wakeUp; workout] wed0800
  = [ V0.Play "https://actions.google.com/sounds/v1/alarms/beep_short.ogg";
      V0.Notification "Zora: Wake up" "Synchronized: 8:00 AM" ].
Proof.
  exact (v0_tick_announces_local_time utcHost false [wakeUp; workout] wed0800
           wakeUp eq_refl eq_refl ltac:(simpl; lia) ltac:(simpl; lia)).
Defined.

(** X29.  The card labels an alarm without a range or a chosen date as a
    one-time point unless it repeats on exactly seven days; an alarm
    that repeats on fewer days carries that label and still matches
    every date whose local weekday is among its days. *)
Theorem one_time_label_on_weekly_alarm (tz : Z) (a : Alarm) (l : list Z)
        (dateKey : string) (w : Z) :
  repeatDays a = Some l -> length l <> 7%nat ->
  dateRange a = None ->
  specificDates a = None \/ specificDates a = Some [] ->
  getDay tz (newDate dateKey) = Some w -> In w l ->
  getScheduleLabel a = "One-time Point"
  /\ isAlarmOnDate tz a dateKey = true.
Proof.
  intros Rd Ln Dr Sd G I. split.
  - unfold getScheduleLabel. rewrite Rd, Dr.
    apply Nat.eqb_neq in Ln. rewrite Ln.
    now destruct Sd as [-> | ->].
  - apply isAlarmOnDate_cases. right. right. exists l, w. now split.
Qed.

Lemma one_time_label_on_weekly_alarm_witness :
  getScheduleLabel workdays = "One-time Point"
  /\ isAlarmOnDate 0 workdays "2024-03-13" = true.
Proof.
  apply (one_time_label_on_weekly_alarm 0 workdays [1; 2; 3; 4; 5]
           "2024-03-13" 3); try reflexivity.
  - discriminate.
  - now right.
  - simpl. tauto.
Defined.

(** ** Quick add *)

Section QuickAdd.

Lemma MakeDay_prev_month (y m : Z) :
  2 <= m <= 12 ->
  MakeDay y m 1 - 1 = MakeDay y (m - 1) (daysInMonth (InLeapYear y) (m - 1)).
Proof.
  intros Hm. unfold MakeDay.
  assert (C : m = 2 \/ m = 3 \/ m = 4 \/ m = 5 \/ m = 6 \/ m = 7
              \/ m = 8 \/ m = 9 \/ m = 10 \/ m = 11 \/ m = 12) by lia.
  destruct (InLeapYear y);
    repeat (destruct C as [->|C]; [simpl; lia|]); subst; simpl; lia.
Qed.

Lemma MakeDay_prev_year (y : Z) : MakeDay y 1 1 - 1 = MakeDay (y - 1) 12 31.
Proof.
  unfold MakeDay. pose proof (DayFromYear_step (y - 1)) as S.
  replace (y - 1 + 1) with y in S by lia.
  destruct (InLeapYear (y - 1)); simpl; lia.
Qed.

Lemma localDay_utc_midnight (tz day : Z) :
  -1440 < tz < 1440 ->
  localDay tz (day * msPerDay) = day - (if tz <? 0 then 1 else 0).
Proof.
  intros H. unfold localDay, Day, LocalTime, msPerDay, msPerMinute.
  destruct (Z.ltb_spec tz 0); Z.div_mod_to_equations; lia.
Qed.

End QuickAdd.

(** X30.  After a quick add in the variant with the volume ramp the
    calendar opens on the first of the month the date has in local
    time: the month of the date, except west of UTC for the first of a
    month, where it is the month before. *)
Theorem quick_add_opens_local_month (tz y m d : Z) :
  101 <= y <= 9999 -> validDate y m d -> -1440 < tz < 1440 ->
  exists v,
    quickAddView tz (dateKeyOf y m d) = Some v
    /\ LocalTime tz v mod msPerDay = 0
    /\ localDay tz v
       = MakeDayJS y (m - 1 - (if (tz <? 0) && (d =? 1) then 1 else 0)) 1.
Proof.
  intros Hy Hv Htz. unfold quickAddView.
  rewrite (newDate_dateKeyOf y m d) by (try assumption; lia).
  assert (V : forall y' m', 100 <= y' <= 9999 -> 0 <= m' <= 11 ->
                newDateYMD tz y' m' 1 = Some (localMidnight tz y' m' 1)).
  { intros y' m' Hy' Hm'. unfold newDateYMD, localMidnight.
    assert (F' : fullYear y' = y').
    { unfold fullYear.
      destruct (Z.leb_spec 0 y'), (Z.leb_spec y' 99); simpl; lia. }
    rewrite F'. apply (TimeClip_local_midnight tz Htz).
    rewrite MakeDayJS_MakeDay.
    rewrite (Z.div_small m' 12), (Z.mod_small m' 12), Z.add_0_r by lia.
    destruct (civil_of_MakeDay y' (m' + 1) 1) as (Ey & _).
    { split; [lia|]. pose proof (daysInMonth_range (InLeapYear y') (m' + 1)).
      lia. }
    pose proof (YearFromDay_spec (MakeDay y' (m' + 1) 1)) as S.
    rewrite Ey in S.
    pose proof (DayFromYear_le 100 y' ltac:(lia)) as L.
    pose proof (DayFromYear_le (y' + 1) 10000 ltac:(lia)) as U.
    assert (E0 : DayFromYear 100 = -683003) by reflexivity.
    assert (E1 : DayFromYear 10000 = 2932897) by reflexivity.
    lia. }
  pose proof (MonthFromDay_range
                (Day (LocalTime tz (MakeDay y m d * msPerDay)))) as Rm.
  assert (Ry : 100 <= getFullYear tz (MakeDay y m d * msPerDay) <= 9999).
  { unfold getFullYear.
    change (Day (LocalTime tz (MakeDay y m d * msPerDay)))
      with (localDay tz (MakeDay y m d * msPerDay)).
    rewrite (localDay_utc_midnight tz _ Htz).
    destruct Hv as [Hm Hd].
    pose proof (YearFromDay_spec (MakeDay y m d - (if tz <? 0 then 1 else 0)))
      as S.
    destruct (civil_of_MakeDay y m d (conj Hm Hd)) as (Ey & _).
    pose proof (YearFromDay_spec (MakeDay y m d)) as S0. rewrite Ey in S0.
    set (Y := YearFromDay (MakeDay y m d - (if tz <? 0 then 1 else 0))) in *.
    assert (Y = y \/ Y = y - 1).
    { destruct (Z.lt_trichotomy Y (y - 1)) as [L|[E|G]]; [|now right|].
      - pose proof (DayFromYear_le (Y + 1) (y - 1) ltac:(lia)) as L1.
        pose proof (DayFromYear_mono (y - 1) y ltac:(lia)) as L2.
        destruct (tz <? 0); lia.
      - destruct (Z.eq_dec Y y) as [E|N]; [now left|].
        pose proof (DayFromYear_le (y + 1) Y ltac:(lia)) as L1.
        destruct (tz <? 0); lia. }
    lia. }
  exists (localMidnight tz (getFullYear tz (MakeDay y m d * msPerDay))
                        (getMonth tz (MakeDay y m d * msPerDay)) 1).
  split; [apply V; [exact Ry | exact Rm]|].
  split; [apply localDay_localMidnight|].
  rewrite (proj1 (localDay_localMidnight tz _ _ 1)).
  unfold getFullYear, getMonth.
  change (Day (LocalTime tz (MakeDay y m d * msPerDay)))
    with (localDay tz (MakeDay y m d * msPerDay)).
  rewrite (localDay_utc_midnight tz _ Htz).
  destruct Hv as [Hm Hd].
  pose proof (daysInMonth_range (InLeapYear y) m) as R.
  assert (F : forall k, 100 <= k -> fullYear k = k).
  { intros k Hk. unfold fullYear.
    destruct (Z.leb_spec 0 k), (Z.leb_spec k 99); simpl; lia. }
  destruct (Z.ltb_spec tz 0) as [W|E]; cbn [andb].
  - destruct (Z.eqb_spec d 1) as [->|D].
    + destruct (Z.eq_dec m 1) as [->|M].
      * rewrite MakeDay_prev_year.
        destruct (civil_of_MakeDay (y - 1) 12 31) as (Ey & Em & _).
        { split; [lia | simpl; lia]. }
        rewrite Ey, Em, F by lia. unfold MakeDayJS.
        change ((1 - 1 - 1) / 12) with (-1).
        change ((1 - 1 - 1) mod 12) with 11.
        change ((12 - 1) / 12) with 0.
        change ((12 - 1) mod 12) with 11.
        now replace (y - 1 + 0) with (y + -1) by lia.
      * rewrite MakeDay_prev_month by lia.
        pose proof (daysInMonth_range (InLeapYear y) (m - 1)) as R'.
        destruct (civil_of_MakeDay y (m - 1)
                    (daysInMonth (InLeapYear y) (m - 1))) as (Ey & Em & _).
        { split; lia. }
        rewrite Ey, Em, F by lia. f_equal; lia.
    + replace (MakeDay y m d - 1) with (MakeDay y m (d - 1))
        by (unfold MakeDay; lia).
      destruct (civil_of_MakeDay y m (d - 1)) as (Ey & Em & _).
      { split; lia. }
      rewrite Ey, Em, F by lia. f_equal; lia.
  - rewrite Z.sub_0_r.
    destruct (civil_of_MakeDay y m d) as (Ey & Em & _).
    { split; lia. }
    rewrite Ey, Em, F by lia. f_equal; lia.
Qed.

Lemma quick_add_opens_local_month_witness :
  exists v,
    quickAddView (-300) "2024-03-01" = Some v
    /\ LocalTime (-300) v mod msPerDay = 0
    /\ localDay (-300) v = MakeDayJS 2024 1 1.
Proof.
  apply (quick_add_opens_local_month (-300) 2024 3 1); try lia.
  vm_compute. split; split; discriminate.
Defined.
